(** * react-testgen: a shallow embedding of [src/index.ts]

    The tool walks a directory tree, infers the export shape of every
    [.tsx] component with four regular expressions and writes a test stem
    beside it.  This file embeds the program in Rocq and states its
    properties.

    - JavaScript strings are lists of UTF-16 code units ([jsstring]).
    - The regular expressions of the source are data, run by a small
      backtracking matcher.
    - Node's [path] module is modelled function by function, in its POSIX
      flavour; [process.cwd()] is the parameter [pcwd].
    - The file system is a tree of directories and files without symbolic
      links, with a read and a write permission on each node; a file holds
      the text
      that [readFile] decodes and [writeFile] encodes.
    - [main] runs in a state-and-exception monad over the file system and
      a trace of the console lines and of the files read and written.
    - The Unicode case mapping outside ASCII is a parameter ([Unicode]). *)

From Stdlib Require Import String Ascii List NArith Bool Arith Lia.
Import ListNotations.

Set Implicit Arguments.

(** ** JavaScript strings *)

(** A string is its sequence of UTF-16 code units. *)
Definition jsstring := list N.

(** Literals are written as Rocq strings and converted once. *)
Definition str (s : string) : jsstring :=
  map N_of_ascii (list_ascii_of_string s).

Definition dquote : N := 34.
Definition newline : N := 10.

(** [a === b] on strings. *)
Definition jseq (a b : jsstring) : bool :=
  if list_eq_dec N.eq_dec a b then true else false.

(** [s.startsWith(p)] *)
Fixpoint startsWith (s p : jsstring) {struct p} : bool :=
  match p, s with
  | [], _ => true
  | _ :: _, [] => false
  | c :: p', d :: s' => N.eqb c d && startsWith s' p'
  end.

(** [s.endsWith(p)] *)
Definition endsWith (s p : jsstring) : bool := startsWith (rev s) (rev p).

(** [s.charAt(0)]: the first code unit as a string, or the empty string. *)
Definition charAt0 (s : jsstring) : jsstring :=
  match s with [] => [] | c :: _ => [c] end.

(** [s.slice(1)] *)
Definition slice1 (s : jsstring) : jsstring := skipn 1 s.

(** [xs.includes(x)] on an array of strings. *)
Definition includes (xs : list jsstring) (x : jsstring) : bool :=
  existsb (jseq x) xs.

(** [String.prototype.toUpperCase] needs the Unicode case tables, which are
    part of the JavaScript engine.  The ASCII range is written out; the
    mapping of a code unit outside ASCII is supplied by the host.  A
    mapping yields at least one code unit (a first unit and the rest), as
    upper-casing never deletes a character. *)
Class Unicode := { unicodeUpper : N -> N * jsstring }.

(** [s.toUpperCase()] for a string [s] of at most one code unit, which is
    what [charAt(0)] returns. *)
Definition toUpperCase_unit `{Unicode} (s : jsstring) : jsstring :=
  match s with
  | [] => []
  | c :: _ =>
      if (97 <=? c)%N && (c <=? 122)%N then [(c - 32)%N]
      else if (c <? 128)%N then [c]
      else let '(u, us) := unicodeUpper c in u :: us
  end.

(** The instance used to evaluate the program on ASCII inputs: it leaves
    the other code units alone. *)
Definition AsciiCase : Unicode := {| unicodeUpper := fun c => (c, []) |}.

(** ** Config *)

Definition COMPONENT_EXTENSIONS : list jsstring := [str ".tsx"].

Record ComponentExportInfo := {
  importName : jsstring;
  importLine : jsstring;
  jsxTag : jsstring
}.

Record CliOptions := {
  rootDir : jsstring;
  dryRun : bool;
  force : bool
}.

(** ** CLI args *)

(** The body of the [for (const arg of args)] loop, on the three mutable
    locals. *)
Definition parseArgs_arg (o : CliOptions) (arg : jsstring) : CliOptions :=
  if jseq arg (str "--dry-run") then
    {| rootDir := rootDir o; dryRun := true; force := force o |}
  else if jseq arg (str "--force") then
    {| rootDir := rootDir o; dryRun := dryRun o; force := true |}
  else if negb (startsWith arg (str "-")) then
    {| rootDir := arg; dryRun := dryRun o; force := force o |}
  else o.

(** [parseArgs] reads [process.argv], here its argument [argv]. *)
Definition parseArgs (argv : list jsstring) : CliOptions :=
  let args := skipn 2 argv in
  fold_left parseArgs_arg args
    {| rootDir := str "src"; dryRun := false; force := false |}.

(** ** Regular expressions

    The patterns of the source use literal characters, the classes [\s]
    and [[A-Za-z0-9_]], the greedy quantifiers [+], [*] and [?] on single
    characters, one capturing group and the anchor [$].  They carry no
    flag except [g], so they work on code units. *)

Inductive atom :=
| AChar (c : N)   (* a literal character *)
| ASpace          (* \s *)
| AIdent.         (* [A-Za-z0-9_] *)

Inductive quant := One | OneOrMore | ZeroOrMore | ZeroOrOne.

Inductive item :=
| Item (a : atom) (q : quant)
| GroupOpen       (* ( *)
| GroupClose      (* ) *)
| EndAnchor.      (* $ *)

Definition regex := list item.

(** ECMAScript [\s]: WhiteSpace and LineTerminator code points. *)
Definition isSpace (c : N) : bool :=
  ((9 <=? c) && (c <=? 13) || (c =? 32) || (c =? 160) || (c =? 5760)
   || (8192 <=? c) && (c <=? 8202) || (c =? 8232) || (c =? 8233)
   || (c =? 8239) || (c =? 8287) || (c =? 12288) || (c =? 65279))%N.

Definition isIdent (c : N) : bool :=
  ((65 <=? c) && (c <=? 90) || (97 <=? c) && (c <=? 122)
   || (48 <=? c) && (c <=? 57) || (c =? 95))%N.

Definition atom_matches (a : atom) (c : N) : bool :=
  match a with
  | AChar d => N.eqb d c
  | ASpace => isSpace c
  | AIdent => isIdent c
  end.

(** The number of leading code units of [s] that match [a]. *)
Fixpoint run_length (a : atom) (s : jsstring) : nat :=
  match s with
  | c :: s' => if atom_matches a c then S (run_length a s') else 0
  | [] => 0
  end.

Definition quant_min (q : quant) : nat :=
  match q with One | OneOrMore => 1 | ZeroOrMore | ZeroOrOne => 0 end.

Definition quant_max (q : quant) (available : nat) : nat :=
  match q with
  | One | ZeroOrOne => Nat.min 1 available
  | OneOrMore | ZeroOrMore => available
  end.

(** Matcher state: whether the group is open, and what it has captured. *)
Record mstate := { group_open : bool; captured : jsstring }.

Definition consume (st : mstate) (taken : jsstring) : mstate :=
  if group_open st
  then {| group_open := true; captured := captured st ++ taken |}
  else st.

(** Greedy choice with backtracking: try the counts [k], [k-1], ... down to
    [lo] and keep the first for which the rest of the pattern matches. *)
Fixpoint try_counts (A : Type) (rest : nat -> option A) (lo k : nat) : option A :=
  if k <? lo then None
  else match rest k with
       | Some r => Some r
       | None => match k with
                 | 0 => None
                 | S k' => try_counts rest lo k'
                 end
       end.

(** [exec re s st] matches [re] at the start of [s]; it returns the capture
    of group 1 and the input left after the match. *)
Fixpoint exec (re : regex) (s : jsstring) (st : mstate)
  : option (jsstring * jsstring) :=
  match re with
  | [] => Some (captured st, s)
  | GroupOpen :: re' => exec re' s {| group_open := true; captured := [] |}
  | GroupClose :: re' =>
      exec re' s {| group_open := false; captured := captured st |}
  | EndAnchor :: re' => match s with [] => exec re' s st | _ :: _ => None end
  | Item a q :: re' =>
      try_counts
        (fun k => exec re' (skipn k s) (consume st (firstn k s)))
        (quant_min q) (quant_max q (run_length a s))
  end.

Definition initial_mstate : mstate := {| group_open := false; captured := [] |}.

(** The result of a search: the text before the match, group 1, and the
    text after the match. *)
Record rmatch := { before : jsstring; group1 : jsstring; after : jsstring }.

(** The leftmost match: the start positions are tried from left to right,
    the end of the string included. *)
Fixpoint search_from (re : regex) (pre_rev : jsstring) (s : jsstring)
  : option rmatch :=
  match exec re s initial_mstate with
  | Some (g, rest) =>
      Some {| before := rev pre_rev; group1 := g; after := rest |}
  | None =>
      match s with
      | [] => None
      | c :: s' => search_from re (c :: pre_rev) s'
      end
  end.

Definition search (re : regex) (s : jsstring) : option rmatch :=
  search_from re [] s.

(** [s.match(re)], of which the program reads group 1 only. *)
Definition js_match (re : regex) (s : jsstring) : option jsstring :=
  option_map group1 (search re s).

(** [s.replace(re, by)] for a pattern without the [g] flag. *)
Definition replace_first (re : regex) (by_ : jsstring) (s : jsstring) : jsstring :=
  match search re s with
  | Some m => before m ++ by_ ++ after m
  | None => s
  end.

(** [s.replace(/\\/g, '/')]: every backslash becomes a slash. *)
Definition replace_backslashes (s : jsstring) : jsstring :=
  map (fun c => if (c =? 92)%N then 47%N else c) s.

Definition lit (s : string) : regex := map (fun c => Item (AChar c) One) (str s).
Definition spaces1 : regex := [Item ASpace OneOrMore].
Definition spaces0 : regex := [Item ASpace ZeroOrMore].
Definition ident_group : regex := [GroupOpen; Item AIdent OneOrMore; GroupClose].

(** [/export\s+default\s+function\s+([A-Za-z0-9_]+)/] *)
Definition re_default_function : regex :=
  lit "export" ++ spaces1 ++ lit "default" ++ spaces1 ++ lit "function"
  ++ spaces1 ++ ident_group.

(** [/export\s+default\s+([A-Za-z0-9_]+)/] *)
Definition re_default : regex :=
  lit "export" ++ spaces1 ++ lit "default" ++ spaces1 ++ ident_group.

(** [/export\s+function\s+([A-Za-z0-9_]+)/] *)
Definition re_function : regex :=
  lit "export" ++ spaces1 ++ lit "function" ++ spaces1 ++ ident_group.

(** [/export\s+const\s+([A-Za-z0-9_]+)\s*=\s*\(/] *)
Definition re_const : regex :=
  lit "export" ++ spaces1 ++ lit "const" ++ spaces1 ++ ident_group
  ++ spaces0 ++ lit "=" ++ spaces0 ++ lit "(".

(** [/\.tsx?$/] *)
Definition re_ts_ext : regex :=
  lit ".ts" ++ [Item (AChar 120) ZeroOrOne; EndAnchor].

(** ** Node's [path] module, POSIX flavour

    The functions below follow [lib/path.js] of Node: [normalizeString]
    works segment by segment, the others scan the string from its end as
    the library does. *)

Module Path.

Definition slash : N := 47.
Definition dot : N := 46.

Definition isSlash (c : N) : bool := N.eqb c slash.

(** [s.split('/')] *)
Fixpoint split_slash (s : jsstring) : list jsstring :=
  match s with
  | [] => [[]]
  | c :: s' =>
      if isSlash c then [] :: split_slash s'
      else match split_slash s' with
           | seg :: segs => (c :: seg) :: segs
           | [] => [[c]]
           end
  end.

(** [segs.join('/')] *)
Fixpoint join_slash (segs : list jsstring) : jsstring :=
  match segs with
  | [] => []
  | [seg] => seg
  | seg :: segs' => seg ++ slash :: join_slash segs'
  end.

Definition isEmpty (s : jsstring) : bool :=
  match s with [] => true | _ :: _ => false end.

Definition isDot (s : jsstring) : bool := jseq s [dot].
Definition isDotDot (s : jsstring) : bool := jseq s [dot; dot].

(** One separator-delimited segment of [normalizeString]; [stack] holds the
    segments of [res], the last one first. *)
Definition normalize_segment (allowAboveRoot : bool)
    (stack : list jsstring) (seg : jsstring) : list jsstring :=
  if isEmpty seg || isDot seg then stack
  else if isDotDot seg then
    match stack with
    | top :: below =>
        if isDotDot top
        then (if allowAboveRoot then seg :: stack else stack)
        else below
    | [] => if allowAboveRoot then [seg] else []
    end
  else seg :: stack.

Definition normalizeString (path : jsstring) (allowAboveRoot : bool) : jsstring :=
  join_slash
    (rev (fold_left (normalize_segment allowAboveRoot) (split_slash path) [])).

Definition isAbsolute (path : jsstring) : bool :=
  match path with c :: _ => isSlash c | [] => false end.

Definition hasTrailingSlash (path : jsstring) : bool :=
  match rev path with c :: _ => isSlash c | [] => false end.

(** [path.normalize(path)] *)
Definition normalize (path : jsstring) : jsstring :=
  if isEmpty path then [dot]
  else
    let absolute := isAbsolute path in
    let trailingSeparator := hasTrailingSlash path in
    let path' := normalizeString path (negb absolute) in
    if isEmpty path' then
      (if absolute then [slash]
       else if trailingSeparator then [dot; slash] else [dot])
    else
      let path'' := if trailingSeparator then path' ++ [slash] else path' in
      if absolute then slash :: path'' else path''.

(** [path.join(...args)] *)
Definition join (args : list jsstring) : jsstring :=
  match filter (fun a => negb (isEmpty a)) args with
  | [] => [dot]
  | parts => normalize (join_slash parts)
  end.

(** The loop of [path.resolve]: the arguments are taken from the right
    until an absolute one is met. *)
Fixpoint resolve_args (args_rev : list jsstring) (resolvedPath : jsstring)
  : jsstring * bool :=
  match args_rev with
  | [] => (resolvedPath, false)
  | path :: more =>
      if isEmpty path then resolve_args more resolvedPath
      else
        let resolvedPath' := path ++ slash :: resolvedPath in
        if isAbsolute path then (resolvedPath', true)
        else resolve_args more resolvedPath'
  end.

(** [path.resolve(...args)], in a process whose working directory is
    [pcwd]. *)
Definition resolve (pcwd : jsstring) (args : list jsstring) : jsstring :=
  let '(resolvedPath, resolvedAbsolute) :=
    resolve_args (rev args ++ [pcwd]) [] in
  let resolvedPath' := normalizeString resolvedPath (negb resolvedAbsolute) in
  if resolvedAbsolute then slash :: resolvedPath'
  else if isEmpty resolvedPath' then [dot] else resolvedPath'.

(** Scanning from the end: the trailing slashes are skipped, then the last
    segment is read.  Both helpers work on the reversed string. *)
Fixpoint skip_slashes (r : jsstring) : jsstring :=
  match r with
  | c :: r' => if isSlash c then skip_slashes r' else r
  | [] => []
  end.

(** The reversed last segment, and what is left of it (still reversed,
    beginning with the slash that ends the scan, if any). *)
Fixpoint take_segment (r : jsstring) : jsstring * jsstring :=
  match r with
  | c :: r' =>
      if isSlash c then ([], r)
      else let '(seg, rest) := take_segment r' in (c :: seg, rest)
  | [] => ([], [])
  end.

(** [path.dirname(path)]; the scan stops before index 0. *)
Definition dirname (path : jsstring) : jsstring :=
  match path with
  | [] => [dot]
  | c0 :: tail =>
      let hasRoot := isSlash c0 in
      match snd (take_segment (skip_slashes (rev tail))) with
      | [] => if hasRoot then [slash] else [dot]    (* end === -1 *)
      | _ :: before_rev =>                         (* end = 1 + |before| *)
          if hasRoot && isEmpty before_rev then [slash; slash]
          else c0 :: rev before_rev
      end
  end.

(** The last segment of [path], trailing slashes ignored. *)
Definition last_segment (path : jsstring) : jsstring :=
  rev (fst (take_segment (skip_slashes (rev path)))).

(** The trailing slashes of [path]. *)
Definition trailing_slashes (path : jsstring) : jsstring :=
  firstn (List.length path - List.length (skip_slashes (rev path))) (rev path).

(** The backward comparison of the last segment with [suffix] in
    [path.basename]: both arguments reversed. *)
Inductive suffix_scan :=
| Matched (stem_rev : jsstring)   (* the whole suffix was found *)
| Mismatch                        (* some character differs *)
| Exhausted.                      (* the segment ended first *)

Fixpoint scan_suffix (seg_rev suffix_rev : jsstring) : suffix_scan :=
  match suffix_rev with
  | [] => Matched seg_rev
  | x :: suffix_rev' =>
      match seg_rev with
      | [] => Exhausted
      | c :: seg_rev' =>
          if N.eqb c x then scan_suffix seg_rev' suffix_rev' else Mismatch
      end
  end.

(** [path.basename(path, suffix)] *)
Definition basename (path suffix : jsstring) : jsstring :=
  if negb (isEmpty suffix) && (List.length suffix <=? List.length path) then
    if jseq suffix path then []
    else
      let seg := last_segment path in
      match scan_suffix (rev seg) (rev suffix) with
      | Matched stem_rev =>
          if isEmpty stem_rev then seg     (* start === end *)
          else rev stem_rev
      | Mismatch => seg
      | Exhausted => seg ++ trailing_slashes path   (* end = path.length *)
      end
  else last_segment path.

(** The index of the last dot of a segment, given reversed: the characters
    after the dot (reversed) and those before it (reversed). *)
Fixpoint split_last_dot (seg_rev : jsstring) : option (jsstring * jsstring) :=
  match seg_rev with
  | [] => None
  | c :: r =>
      if N.eqb c dot then Some ([], r)
      else match split_last_dot r with
           | Some (after_rev, before_rev) => Some (c :: after_rev, before_rev)
           | None => None
           end
  end.

(** [path.extname(path)] *)
Definition extname (path : jsstring) : jsstring :=
  let seg_rev := fst (take_segment (skip_slashes (rev path))) in
  match split_last_dot seg_rev with
  | None => []                                     (* startDot === -1 *)
  | Some (after_rev, before_rev) =>
      if isEmpty before_rev then []                (* preDotState === 0 *)
      else if forallb (N.eqb dot) before_rev       (* preDotState === 1 *)
              && isEmpty after_rev                  (* startDot === end - 1 *)
              && (List.length before_rev =? 1)     (* startDot === startPart + 1 *)
      then []
      else dot :: rev after_rev
  end.

(** The comparison loop of [path.relative] on the two paths without their
    first character: the length of the common prefix (at most [len]) and
    the index of the last slash in it ([None] for -1). *)
Fixpoint common_prefix (f t : jsstring) (len i : nat) (lastCommonSep : option nat)
  : nat * option nat :=
  match len, f, t with
  | S len', c :: f', d :: t' =>
      if N.eqb c d
      then common_prefix f' t' len' (S i)
             (if isSlash c then Some i else lastCommonSep)
      else (i, lastCommonSep)
  | _, _, _ => (i, lastCommonSep)
  end.

Definition charIs (s : jsstring) (i : nat) (c : N) : bool :=
  match nth_error s i with Some d => N.eqb d c | None => false end.

(** The [..] segments that climb out of what is left of [from]: one for
    the end of the string and one for each slash. *)
Fixpoint climb (rest : jsstring) (out : jsstring) : jsstring :=
  let up := if isEmpty out then [dot; dot] else out ++ [slash; dot; dot] in
  match rest with
  | [] => up
  | c :: rest' => climb rest' (if isSlash c then up else out)
  end.

(** [path.relative(from, to)], in a process whose working directory is
    [pcwd]. *)
Definition relative (pcwd from to : jsstring) : jsstring :=
  if jseq from to then []
  else
    let from := resolve pcwd [from] in
    let to := resolve pcwd [to] in
    if jseq from to then []
    else
      let f := skipn 1 from in
      let t := skipn 1 to in
      let fromLen := List.length f in
      let toLen := List.length t in
      let length := Nat.min fromLen toLen in
      let '(i, lastCommonSep) := common_prefix f t length 0 None in
      let finish (lastCommonSep : option nat) :=
        match lastCommonSep with
        | None => climb f [] ++ to
        | Some k =>
            (if S k <=? fromLen then climb (skipn (S k) f) [] else [])
            ++ skipn (S k) to
        end in
      if i =? length then
        if length <? toLen then
          if charIs t i slash then skipn (S i) t
          else if i =? 0 then skipn i t
          else finish lastCommonSep
        else if length <? fromLen then
          if charIs f i slash then finish (Some i)
          else if i =? 0 then finish (Some 0)
          else finish lastCommonSep
        else finish lastCommonSep
      else finish lastCommonSep.

End Path.

(** ** Output path *)

Definition getTestPath (filePath : jsstring) : jsstring :=
  let dir := Path.dirname filePath in
  let base := Path.basename filePath (Path.extname filePath) in
  Path.join [dir; base ++ str ".test.tsx"].

(** ** Export introspection *)

Definition default_import (name relativeImport : jsstring) : ComponentExportInfo :=
  {| importName := name;
     importLine := str "import " ++ name ++ str " from " ++ [dquote]
                   ++ relativeImport ++ [dquote] ++ str ";";
     jsxTag := str "<" ++ name ++ str " />" |}.

Definition named_import (name relativeImport : jsstring) : ComponentExportInfo :=
  {| importName := name;
     importLine := str "import { " ++ name ++ str " } from " ++ [dquote]
                   ++ relativeImport ++ [dquote] ++ str ";";
     jsxTag := str "<" ++ name ++ str " />" |}.

(** [a || b] on strings: the empty string is falsy. *)
Definition or_else (a b : jsstring) : jsstring :=
  match a with [] => b | _ :: _ => a end.

Section ExportInfo.
Context `{Unicode}.

Definition relativeImport_of (pcwd filePath : jsstring) : jsstring :=
  let testPath := getTestPath filePath in
  replace_first re_ts_ext []
    (replace_backslashes
       (Path.relative pcwd (Path.dirname testPath) filePath)).

Definition fallbackName_of (filePath : jsstring) : jsstring :=
  let baseName := Path.basename filePath (Path.extname filePath) in
  or_else (toUpperCase_unit (charAt0 baseName) ++ slice1 baseName)
          (str "ComponentUnderTest").

(** What [inferExportInfo] computes once the file is read: [source] is the
    text of the file at [filePath]. *)
Definition exportInfo_of_source (pcwd filePath source : jsstring)
  : ComponentExportInfo :=
  let relativeImport := relativeImport_of pcwd filePath in
  match js_match re_default_function source with
  | Some name => default_import name relativeImport
  | None =>
  match js_match re_default source with
  | Some name => default_import name relativeImport
  | None =>
  match js_match re_function source with
  | Some name => named_import name relativeImport
  | None =>
  match js_match re_const source with
  | Some name => named_import name relativeImport
  | None => default_import (fallbackName_of filePath) relativeImport
  end end end end.

End ExportInfo.

(** ** Test template *)

Definition createTestTemplate (filePath : jsstring) (exportInfo : ComponentExportInfo)
  : jsstring :=
  let componentLabel := Path.basename filePath (Path.extname filePath) in
  str "import { render, screen } from " ++ [dquote]
    ++ str "@testing-library/react" ++ [dquote] ++ str ";" ++ [newline]
  ++ str "import " ++ [dquote] ++ str "@testing-library/jest-dom" ++ [dquote]
    ++ str ";" ++ [newline]
  ++ importLine exportInfo ++ [newline]
  ++ [newline]
  ++ str "describe(" ++ [dquote] ++ componentLabel ++ [dquote]
    ++ str ", () => {" ++ [newline]
  ++ str "  it(" ++ [dquote] ++ str "renders without crashing" ++ [dquote]
    ++ str ", () => {" ++ [newline]
  ++ str "    render(" ++ jsxTag exportInfo ++ str ");" ++ [newline]
  ++ str "    // TODO: replace this with meaningful assertions" ++ [newline]
  ++ str "    // Example:" ++ [newline]
  ++ str "    // expect(screen.getByText(/some text/i)).toBeInTheDocument();"
    ++ [newline]
  ++ str "  });" ++ [newline]
  ++ str "});" ++ [newline].

(** ** The file system

    A directory lists its entries in the order [readdir] returns them.
    Files hold their text (what [readFile(_, 'utf8')] returns and
    [writeFile(_, _, 'utf8')] stores).  The flags [readable] and
    [writable] are the read and the write permission that the process has
    on the file or the directory.  There are no symbolic links. *)

Inductive node :=
| File (readable writable : bool) (content : jsstring)
| Dir (readable writable : bool) (entries : dirents)
with dirents :=
| DNil
| DCons (name : jsstring) (child : node) (rest : dirents).

Scheme node_dirents_ind := Induction for node Sort Prop
  with dirents_node_ind := Induction for dirents Sort Prop.
Combined Scheme node_mutind from node_dirents_ind, dirents_node_ind.

Definition isDirectory (n : node) : bool :=
  match n with Dir _ _ _ => true | File _ _ _ => false end.

Fixpoint find_entry (name : jsstring) (entries : dirents) : option node :=
  match entries with
  | DNil => None
  | DCons name' child rest =>
      if jseq name name' then Some child else find_entry name rest
  end.

(** The first entry called [name] is replaced. *)
Fixpoint replace_entry (name : jsstring) (n : node) (entries : dirents) : dirents :=
  match entries with
  | DNil => DNil
  | DCons name' child rest =>
      if jseq name name' then DCons name' n rest
      else DCons name' child (replace_entry name n rest)
  end.

(** A new entry goes to the end of the listing. *)
Fixpoint append_entry (entries : dirents) (name : jsstring) (n : node) : dirents :=
  match entries with
  | DNil => DCons name n DNil
  | DCons name' child rest => DCons name' child (append_entry rest name n)
  end.

Inductive errno := ENOENT | ENOTDIR | EISDIR | EACCES.

Inductive outcome (A : Type) :=
| Returned (a : A)
| Thrown (e : errno).
Arguments Thrown {A} e.

(** The node reached from [n] along the components [comps]. *)
Fixpoint lookup_comps (n : node) (comps : list jsstring) : option node :=
  match comps with
  | [] => Some n
  | c :: comps' =>
      match n with
      | Dir _ _ entries =>
          match find_entry c entries with
          | Some child => lookup_comps child comps'
          | None => None
          end
      | File _ _ _ => None
      end
  end.

(** The tree after [content] is written at [comps], or the error of
    [open] for writing: an existing file that may be written keeps its
    permissions and gets the new text, a missing file is created, readable
    and writable, in an existing directory that may be written, and a
    directory cannot be written. *)
Fixpoint write_comps (n : node) (comps : list jsstring) (content : jsstring)
  : outcome node :=
  match comps with
  | [] =>
      match n with
      | File r wr _ => if wr then Returned (File r wr content) else Thrown EACCES
      | Dir _ _ _ => Thrown EISDIR
      end
  | c :: comps' =>
      match n with
      | File _ _ _ => Thrown ENOTDIR
      | Dir r wr entries =>
          match find_entry c entries with
          | Some child =>
              match write_comps child comps' content with
              | Returned child' =>
                  Returned (Dir r wr (replace_entry c child' entries))
              | Thrown e => Thrown e
              end
          | None =>
              match comps' with
              | [] =>
                  if wr
                  then Returned (Dir r wr (append_entry entries c
                                             (File true true content)))
                  else Thrown EACCES
              | _ :: _ => Thrown ENOENT
              end
          end
      end
  end.

(** The components the kernel follows for a path.  The program passes only
    paths built by [path.resolve] and [path.join] from the working
    directory: they are absolute and hold no [.] or [..] component, which
    are not given a meaning here (no entry has such a name). *)
Definition os_path (p : jsstring) : list jsstring :=
  filter (fun seg => negb (Path.isEmpty seg)) (Path.split_slash p).

Definition lookup (fs : node) (p : jsstring) : option node :=
  lookup_comps fs (os_path p).

(** ** Effects

    The world is the file system and the trace of what the process did
    that can be observed: console lines, and the calls that read or write
    a file's text. *)

Inductive event :=
| ConsoleLog (line : jsstring)
| ConsoleError (line : jsstring)
| ConsoleErrorValue (e : errno)
| ReadFile (p : jsstring)
| WriteFile (p : jsstring) (content : jsstring).

Record world := { fs : node; trace : list event }.

Definition emit (e : event) (w : world) : world :=
  {| fs := fs w; trace := trace w ++ [e] |}.

Definition M (A : Type) := world -> outcome A * world.

Definition ret {A} (a : A) : M A := fun w => (Returned a, w).

Definition bind {A B} (m : M A) (k : A -> M B) : M B :=
  fun w =>
    match m w with
    | (Returned a, w') => k a w'
    | (Thrown e, w') => (Thrown e, w')
    end.

Notation "x <- m ;; k" := (bind m (fun x => k))
  (at level 61, m at next level, right associativity).
Notation "m ;;; k" := (bind m (fun _ => k))
  (at level 61, right associativity).

(** [try { await m; x = true } catch { x = false }] *)
Definition succeeds {A} (m : M A) : M bool :=
  fun w =>
    match m w with
    | (Returned _, w') => (Returned true, w')
    | (Thrown _, w') => (Returned false, w')
    end.

Definition console_log (line : jsstring) : M unit :=
  fun w => (Returned tt, emit (ConsoleLog line) w).

(** [fs.access(p)] *)
Definition fs_access (p : jsstring) : M unit :=
  fun w =>
    match lookup (fs w) p with
    | Some _ => (Returned tt, w)
    | None => (Thrown ENOENT, w)
    end.

(** [fs.readFile(p, 'utf8')] *)
Definition fs_readFile (p : jsstring) : M jsstring :=
  fun w =>
    let w' := emit (ReadFile p) w in
    match lookup (fs w) p with
    | Some (File true _ content) => (Returned content, w')
    | Some (File false _ _) => (Thrown EACCES, w')
    | Some (Dir _ _ _) => (Thrown EISDIR, w')
    | None => (Thrown ENOENT, w')
    end.

(** [fs.writeFile(p, content, 'utf8')] *)
Definition fs_writeFile (p content : jsstring) : M unit :=
  fun w =>
    let w' := emit (WriteFile p content) w in
    match write_comps (fs w) (os_path p) content with
    | Returned fs' => (Returned tt, {| fs := fs'; trace := trace w' |})
    | Thrown e => (Thrown e, w')
    end.

(** ** File discovery *)

Definition EXCLUDED_DIRS : list jsstring :=
  [str "node_modules"; str "dist"; str "build"; str ".git"].

(** The test of lines 66-70 of the source. *)
Definition excluded_file (name : jsstring) : bool :=
  endsWith name (str ".test.tsx")
  || endsWith name (str ".stories.tsx")
  || startsWith name (str ".").

(** [walk dir n results]: the inner function of [findComponentFiles], where
    [n] is what [dir] names in the file system ([readdir] of a child's full
    path lists that child) and [results] is the array being filled.  When
    [readdir] throws (not a readable directory) the walk returns. *)
Fixpoint walk (dir : jsstring) (n : node) (results : list jsstring) {struct n}
  : list jsstring :=
  match n with
  | Dir true _ entries => walk_entries dir entries results
  | Dir false _ _ => results
  | File _ _ _ => results
  end
with walk_entries (dir : jsstring) (entries : dirents) (results : list jsstring)
  {struct entries} : list jsstring :=
  match entries with
  | DNil => results
  | DCons name child rest =>
      let fullPath := Path.join [dir; name] in
      let results' :=
        if isDirectory child then
          if includes EXCLUDED_DIRS name then results
          else walk fullPath child results
        else
          if excluded_file name then results
          else if includes COMPONENT_EXTENSIONS (Path.extname name)
               then results ++ [fullPath]
               else results
      in walk_entries dir rest results'
  end.

(** A missing root makes the first [readdir] throw as well. *)
Definition findComponentFiles (rootDir : jsstring) : M (list jsstring) :=
  fun w =>
    match lookup (fs w) rootDir with
    | Some n => (Returned (walk rootDir n []), w)
    | None => (Returned [], w)
    end.

(** ** Main *)

Section Main.
Context `{Unicode}.

Definition inferExportInfo (pcwd filePath : jsstring) : M ComponentExportInfo :=
  source <- fs_readFile filePath ;;
  ret (exportInfo_of_source pcwd filePath source).

(** The body of the [for (const file of files)] loop of [main]. *)
Definition main_file (pcwd : jsstring) (opts : CliOptions) (file : jsstring)
  : M unit :=
  let testPath := getTestPath file in
  testExists <- succeeds (fs_access testPath) ;;
  if testExists && negb (force opts) then ret tt
  else
    exportInfo <- inferExportInfo pcwd file ;;
    let template := createTestTemplate file exportInfo in
    if dryRun opts then
      console_log (str "[DRY RUN] Would create: " ++ testPath)
    else
      fs_writeFile testPath template ;;;
      console_log ((if testExists then str "Overwrote" else str "Created")
                   ++ str ": " ++ Path.relative pcwd pcwd testPath).

Fixpoint for_each (files : list jsstring) (body : jsstring -> M unit) : M unit :=
  match files with
  | [] => ret tt
  | file :: files' => body file ;;; for_each files' body
  end.

(** [main], for the arguments [argv] and the working directory [pcwd] of
    the process. *)
Definition main (argv : list jsstring) (pcwd : jsstring) : M unit :=
  let opts := parseArgs argv in
  let cwd := pcwd in
  let absoluteRoot := Path.resolve pcwd [cwd; rootDir opts] in
  console_log (str "react-testgen: scanning " ++ [dquote] ++ absoluteRoot
               ++ [dquote]) ;;;
  files <- findComponentFiles absoluteRoot ;;
  if List.length files =? 0 then
    console_log (str "No component files found.")
  else
    for_each files (main_file pcwd opts) ;;;
    console_log (str "react-testgen: done.").

(** [main().catch(...)]: the exit status and the final world. *)
Definition run (argv : list jsstring) (pcwd : jsstring) (w : world) : N * world :=
  match main argv pcwd w with
  | (Returned _, w') => (0%N, w')
  | (Thrown err, w') =>
      (1%N, emit (ConsoleErrorValue err)
              (emit (ConsoleError (str "react-testgen: error")) w'))
  end.

End Main.

(** * Vocabulary of the properties

    Predicates, sample data and the file-system view of the run that the
    statements below are written with. *)

(** ** Arguments and export shapes *)

(** A token that begins with a dash. *)
Definition is_flag (arg : jsstring) : bool := startsWith arg (str "-").

(** None of the four patterns matches [source]. *)
Definition no_rule_matches (source : jsstring) : Prop :=
  js_match re_default_function source = None
  /\ js_match re_default source = None
  /\ js_match re_function source = None
  /\ js_match re_const source = None.

(** The synthesized name, by cases on the base name. *)
Definition capitalized `{Unicode} (baseName : jsstring) : jsstring :=
  match baseName with
  | [] => str "ComponentUnderTest"
  | c :: rest => toUpperCase_unit [c] ++ rest
  end.

(** The matcher is outside the capturing group. *)
Definition closed (st : mstate) : Prop := group_open st = false.

(** The text of a default function declaration, with any white space
    between its words. *)
Definition default_function_declaration (sp1 sp2 sp3 foo : jsstring) : jsstring :=
  str "export" ++ sp1 ++ str "default" ++ sp2 ++ str "function" ++ sp3 ++ foo.

(** White space that [\s+] can match. *)
Definition white (sp : jsstring) : Prop := sp <> [] /\ forallb isSpace sp = true.

(** A name that [[A-Za-z0-9_]+] can match. *)
Definition identifier (name : jsstring) : Prop :=
  name <> [] /\ forallb isIdent name = true.

(** One file with a [const] export and a default function, in the two
    orders. *)
Definition source_const_then_default : jsstring :=
  str "export const Bar = () => null;" ++ [newline]
  ++ str "export default function Foo() { return null; }".

Definition source_default_then_const : jsstring :=
  str "export default function Foo() { return null; }" ++ [newline]
  ++ str "export const Bar = () => null;".

(** The text [word] occurs somewhere in [s]. *)
Fixpoint occurs_in (word s : jsstring) : bool :=
  startsWith s word
  || match s with
     | [] => false
     | _ :: s' => occurs_in word s'
     end.

(** The pattern [re] matches at no position of [pre] in the text
    [pre ++ rest]: a match of [re] in that text begins in [rest]. *)
Fixpoint unmatched_before (re : regex) (pre rest : jsstring) : bool :=
  match pre with
  | [] => true
  | c :: pre' =>
      match exec re (c :: pre' ++ rest) initial_mstate with
      | Some _ => false
      | None => unmatched_before re pre' rest
      end
  end.

(** The two declarations after a default function that is commented out,
    and with a default function whose name begins with [Foo]. *)
Definition source_commented_default : jsstring :=
  str "// export default function Old() {}" ++ [newline]
  ++ str "export default function Foo() { return null; }" ++ [newline]
  ++ str "export const Bar = () => null;".

Definition source_longer_name : jsstring :=
  str "export const Bar = () => null;" ++ [newline]
  ++ str "export default function FooBar() { return null; }".

(** ** Trees and discovery *)

(** [name] is listed in [entries], with [child] behind it. *)
Fixpoint In_entries (name : jsstring) (child : node) (entries : dirents) : Prop :=
  match entries with
  | DNil => False
  | DCons name' child' rest =>
      (name = name' /\ child = child') \/ In_entries name child rest
  end.

(** The listing [first] followed by the listing [second]. *)
Fixpoint dirents_app (first second : dirents) : dirents :=
  match first with
  | DNil => second
  | DCons name child rest => DCons name child (dirents_app rest second)
  end.

(** [reaches n ds name]: below the directory [n], the directories named
    [ds], one inside the other and all readable, lead to an entry [name]
    that is not a directory. *)
Inductive reaches : node -> list jsstring -> jsstring -> Prop :=
| reaches_file wr entries name child :
    In_entries name child entries ->
    isDirectory child = false ->
    reaches (Dir true wr entries) [] name
| reaches_dir wr entries d child ds name :
    In_entries d child entries ->
    isDirectory child = true ->
    reaches child ds name ->
    reaches (Dir true wr entries) (d :: ds) name.

(** The path [walk] builds for the entry reached along [names] from [dir]. *)
Definition path_below (dir : jsstring) (names : list jsstring) : jsstring :=
  fold_left (fun d name => Path.join [d; name]) names dir.

(** The test of line 61 of the source, negated. *)
Definition not_excluded_dir (d : jsstring) : bool := negb (includes EXCLUDED_DIRS d).

(** The files that discovery is meant to select below [n], itself at [dir]. *)
Definition selected (n : node) (dir p : jsstring) : Prop :=
  exists ds name,
    reaches n ds name
    /\ forallb not_excluded_dir ds = true
    /\ excluded_file name = false
    /\ includes COMPONENT_EXTENSIONS (Path.extname name) = true
    /\ p = path_below dir (ds ++ [name]).

(** What one listing contributes, entry by entry. *)
Definition selected_in (entries : dirents) (dir p : jsstring) : Prop :=
  exists name child,
    In_entries name child entries
    /\ ((isDirectory child = false
         /\ excluded_file name = false
         /\ includes COMPONENT_EXTENSIONS (Path.extname name) = true
         /\ p = Path.join [dir; name])
        \/ (isDirectory child = true
            /\ includes EXCLUDED_DIRS name = false
            /\ selected child (Path.join [dir; name]) p)).

(** A tree with one entry of every excluded kind beside two components. *)
Definition noisy_tree : node :=
  Dir true true
    (DCons (str "Foo.tsx") (File true true [])
    (DCons (str "Foo.test.tsx") (File true true [])
    (DCons (str "Foo.stories.tsx") (File true true [])
    (DCons (str ".hidden.tsx") (File true true [])
    (DCons (str "notes.md") (File true true [])
    (DCons (str "node_modules") (Dir true true (DCons (str "A.tsx") (File true true []) DNil))
    (DCons (str "dist") (Dir true true (DCons (str "B.tsx") (File true true []) DNil))
    (DCons (str "build") (Dir true true (DCons (str "C.tsx") (File true true []) DNil))
    (DCons (str ".git") (Dir true true (DCons (str "D.tsx") (File true true []) DNil))
    (DCons (str "ui") (Dir true true (DCons (str "Card.tsx") (File true true []) DNil))
     DNil)))))))))).

(** [readdir] throws on what is missing, on a file and on a directory
    without read permission. *)
Definition readdir_fails (target : option node) : bool :=
  match target with
  | Some (Dir true _ _) => false
  | Some (Dir false _ _) | Some (File _ _ _) | None => true
  end.

(** A directory without read permission, and a project that holds it. *)
Definition locked_dir : node :=
  Dir false true (DCons (str "Hidden.tsx") (File true true (str "export default Hidden;")) DNil).

Definition locked_tree : node :=
  Dir true true
    (DCons (str "p") (Dir true true
       (DCons (str "src") (Dir true true
          (DCons (str "locked") locked_dir
          (DCons (str "Open.tsx") (File true true (str "export default Open;")) DNil)))
        DNil))
     DNil).

(** The content of a directory called [.cache]. *)
Definition cache_dir : node :=
  Dir true true (DCons (str "Card.tsx") (File true true (str "export const Card = () => null;")) DNil).

(** The name of a generated test file. *)
Definition is_test_name (name : jsstring) : bool := endsWith name (str ".test.tsx").

(** The last component is the name of a test file. *)
Fixpoint names_test_file (comps : list jsstring) : bool :=
  match comps with
  | [] => false
  | [name] => is_test_name name
  | _ :: comps' => names_test_file comps'
  end.

(** The files discovery returns for a root, in a given file system. *)
Definition found (tree : node) (rootDir : jsstring) : list jsstring :=
  match lookup tree rootDir with
  | Some n => walk rootDir n []
  | None => []
  end.

(** The same for the node a lookup has reached, if any. *)
Definition walk_of (target : option node) (dir : jsstring) : list jsstring :=
  match target with
  | Some n => walk dir n []
  | None => []
  end.

(** ** Paths in normal form *)

(** A name that a directory entry can have. *)
Definition plain (name : jsstring) : Prop :=
  name <> []
  /\ existsb Path.isSlash name = false
  /\ name <> [Path.dot]
  /\ name <> [Path.dot; Path.dot].

(** The absolute path with the components [comps]: for no component, the
    root. *)
Definition absolute_path (comps : list jsstring) : jsstring :=
  Path.slash :: Path.join_slash comps.

(** A component file name: a stem that is not empty, and [.tsx]. *)
Definition component_name (stem : jsstring) : jsstring := stem ++ str ".tsx".

(** ** The run as a function of the file system

    What [main] does to the file system depends on the file system alone;
    the functions below give that effect. *)

(** What [fs.readFile] returns or throws. *)
Definition read_result (tree : node) (p : jsstring) : outcome jsstring :=
  match lookup tree p with
  | Some (File true _ content) => Returned content
  | Some (File false _ _) => Thrown EACCES
  | Some (Dir _ _ _) => Thrown EISDIR
  | None => Thrown ENOENT
  end.

(** Whether [fs.access] succeeds. *)
Definition exists_in (tree : node) (p : jsstring) : bool :=
  match lookup tree p with Some _ => true | None => false end.

(** The loop over the files, stopped by the first exception. *)
Fixpoint for_each_fs (files : list jsstring)
    (body : jsstring -> node -> outcome unit * node) (tree : node)
  : outcome unit * node :=
  match files with
  | [] => (Returned tt, tree)
  | file :: files' =>
      match body file tree with
      | (Returned _, tree') => for_each_fs files' body tree'
      | (Thrown e, tree') => (Thrown e, tree')
      end
  end.

(** The outcome of a computation and the file system it leaves. *)
Definition on_fs {A} (r : outcome A * world) : outcome A * node :=
  (fst r, fs (snd r)).

(** The body of the loop of [main]. *)
Definition main_file_fs `{Unicode} (pcwd : jsstring) (opts : CliOptions)
    (file : jsstring) (tree : node) : outcome unit * node :=
  let testPath := getTestPath file in
  if exists_in tree testPath && negb (force opts) then (Returned tt, tree)
  else
    match read_result tree file with
    | Thrown e => (Thrown e, tree)
    | Returned source =>
        let template :=
          createTestTemplate file (exportInfo_of_source pcwd file source) in
        if dryRun opts then (Returned tt, tree)
        else match write_comps tree (os_path testPath) template with
             | Returned tree' => (Returned tt, tree')
             | Thrown e => (Thrown e, tree)
             end
    end.

(** The file system a run leaves. *)
Definition run_fs `{Unicode} (argv : list jsstring) (pcwd : jsstring) (tree : node)
  : node :=
  let opts := parseArgs argv in
  let absoluteRoot := Path.resolve pcwd [pcwd; rootDir opts] in
  let files := found tree absoluteRoot in
  if List.length files =? 0 then tree
  else snd (for_each_fs files (main_file_fs pcwd opts) tree).

(** ** A sample project *)

(** A project with one component that has a test and one that has none. *)
Definition project_tree : node :=
  Dir true true
    (DCons (str "p") (Dir true true
       (DCons (str "src") (Dir true true
          (DCons (str "Old.tsx") (File true true (str "export function Old() {}"))
          (DCons (str "Old.test.tsx") (File true true (str "keep me"))
          (DCons (str "Button.tsx")
             (File true true (str "export default function Button() { return null; }"))
           DNil))))
        DNil))
     DNil).

(** The project before anything has run. *)
Definition project_world : world := {| fs := project_tree; trace := [] |}.

(** [process.argv] for the command-line arguments [args]. *)
Definition node_argv (args : list jsstring) : list jsstring :=
  str "node" :: str "react-testgen" :: args.

(** ** Further vocabulary *)

(** A token that [parseArgs] reads: one of the two flags, or a token that
    does not start with a dash. *)
Definition known_token (arg : jsstring) : bool :=
  jseq arg (str "--dry-run") || jseq arg (str "--force") || negb (is_flag arg).

(** Every entry below [n] has a name that [readdir] can return: not empty,
    without a slash, and neither [.] nor [..]. *)
Fixpoint plain_names (n : node) : Prop :=
  match n with
  | File _ _ _ => True
  | Dir _ _ entries => plain_entries entries
  end
with plain_entries (entries : dirents) : Prop :=
  match entries with
  | DNil => True
  | DCons name child rest =>
      plain name /\ plain_names child /\ plain_entries rest
  end.

(** No directory below [n] lists a name twice. *)
Fixpoint distinct_names (n : node) : Prop :=
  match n with
  | File _ _ _ => True
  | Dir _ _ entries => distinct_entries entries
  end
with distinct_entries (entries : dirents) : Prop :=
  match entries with
  | DNil => True
  | DCons name child rest =>
      find_entry name rest = None /\ distinct_names child
      /\ distinct_entries rest
  end.

(** What a run over the discovered [files] may do: read one of them, write
    the test path of one of them unless the run is a dry run, and print. *)
Definition event_allowed (opts : CliOptions) (files : list jsstring) (e : event)
  : Prop :=
  match e with
  | ReadFile p => In p files
  | WriteFile p _ =>
      dryRun opts = false /\ exists file, In file files /\ p = getTestPath file
  | ConsoleLog _ | ConsoleError _ | ConsoleErrorValue _ => True
  end.

(** A listing without anything to select: files that are excluded by name
    or have another extension, and directories with an excluded name. *)
Fixpoint only_noise (entries : dirents) : bool :=
  match entries with
  | DNil => true
  | DCons name child rest =>
      (if isDirectory child then includes EXCLUDED_DIRS name
       else excluded_file name
            || negb (includes COMPONENT_EXTENSIONS (Path.extname name)))
      && only_noise rest
  end.

(** The scenario of a directory with a stories file and a test file only. *)
Definition stories_only_tree : node :=
  Dir true true
    (DCons (str "p") (Dir true true
       (DCons (str "src") (Dir true true
          (DCons (str "Button.stories.tsx") (File true true (str "export default {};"))
          (DCons (str "Button.test.tsx") (File true true (str "test"))
           DNil)))
        DNil))
     DNil).

(** A project whose second component cannot be read. *)
Definition broken_tree : node :=
  Dir true true
    (DCons (str "p") (Dir true true
       (DCons (str "src") (Dir true true
          (DCons (str "A.tsx") (File true true (str "export default A;"))
          (DCons (str "B.tsx") (File false true (str "export default B;"))
          (DCons (str "C.tsx") (File true true (str "export default C;"))
           DNil))))
        DNil))
     DNil).


(** A project whose source directory may be read and not written. *)
Definition read_only_tree : node :=
  Dir true true
    (DCons (str "p") (Dir true true
       (DCons (str "src") (Dir true false
          (DCons (str "A.tsx") (File true true (str "export default A;")) DNil))
        DNil))
     DNil).

(** An item that consumes text: not a group delimiter, not an anchor. *)
Definition is_item (i : item) : bool :=
  match i with Item _ _ => true | _ => false end.

(** White space that [\s*] can match: possibly none. *)
Definition blank (sp : jsstring) : Prop := forallb isSpace sp = true.

(** The text of a named function declaration. *)
Definition function_declaration (sp1 sp2 foo : jsstring) : jsstring :=
  str "export" ++ sp1 ++ str "function" ++ sp2 ++ foo.

(** The text of a [const] declaration of an arrow function, up to the
    opening parenthesis. *)
Definition const_declaration (sp1 sp2 bar sp3 sp4 : jsstring) : jsstring :=
  str "export" ++ sp1 ++ str "const" ++ sp2 ++ bar ++ sp3 ++ str "=" ++ sp4
  ++ str "(".

(** The text of a default export of a name. *)
Definition default_declaration (sp1 sp2 foo : jsstring) : jsstring :=
  str "export" ++ sp1 ++ str "default" ++ sp2 ++ foo.

(** * Properties *)

(** ** Strings *)

Lemma jseq_true (a b : jsstring) : jseq a b = true <-> a = b.
Proof. unfold jseq. destruct (list_eq_dec N.eq_dec a b); split; congruence. Qed.

Lemma jseq_false (a b : jsstring) : jseq a b = false <-> a <> b.
Proof. unfold jseq. destruct (list_eq_dec N.eq_dec a b); split; congruence. Qed.

Lemma jseq_refl (a : jsstring) : jseq a a = true.
Proof. apply jseq_true. reflexivity. Qed.

(** ** Argument parsing *)

Lemma parseArgs_arg_rootDir (o : CliOptions) (arg : jsstring) :
  rootDir (parseArgs_arg o arg) = if is_flag arg then rootDir o else arg.
Proof.
  unfold parseArgs_arg, is_flag.
  destruct (jseq arg (str "--dry-run")) eqn:E1.
  { apply jseq_true in E1. subst arg. reflexivity. }
  destruct (jseq arg (str "--force")) eqn:E2.
  { apply jseq_true in E2. subst arg. reflexivity. }
  destruct (startsWith arg (str "-")); reflexivity.
Qed.

Lemma last_default_irrelevant (A : Type) (l : list A) (a b : A) :
  l <> [] -> last l a = last l b.
Proof.
  induction l as [|x [|y l'] IHl]; intro Hl; try congruence; try reflexivity.
  apply IHl. discriminate.
Qed.

Lemma fold_parseArgs_rootDir (args : list jsstring) (o : CliOptions) :
  rootDir (fold_left parseArgs_arg args o)
  = last (filter (fun a => negb (is_flag a)) args) (rootDir o).
Proof.
  revert o. induction args as [|arg args IH]; intro o; simpl.
  - reflexivity.
  - rewrite IH, parseArgs_arg_rootDir.
    destruct (is_flag arg); simpl.
    + reflexivity.
    + destruct (filter (fun a => negb (is_flag a)) args) as [|x l] eqn:E.
      * reflexivity.
      * apply last_default_irrelevant. discriminate.
Qed.

(** What [parseArgs] computes: the last token that does not start with a
    dash, and ["src"] when there is none. *)
Lemma parseArgs_rootDir_last (argv : list jsstring) :
  rootDir (parseArgs argv)
  = last (filter (fun a => negb (is_flag a)) (skipn 2 argv)) (str "src").
Proof. unfold parseArgs. apply fold_parseArgs_rootDir. Qed.

Lemma parseArgs_rootDir_default (argv : list jsstring) :
  forallb is_flag (skipn 2 argv) = true -> rootDir (parseArgs argv) = str "src".
Proof.
  intro Hall. rewrite parseArgs_rootDir_last.
  induction (skipn 2 argv) as [|a l IH]; simpl in *.
  - reflexivity.
  - apply andb_true_iff in Hall as [Ha Hl]. rewrite Ha. simpl. auto.
Qed.

(** C2.  With two tokens that are not flags, [a] before [b], among
    [--dry-run] and [--force], [parseArgs] returns the second one, [b]: every
    such token overwrites [rootDir], though the comment in the loop reads
    "First non-flag arg = root dir". *)
Theorem parseArgs_keeps_last_root :
  let argv := [str "node"; str "react-testgen"; str "--dry-run"; str "a";
               str "--force"; str "b"] in
  parseArgs argv = {| rootDir := str "b"; dryRun := true; force := true |}
  /\ hd_error (filter (fun a => negb (is_flag a)) (skipn 2 argv)) = Some (str "a")
  /\ rootDir (parseArgs argv) <> str "a".
Proof.
  repeat split; try reflexivity.
  vm_compute. discriminate.
Qed.

(** ** Export inference *)

Section ExportInfoProps.
Context {U : Unicode}.

Lemma exportInfo_fallback (pcwd filePath source : jsstring) :
  no_rule_matches source ->
  exportInfo_of_source pcwd filePath source
  = default_import (fallbackName_of filePath) (relativeImport_of pcwd filePath).
Proof.
  intros (H1 & H2 & H3 & H4). unfold exportInfo_of_source.
  rewrite H1, H2, H3, H4. reflexivity.
Qed.

Lemma toUpperCase_unit_nonempty (c : N) : toUpperCase_unit [c] <> [].
Proof.
  unfold toUpperCase_unit.
  destruct ((97 <=? c)%N && (c <=? 122)%N); [discriminate|].
  destruct (c <? 128)%N; [discriminate|].
  destruct (unicodeUpper c). discriminate.
Qed.

Lemma toUpperCase_unit_ascii_lower (c : N) :
  (97 <= c <= 122)%N -> toUpperCase_unit [c] = [(c - 32)%N].
Proof.
  intros [Hlo Hhi]. unfold toUpperCase_unit.
  apply N.leb_le in Hlo, Hhi. rewrite Hlo, Hhi. reflexivity.
Qed.

Lemma fallbackName_capitalized (filePath : jsstring) :
  fallbackName_of filePath
  = capitalized (Path.basename filePath (Path.extname filePath)).
Proof.
  unfold fallbackName_of, capitalized.
  destruct (Path.basename filePath (Path.extname filePath)) as [|c rest].
  - reflexivity.
  - change (charAt0 (c :: rest)) with [c].
    change (slice1 (c :: rest)) with rest.
    destruct (toUpperCase_unit [c]) as [|u us] eqn:E.
    + exfalso. apply (toUpperCase_unit_nonempty c). exact E.
    + reflexivity.
Qed.

End ExportInfoProps.

(** C8.  When no rule matches, the name is the base name with its first
    code unit upper-cased and the rest unchanged, the fixed placeholder
    [ComponentUnderTest] for an empty base name, and the result is a default
    import of that name with the self-closing tag of that name. *)
Theorem fallback_capitalizes_base_name
    (U : Unicode) (pcwd filePath source : jsstring) :
  no_rule_matches source ->
  let baseName := Path.basename filePath (Path.extname filePath) in
  let info := exportInfo_of_source pcwd filePath source in
  (baseName = [] -> importName info = str "ComponentUnderTest")
  /\ (forall c rest, baseName = c :: rest ->
        importName info = toUpperCase_unit [c] ++ rest)
  /\ (forall c rest, baseName = c :: rest -> (97 <= c <= 122)%N ->
        importName info = (c - 32)%N :: rest)
  /\ importLine info
     = str "import " ++ importName info ++ str " from " ++ [dquote]
       ++ relativeImport_of pcwd filePath ++ [dquote] ++ str ";"
  /\ jsxTag info = str "<" ++ importName info ++ str " />".
Proof.
  intros Hnone baseName info.
  assert (Hinfo : info = default_import (capitalized baseName)
                           (relativeImport_of pcwd filePath)).
  { unfold info. rewrite (exportInfo_fallback _ _ Hnone).
    rewrite fallbackName_capitalized. reflexivity. }
  rewrite Hinfo. simpl importName. simpl importLine. simpl jsxTag.
  repeat split.
  - intros ->. reflexivity.
  - intros c rest ->. reflexivity.
  - intros c rest -> Hc. unfold capitalized.
    rewrite (toUpperCase_unit_ascii_lower Hc).
    reflexivity.
Qed.

Lemma fallback_capitalizes_base_name_witness :
  importName (@exportInfo_of_source AsciiCase (str "/p") (str "/p/src/widget.tsx")
                (str "const x = 1;"))
  = str "Widget".
Proof.
  assert (Hnone : no_rule_matches (str "const x = 1;"))
    by (repeat split; vm_compute; reflexivity).
  pose proof (@fallback_capitalizes_base_name AsciiCase (str "/p")
                (str "/p/src/widget.tsx") (str "const x = 1;") Hnone) as Hthm.
  destruct Hthm as (_ & _ & Hlower & _).
  apply (Hlower 119%N (str "idget")).
  - vm_compute. reflexivity.
  - lia.
Defined.

(** ** The matcher on declarations *)

Lemma try_counts_first (A : Type) (rest : nat -> option A) (lo k : nat) (r : A) :
  lo <= k -> rest k = Some r -> try_counts rest lo k = Some r.
Proof.
  intros Hlo Hk. destruct k; simpl.
  - destruct lo; [|lia]. simpl. rewrite Hk. reflexivity.
  - destruct (Nat.ltb_spec (S k) lo); [lia|]. rewrite Hk. reflexivity.
Qed.

Lemma run_length_app (a : atom) (s rest : jsstring) :
  forallb (atom_matches a) s = true ->
  run_length a (s ++ rest) = List.length s + run_length a rest.
Proof.
  induction s as [|c s IH]; simpl; [reflexivity|].
  intro H. apply andb_true_iff in H as [Hc Hs]. rewrite Hc, (IH Hs). reflexivity.
Qed.

Lemma consume_closed (st : mstate) (taken : jsstring) :
  closed st -> consume st taken = st.
Proof. unfold closed, consume. intros ->. reflexivity. Qed.

(** A literal word of the pattern in front of the same word of the text. *)
Lemma exec_literal (word : jsstring) (re : regex) (s : jsstring) (st : mstate)
    (r : jsstring * jsstring) :
  closed st ->
  exec re s st = Some r ->
  exec (map (fun c => Item (AChar c) One) word ++ re) (word ++ s) st = Some r.
Proof.
  intros Hst Hrest. induction word as [|c word IH]; [exact Hrest|].
  cbn [map app exec run_length atom_matches]. rewrite N.eqb_refl.
  apply try_counts_first.
  - simpl. lia.
  - cbn [quant_max Nat.min]. cbn [skipn firstn].
    rewrite (consume_closed _ Hst). exact IH.
Qed.

(** [\s+] in front of white space that is followed by something else. *)
Lemma exec_spaces1 (sp : jsstring) (re : regex) (s : jsstring) (st : mstate)
    (r : jsstring * jsstring) :
  closed st ->
  sp <> [] ->
  forallb isSpace sp = true ->
  run_length ASpace s = 0 ->
  exec re s st = Some r ->
  exec (spaces1 ++ re) (sp ++ s) st = Some r.
Proof.
  intros Hst Hne Hsp Hstop Hrest.
  cbn [spaces1 app exec quant_min quant_max].
  rewrite (run_length_app ASpace sp s Hsp), Hstop, Nat.add_0_r.
  apply try_counts_first.
  - destruct sp; [congruence | simpl; lia].
  - rewrite skipn_app, skipn_all, Nat.sub_diag. simpl skipn.
    rewrite (consume_closed _ Hst). exact Hrest.
Qed.

(** [([A-Za-z0-9_]+)] at the end of a pattern takes the whole identifier. *)
Lemma exec_ident_group (foo rest : jsstring) (st : mstate) :
  foo <> [] ->
  forallb isIdent foo = true ->
  run_length AIdent rest = 0 ->
  exec ident_group (foo ++ rest) st = Some (foo, rest).
Proof.
  intros Hne Hid Hstop.
  cbn [ident_group exec quant_min quant_max].
  rewrite (run_length_app AIdent foo rest Hid), Hstop, Nat.add_0_r.
  apply try_counts_first.
  - destruct foo; [congruence | simpl; lia].
  - rewrite skipn_app, skipn_all, Nat.sub_diag, firstn_app, firstn_all,
      Nat.sub_diag.
    simpl. rewrite app_nil_r. reflexivity.
Qed.

Lemma identifier_no_space (name rest : jsstring) :
  identifier name -> run_length ASpace (name ++ rest) = 0.
Proof.
  intros [Hne Hid]. destruct name as [|c name]; [congruence|].
  simpl in *. apply andb_true_iff in Hid as [Hc _].
  destruct (isSpace c) eqn:Hs; [|reflexivity].
  exfalso. unfold isIdent, isSpace in *.
  repeat match goal with
         | H : _ || _ = true |- _ => apply orb_true_iff in H as [H | H]
         | H : _ && _ = true |- _ => apply andb_true_iff in H as [? ?]
         | H : (_ <=? _)%N = true |- _ => apply N.leb_le in H
         | H : (_ =? _)%N = true |- _ => apply N.eqb_eq in H
         end; lia.
Qed.

(** Rule 1 reads a declaration placed at the start of the text, up to the
    end of the identifier. *)
Lemma exec_default_function_declaration (sp1 sp2 sp3 foo rest : jsstring) :
  white sp1 -> white sp2 -> white sp3 ->
  identifier foo ->
  run_length AIdent rest = 0 ->
  exec re_default_function
    (default_function_declaration sp1 sp2 sp3 foo ++ rest) initial_mstate
  = Some (foo, rest).
Proof.
  intros [Hn1 Hs1] [Hn2 Hs2] [Hn3 Hs3] Hfoo Hstop.
  unfold default_function_declaration, re_default_function, lit.
  repeat rewrite <- app_assoc.
  apply exec_literal; [reflexivity|].
  apply exec_spaces1; [reflexivity | assumption | assumption | reflexivity |].
  apply exec_literal; [reflexivity|].
  apply exec_spaces1; [reflexivity | assumption | assumption | reflexivity |].
  apply exec_literal; [reflexivity|].
  apply exec_spaces1; [reflexivity | assumption | assumption | |].
  - apply identifier_no_space. exact Hfoo.
  - destruct Hfoo. apply exec_ident_group; assumption.
Qed.

(** A match at some place of the text is found by the search, unless an
    earlier one is. *)
Lemma search_from_finds (re : regex) (pre s pre_rev : jsstring) :
  exec re s initial_mstate <> None ->
  search_from re pre_rev (pre ++ s) <> None.
Proof.
  intro Hs. revert pre_rev. induction pre as [|c pre IH]; intro pre_rev.
  - simpl. destruct s; simpl;
      destruct (exec re _ initial_mstate) as [[g left]|]; congruence.
  - cbn [app search_from].
    destruct (exec re (c :: pre ++ s) initial_mstate) as [[g left]|];
      [discriminate | apply IH].
Qed.

Lemma split_identifier_prefix (s : jsstring) :
  exists a b, s = a ++ b /\ forallb isIdent a = true /\ run_length AIdent b = 0.
Proof.
  induction s as [|c s (a & b & -> & Ha & Hb)].
  - exists [], []. repeat split.
  - destruct (isIdent c) eqn:Hc.
    + exists (c :: a), b. repeat split; [simpl; rewrite Hc; exact Ha | exact Hb].
    + exists [], (c :: a ++ b). repeat split. simpl. rewrite Hc. reflexivity.
Qed.

(** In a text that holds a default function declaration, rule 1 matches:
    the result is the default import of the name it reads, whatever else
    the text holds before and after. *)
Lemma declared_default_function_decides
    (U : Unicode) (pcwd filePath pre sp1 sp2 sp3 foo post : jsstring) :
  white sp1 -> white sp2 -> white sp3 -> identifier foo ->
  let source := pre ++ default_function_declaration sp1 sp2 sp3 foo ++ post in
  exists name,
    js_match re_default_function source = Some name
    /\ exportInfo_of_source pcwd filePath source
       = default_import name (relativeImport_of pcwd filePath).
Proof.
  intros H1 H2 H3 [Hne Hid] source.
  destruct (split_identifier_prefix post) as (a & b & Hpost & Ha & Hb).
  assert (Hexec : exec re_default_function
                    (default_function_declaration sp1 sp2 sp3 foo ++ post)
                    initial_mstate <> None).
  { rewrite Hpost.
    replace (default_function_declaration sp1 sp2 sp3 foo ++ a ++ b)
      with (default_function_declaration sp1 sp2 sp3 (foo ++ a) ++ b).
    - rewrite exec_default_function_declaration; try assumption; [discriminate|].
      split.
      + destruct foo; [congruence | discriminate].
      + rewrite forallb_app, Hid, Ha. reflexivity.
    - unfold default_function_declaration. repeat rewrite <- app_assoc.
      reflexivity. }
  pose proof (search_from_finds re_default_function pre _ [] Hexec) as Hfound.
  unfold js_match, search. fold source in Hfound.
  destruct (search_from re_default_function [] source) as [m|] eqn:Hm;
    [|congruence].
  exists (group1 m). split; [reflexivity|].
  unfold exportInfo_of_source, js_match, search. rewrite Hm. reflexivity.
Qed.

Lemma js_match_none (re : regex) (source : jsstring) :
  js_match re source = None <-> search_from re [] source = None.
Proof.
  unfold js_match, search.
  destruct (search_from re [] source); simpl; split; congruence.
Qed.

Lemma space_not_ident (c : N) : isSpace c = true -> isIdent c = false.
Proof.
  intro Hs. destruct (isIdent c) eqn:Hi; [|reflexivity].
  exfalso. unfold isIdent, isSpace in *.
  repeat match goal with
         | H : _ || _ = true |- _ => apply orb_true_iff in H as [H | H]
         | H : _ && _ = true |- _ => apply andb_true_iff in H as [? ?]
         | H : (_ <=? _)%N = true |- _ => apply N.leb_le in H
         | H : (_ =? _)%N = true |- _ => apply N.eqb_eq in H
         end; lia.
Qed.

Lemma blank_then_no_ident (sp : jsstring) (c : N) (rest : jsstring) :
  blank sp -> isIdent c = false -> run_length AIdent (sp ++ c :: rest) = 0.
Proof.
  intros Hsp Hc. destruct sp as [|d sp]; simpl.
  - rewrite Hc. reflexivity.
  - unfold blank in Hsp. simpl in Hsp. apply andb_true_iff in Hsp as [Hd _].
    rewrite (space_not_ident d Hd). reflexivity.
Qed.

(** [\s*] in front of white space, possibly none, that is followed by
    something else. *)
Lemma exec_spaces0 (sp : jsstring) (re : regex) (s : jsstring) (st : mstate)
    (r : jsstring * jsstring) :
  closed st ->
  blank sp ->
  run_length ASpace s = 0 ->
  exec re s st = Some r ->
  exec (spaces0 ++ re) (sp ++ s) st = Some r.
Proof.
  intros Hst Hsp Hstop Hrest.
  cbn [spaces0 app exec quant_min quant_max].
  rewrite (run_length_app ASpace sp s Hsp), Hstop, Nat.add_0_r.
  apply try_counts_first; [lia|].
  rewrite skipn_app, skipn_all, Nat.sub_diag. simpl skipn.
  rewrite (consume_closed _ Hst). exact Hrest.
Qed.

(** The group in front of the rest of a pattern. *)
Lemma exec_ident_group_then (tail : regex) (foo rest : jsstring) (st : mstate)
    (r : jsstring * jsstring) :
  identifier foo ->
  run_length AIdent rest = 0 ->
  exec tail rest {| group_open := false; captured := foo |} = Some r ->
  exec (ident_group ++ tail) (foo ++ rest) st = Some r.
Proof.
  intros [Hne Hid] Hstop Htail.
  cbn [ident_group app exec quant_min quant_max].
  rewrite (run_length_app AIdent foo rest Hid), Hstop, Nat.add_0_r.
  apply try_counts_first.
  - destruct foo; [congruence | simpl; lia].
  - rewrite skipn_app, skipn_all, Nat.sub_diag, firstn_app, firstn_all,
      Nat.sub_diag.
    cbn [skipn firstn consume group_open captured app].
    rewrite app_nil_r. exact Htail.
Qed.

Lemma exec_const_declaration (sp1 sp2 bar sp3 sp4 rest : jsstring) :
  white sp1 -> white sp2 -> identifier bar -> blank sp3 -> blank sp4 ->
  exec re_const (const_declaration sp1 sp2 bar sp3 sp4 ++ rest) initial_mstate
  = Some (bar, rest).
Proof.
  intros [Hn1 Hs1] [Hn2 Hs2] Hbar Hs3 Hs4.
  unfold const_declaration, re_const, lit.
  repeat rewrite <- app_assoc.
  apply exec_literal; [reflexivity|].
  apply exec_spaces1; [reflexivity | assumption | assumption | reflexivity |].
  apply exec_literal; [reflexivity|].
  apply exec_spaces1; [reflexivity | assumption | assumption | |].
  - apply identifier_no_space. exact Hbar.
  - apply exec_ident_group_then; [exact Hbar | |].
    + apply (@blank_then_no_ident sp3 61%N); [exact Hs3 | reflexivity].
    + apply exec_spaces0; [reflexivity | exact Hs3 | reflexivity |].
      apply exec_literal; [reflexivity|].
      apply exec_spaces0; [reflexivity | exact Hs4 | reflexivity |].
      rewrite <- (app_nil_r (map _ (str "("))).
      apply exec_literal; [reflexivity|].
      reflexivity.
Qed.

(** The search passes over the positions at which the pattern does not
    match. *)
Lemma search_from_skips (re : regex) (pre rest pre_rev : jsstring) :
  unmatched_before re pre rest = true ->
  search_from re pre_rev (pre ++ rest) = search_from re (rev pre ++ pre_rev) rest.
Proof.
  revert pre_rev. induction pre as [|c pre IH]; intros pre_rev Hnone;
    [reflexivity|].
  cbn [unmatched_before] in Hnone. cbn [app search_from].
  destruct (exec re (c :: pre ++ rest) initial_mstate); [discriminate|].
  rewrite (IH _ Hnone). cbn [rev]. rewrite <- app_assoc. reflexivity.
Qed.

(** The name is read at the first position at which the pattern matches. *)
Lemma js_match_first (re : regex) (pre s name left : jsstring) :
  unmatched_before re pre s = true ->
  exec re s initial_mstate = Some (name, left) ->
  js_match re (pre ++ s) = Some name.
Proof.
  intros Hnone Hexec. unfold js_match, search.
  rewrite (search_from_skips _ _ _ _ Hnone).
  destruct s; cbn [search_from]; rewrite Hexec; reflexivity.
Qed.

(** A text that holds a [const] declaration of an arrow function is matched
    by rule 4. *)
Lemma declared_const_matches (a s1 s2 bar s3 s4 b : jsstring) :
  white s1 -> white s2 -> identifier bar -> blank s3 -> blank s4 ->
  exists name, js_match re_const (a ++ const_declaration s1 s2 bar s3 s4 ++ b)
               = Some name.
Proof.
  intros H1 H2 Hbar H3 H4.
  assert (Hexec : exec re_const (const_declaration s1 s2 bar s3 s4 ++ b)
                    initial_mstate <> None)
    by (rewrite exec_const_declaration by assumption; discriminate).
  pose proof (search_from_finds re_const a _ [] Hexec) as Hfound.
  destruct (js_match re_const (a ++ const_declaration s1 s2 bar s3 s4 ++ b))
    as [name|] eqn:Hname; [exists name; reflexivity|].
  apply js_match_none in Hname. contradiction.
Qed.

(** The same file with the two declarations in the other order. *)
Example const_after_default_function :
  js_match re_const source_default_then_const = Some (str "Bar")
  /\ importName (@exportInfo_of_source AsciiCase (str "/p") (str "/p/src/Foo.tsx")
                   source_default_then_const)
     = str "Foo".
Proof. split; vm_compute; reflexivity. Qed.

(** Rules 1 to 4 are tried in this order and the first that matches
    decides; when none matches the fallback name is used. *)
Lemma rule_order (U : Unicode) (pcwd filePath source : jsstring) :
  let info := exportInfo_of_source pcwd filePath source in
  let rel := relativeImport_of pcwd filePath in
  (forall name, js_match re_default_function source = Some name ->
     info = default_import name rel)
  /\ (forall name, js_match re_default_function source = None ->
        js_match re_default source = Some name ->
        info = default_import name rel)
  /\ (forall name, js_match re_default_function source = None ->
        js_match re_default source = None ->
        js_match re_function source = Some name ->
        info = named_import name rel)
  /\ (forall name, js_match re_default_function source = None ->
        js_match re_default source = None ->
        js_match re_function source = None ->
        js_match re_const source = Some name ->
        info = named_import name rel)
  /\ (no_rule_matches source ->
      info = default_import (fallbackName_of filePath) rel).
Proof.
  unfold exportInfo_of_source. split; [|split; [|split; [|split]]].
  - intros name ->. reflexivity.
  - intros name -> ->. reflexivity.
  - intros name -> -> ->. reflexivity.
  - intros name -> -> -> ->. reflexivity.
  - intros (-> & -> & -> & ->). reflexivity.
Qed.

(** C6.  The rules are tried in the order 1 to 4 and the first that
    matches decides, wherever the patterns occur in the text.  For a text
    that holds a default function declaration of [foo] and a [const]
    declaration of [bar], in either order, where the declaration of [foo]
    is the first place at which rule 1's pattern matches and [foo] is the
    whole name (no identifier character follows it): rule 1 reads [foo],
    rule 4 matches the text as well, and the result is the default import
    of [foo]. *)
Theorem default_function_rule_wins
    (U : Unicode) (pcwd filePath source : jsstring)
    (pre sp1 sp2 sp3 foo post : jsstring)
    (a s1 s2 bar s3 s4 b : jsstring) :
  let info := exportInfo_of_source pcwd filePath source in
  let rel := relativeImport_of pcwd filePath in
  ((forall name, js_match re_default_function source = Some name ->
      info = default_import name rel)
   /\ (forall name, js_match re_default_function source = None ->
         js_match re_default source = Some name ->
         info = default_import name rel)
   /\ (forall name, js_match re_default_function source = None ->
         js_match re_default source = None ->
         js_match re_function source = Some name ->
         info = named_import name rel)
   /\ (forall name, js_match re_default_function source = None ->
         js_match re_default source = None ->
         js_match re_function source = None ->
         js_match re_const source = Some name ->
         info = named_import name rel)
   /\ (no_rule_matches source ->
       info = default_import (fallbackName_of filePath) rel))
  /\ (source = pre ++ default_function_declaration sp1 sp2 sp3 foo ++ post ->
      source = a ++ const_declaration s1 s2 bar s3 s4 ++ b ->
      white sp1 -> white sp2 -> white sp3 -> identifier foo ->
      run_length AIdent post = 0 ->
      unmatched_before re_default_function pre
        (default_function_declaration sp1 sp2 sp3 foo ++ post) = true ->
      white s1 -> white s2 -> identifier bar -> blank s3 -> blank s4 ->
      js_match re_default_function source = Some foo
      /\ (exists name, js_match re_const source = Some name)
      /\ importName info = foo
      /\ info = default_import foo rel).
Proof.
  intros info rel. split; [apply rule_order|].
  intros Hfoo Hbar Hsp1 Hsp2 Hsp3 Hid Hend Hfirst Hs1 Hs2 Hidbar Hs3 Hs4.
  assert (Hrule1 : js_match re_default_function source = Some foo).
  { rewrite Hfoo. apply js_match_first with post; [exact Hfirst|].
    apply exec_default_function_declaration; assumption. }
  assert (Hinfo : info = default_import foo rel)
    by (apply (proj1 (rule_order U pcwd filePath source)); exact Hrule1).
  split; [exact Hrule1|]. split.
  - rewrite Hbar. apply declared_const_matches; assumption.
  - split; [rewrite Hinfo; reflexivity | exact Hinfo].
Qed.

Lemma default_function_rule_wins_witness :
  js_match re_default_function source_const_then_default = Some (str "Foo")
  /\ (exists name, js_match re_const source_const_then_default = Some name)
  /\ importName (@exportInfo_of_source AsciiCase (str "/p") (str "/p/src/Foo.tsx")
                   source_const_then_default)
     = str "Foo"
  /\ @exportInfo_of_source AsciiCase (str "/p") (str "/p/src/Foo.tsx")
       source_const_then_default
     = default_import (str "Foo")
         (@relativeImport_of (str "/p") (str "/p/src/Foo.tsx")).
Proof.
  apply (proj2 (@default_function_rule_wins AsciiCase (str "/p")
                  (str "/p/src/Foo.tsx") source_const_then_default
                  (str "export const Bar = () => null;" ++ [newline])
                  (str " ") (str " ") (str " ") (str "Foo")
                  (str "() { return null; }")
                  [] (str " ") (str " ") (str "Bar") (str " ") (str " ")
                  (str ") => null;" ++ [newline]
                   ++ str "export default function Foo() { return null; }"))).
  - vm_compute. reflexivity.
  - vm_compute. reflexivity.
  - split; [discriminate | reflexivity].
  - split; [discriminate | reflexivity].
  - split; [discriminate | reflexivity].
  - split; [discriminate | reflexivity].
  - reflexivity.
  - vm_compute. reflexivity.
  - split; [discriminate | reflexivity].
  - split; [discriminate | reflexivity].
  - split; [discriminate | reflexivity].
  - reflexivity.
  - reflexivity.
Defined.

(** A file can hold both texts and give another name: the first default
    function declaration of the text decides, even in a comment, and the
    name is read to its end. *)
Lemma default_function_rule_counterexample :
  let info_of := @exportInfo_of_source AsciiCase (str "/p") (str "/p/src/Foo.tsx") in
  occurs_in (str "export default function Foo") source_commented_default = true
  /\ occurs_in (str "export const Bar = (") source_commented_default = true
  /\ importName (info_of source_commented_default) = str "Old"
  /\ occurs_in (str "export default function Foo") source_longer_name = true
  /\ occurs_in (str "export const Bar = (") source_longer_name = true
  /\ importName (info_of source_longer_name) = str "FooBar".
Proof. repeat split; vm_compute; reflexivity. Qed.

(** Texts that no rule reads: a re-export and a renamed export. *)
Example reexport_falls_back :
  no_rule_matches (str "export { default } from './Foo';")
  /\ no_rule_matches (str "export { Foo as Bar };")
  /\ no_rule_matches (str "export * from './Foo';").
Proof. repeat split; vm_compute; reflexivity. Qed.

(** C3.  A default export wrapped in a call, [export default memo(Foo);],
    and a class, [export default class Foo], are read by rule 2, whose
    pattern does not ask for the end of the statement that its comment
    shows ([export default ComponentName;]): the names are [memo] and
    [class], not the fallback name [Foo] made from the file name. *)
Theorem wrapped_and_class_exports_match_rule_2 :
  let info_of := @exportInfo_of_source AsciiCase (str "/p") (str "/p/src/Foo.tsx") in
  @fallbackName_of AsciiCase (str "/p/src/Foo.tsx") = str "Foo"
  /\ js_match re_default (str "export default memo(Foo);") = Some (str "memo")
  /\ importName (info_of (str "export default memo(Foo);")) = str "memo"
  /\ jsxTag (info_of (str "export default memo(Foo);")) = str "<memo />"
  /\ importName (info_of (str "export default class Foo extends Component {}"))
     = str "class"
  /\ importLine (info_of (str "export default class Foo extends Component {}"))
     = str "import class from " ++ [dquote] ++ str "Foo" ++ [dquote] ++ str ";".
Proof. repeat split; vm_compute; reflexivity. Qed.

(** ** File discovery *)

(** Induction on a listing alone. *)
Lemma dirents_list_ind (P : dirents -> Prop) :
  P DNil ->
  (forall name child rest, P rest -> P (DCons name child rest)) ->
  forall entries, P entries.
Proof.
  intros Hnil Hcons. fix IH 1. intros [|name child rest].
  - exact Hnil.
  - apply Hcons. apply IH.
Qed.

Lemma walk_results_prefix :
  (forall n dir results, walk dir n results = results ++ walk dir n [])
  /\ (forall entries dir results,
        walk_entries dir entries results = results ++ walk_entries dir entries []).
Proof.
  apply node_mutind.
  - intros r wr c dir results. cbn [walk walk_entries]. rewrite app_nil_r. reflexivity.
  - intros [|] wr entries IH dir results; cbn [walk walk_entries].
    + apply IH.
    + rewrite app_nil_r. reflexivity.
  - intros dir results. cbn [walk walk_entries]. rewrite app_nil_r. reflexivity.
  - intros name child IHchild rest IHrest dir results. cbn [walk walk_entries].
    rewrite IHrest. symmetry. rewrite IHrest. symmetry.
    rewrite app_assoc. f_equal.
    destruct (isDirectory child).
    + destruct (includes EXCLUDED_DIRS name).
      * rewrite app_nil_r. reflexivity.
      * apply IHchild.
    + destruct (excluded_file name).
      * rewrite app_nil_r. reflexivity.
      * destruct (includes COMPONENT_EXTENSIONS (Path.extname name)).
        -- reflexivity.
        -- rewrite app_nil_r. reflexivity.
Qed.

Lemma selected_Dir (wr : bool) (entries : dirents) (dir p : jsstring) :
  selected (Dir true wr entries) dir p <-> selected_in entries dir p.
Proof.
  split.
  - intros (ds & name & Hreach & Hds & Hex & Hext & ->).
    inversion Hreach as [wr' es nm child Hin Hfile
                        | wr' es d child ds' nm Hin Hdir Hsub];
      subst.
    + exists name, child. split; [exact Hin|]. left. repeat split; assumption.
    + exists d, child. split; [exact Hin|]. right.
      simpl in Hds. apply andb_true_iff in Hds as [Hd Hds'].
      split; [exact Hdir|]. split.
      * unfold not_excluded_dir in Hd. apply negb_true_iff in Hd. exact Hd.
      * exists ds', name. repeat split; assumption.
  - intros (name & child & Hin & [(Hfile & Hex & Hext & ->)
                                 | (Hdir & Hexd & ds & nm & Hreach & Hds & Hex & Hext & ->)]).
    + exists [], name. repeat split; try assumption.
      eapply reaches_file; eassumption.
    + exists (name :: ds), nm. repeat split; try assumption.
      * eapply reaches_dir; eassumption.
      * simpl. unfold not_excluded_dir at 1. rewrite Hexd. exact Hds.
Qed.

Lemma selected_not_readable_dir (n : node) (dir p : jsstring) :
  (forall wr entries, n <> Dir true wr entries) -> ~ selected n dir p.
Proof.
  intros Hn (ds & name & Hreach & _).
  inversion Hreach; subst; eapply Hn; reflexivity.
Qed.

(** [walk] returns the selected files and no other path. *)
Lemma walk_selected :
  (forall n dir p, In p (walk dir n []) <-> selected n dir p)
  /\ (forall entries dir p,
        In p (walk_entries dir entries []) <-> selected_in entries dir p).
Proof.
  apply node_mutind.
  - intros r wr c dir p. cbn [walk walk_entries]. split; [intros []|].
    intro Hsel. eapply selected_not_readable_dir; [|exact Hsel]. discriminate.
  - intros [|] wr entries IH dir p; cbn [walk walk_entries].
    + rewrite IH. symmetry. apply selected_Dir.
    + split; [intros []|].
      intro Hsel. eapply selected_not_readable_dir; [|exact Hsel]. discriminate.
  - intros dir p. cbn [walk walk_entries]. split; [intros []|].
    intros (name & child & [] & _).
  - intros name child IHchild rest IHrest dir p. cbn [walk walk_entries].
    rewrite (proj2 walk_results_prefix), in_app_iff, IHrest.
    split.
    + intros [Hhere | (nm & ch & Hin & Hcase)].
      * exists name, child. split; [left; split; reflexivity|].
        destruct (isDirectory child) eqn:Hkind.
        -- right. destruct (includes EXCLUDED_DIRS name) eqn:Hexd; [destruct Hhere|].
           repeat split. apply IHchild. exact Hhere.
        -- left. destruct (excluded_file name) eqn:Hex; [destruct Hhere|].
           destruct (includes COMPONENT_EXTENSIONS (Path.extname name)) eqn:Hext;
             [|destruct Hhere].
           destruct Hhere as [<- | []]. repeat split.
      * exists nm, ch. split; [right; exact Hin | exact Hcase].
    + intros (nm & ch & [[-> ->] | Hin] & Hcase).
      * left. destruct Hcase as [(Hfile & Hex & Hext & ->) | (Hdir & Hexd & Hsel)].
        -- rewrite Hfile, Hex, Hext. left. reflexivity.
        -- rewrite Hdir, Hexd. apply IHchild. exact Hsel.
      * right. exists nm, ch. split; assumption.
Qed.

Lemma includes_In (xs : list jsstring) (x : jsstring) :
  includes xs x = true <-> In x xs.
Proof.
  unfold includes. rewrite existsb_exists. split.
  - intros (y & Hy & Heq). apply jseq_true in Heq. subst. exact Hy.
  - intro Hx. exists x. split; [exact Hx | apply jseq_refl].
Qed.

Lemma not_excluded_dirs_Forall (ds : list jsstring) :
  forallb not_excluded_dir ds = true
  <-> Forall (fun d => ~ In d EXCLUDED_DIRS) ds.
Proof.
  rewrite forallb_forall, Forall_forall.
  split; intros Hall d Hd; specialize (Hall d Hd); unfold not_excluded_dir in *.
  - intro Hin. apply includes_In in Hin. rewrite Hin in Hall. discriminate.
  - destruct (includes EXCLUDED_DIRS d) eqn:E; [|reflexivity].
    apply includes_In in E. contradiction.
Qed.

Lemma excluded_file_false (name : jsstring) :
  excluded_file name = false
  <-> endsWith name (str ".test.tsx") = false
      /\ endsWith name (str ".stories.tsx") = false
      /\ startsWith name (str ".") = false.
Proof.
  unfold excluded_file. rewrite !orb_false_iff. tauto.
Qed.

(** C7.  Discovery returns exactly the files reached through readable
    directories none of which is called [node_modules], [dist], [build] or
    [.git], whose own name neither ends with [.test.tsx] or [.stories.tsx]
    nor begins with a dot, and whose extension is in
    [COMPONENT_EXTENSIONS], that is [.tsx]. *)
Theorem discovery_selects_component_files (rootDir : jsstring) (w : world) :
  exists files,
    findComponentFiles rootDir w = (Returned files, w)
    /\ forall p,
         In p files <->
         exists n ds name,
           lookup (fs w) rootDir = Some n
           /\ reaches n ds name
           /\ Forall (fun d => ~ In d [str "node_modules"; str "dist";
                                      str "build"; str ".git"]) ds
           /\ endsWith name (str ".test.tsx") = false
           /\ endsWith name (str ".stories.tsx") = false
           /\ startsWith name (str ".") = false
           /\ Path.extname name = str ".tsx"
           /\ p = path_below rootDir (ds ++ [name]).
Proof.
  unfold findComponentFiles.
  destruct (lookup (fs w) rootDir) as [n|] eqn:Hroot.
  - exists (walk rootDir n []). split; [reflexivity|]. intro p.
    rewrite (proj1 walk_selected). unfold selected. split.
    + intros (ds & name & Hreach & Hds & Hex & Hext & ->).
      apply excluded_file_false in Hex as (Ht & Hs & Hd).
      exists n, ds, name. repeat split; try assumption.
      * apply not_excluded_dirs_Forall. exact Hds.
      * apply includes_In in Hext. destruct Hext as [E | []]. symmetry. exact E.
    + intros (n' & ds & name & Hn & Hreach & Hds & Ht & Hs & Hd & Hext & ->).
      injection Hn as <-.
      exists ds, name. repeat split; try assumption.
      * apply not_excluded_dirs_Forall. exact Hds.
      * apply excluded_file_false. repeat split; assumption.
      * apply includes_In. left. symmetry. exact Hext.
  - exists []. split; [reflexivity|]. intro p. split.
    + intros [].
    + intros (n & ds & name & Hn & _). discriminate.
Qed.

Example discovery_on_noisy_tree :
  walk (str "/p/src") noisy_tree []
  = [str "/p/src/Foo.tsx"; str "/p/src/ui/Card.tsx"].
Proof. vm_compute. reflexivity. Qed.

Lemma walk_readdir_fails (dir : jsstring) (n : node) (results : list jsstring) :
  readdir_fails (Some n) = true -> walk dir n results = results.
Proof. destruct n as [r wr c | [|] wr entries]; simpl; congruence. Qed.

Lemma findComponentFiles_readdir_fails (rootDir : jsstring) (w : world) :
  readdir_fails (lookup (fs w) rootDir) = true ->
  findComponentFiles rootDir w = (Returned [], w).
Proof.
  unfold findComponentFiles. intro Hfail.
  destruct (lookup (fs w) rootDir) as [n|]; [|reflexivity].
  rewrite (walk_readdir_fails _ _ _ Hfail). reflexivity.
Qed.

Lemma In_entries_app (name : jsstring) (child : node) (first second : dirents) :
  In_entries name child (dirents_app first second)
  <-> In_entries name child first \/ In_entries name child second.
Proof.
  induction first as [|name' child' rest IH] using dirents_list_ind;
    cbn [dirents_app In_entries].
  - tauto.
  - rewrite IH. tauto.
Qed.

(** Nothing is selected below what [readdir] fails on. *)
Lemma selected_readdir_fails (n : node) (dir p : jsstring) :
  readdir_fails (Some n) = true -> ~ selected n dir p.
Proof.
  intro Hfail. apply selected_not_readable_dir.
  intros wr entries ->. discriminate.
Qed.

(** C9.  A directory that cannot be read contributes no file and raises
    nothing, and the walk of its siblings goes on: in a listing that holds
    it, the walk of the parent returns exactly what the entries before it
    and the entries after it give, each of them in full.  When the root
    itself cannot be read the list of files is empty and the run ends
    normally, with status 0 and the file system as it was. *)
Theorem unreadable_directory_is_skipped
    (U : Unicode) (argv : list jsstring) (pcwd dir name : jsstring)
    (n : node) (before_it after_it : dirents) (wr : bool)
    (results : list jsstring) (w : world) :
  (readdir_fails (Some n) = true ->
   walk dir n results = results
   /\ (isDirectory n = true ->
       walk_entries dir (DCons name n after_it) results
       = walk_entries dir after_it results
       /\ forall p,
            In p (walk dir
                    (Dir true wr (dirents_app before_it (DCons name n after_it)))
                    [])
            <-> selected_in before_it dir p \/ selected_in after_it dir p))
  /\ (readdir_fails (lookup (fs w) dir) = true ->
      findComponentFiles dir w = (Returned [], w))
  /\ (readdir_fails
        (lookup (fs w) (Path.resolve pcwd [pcwd; rootDir (parseArgs argv)])) = true ->
      fst (run argv pcwd w) = 0%N /\ fs (snd (run argv pcwd w)) = fs w).
Proof.
  split; [|split].
  - intro Hfail. split; [apply walk_readdir_fails; exact Hfail|].
    intro Hdir. split.
    + cbn [walk_entries]. rewrite Hdir.
      destruct (includes EXCLUDED_DIRS name); [reflexivity|].
      rewrite (walk_readdir_fails _ _ _ Hfail). reflexivity.
    + intro p. rewrite (proj1 walk_selected), selected_Dir.
      unfold selected_in. split.
      * intros (nm & ch & Hin & Hcase).
        apply In_entries_app in Hin. destruct Hin as [Hin | [[-> ->] | Hin]].
        -- left. exists nm, ch. split; assumption.
        -- exfalso.
           destruct Hcase as [(Hfile & _) | (_ & _ & Hsel)]; [congruence|].
           exact (selected_readdir_fails Hfail Hsel).
        -- right. exists nm, ch. split; assumption.
      * intros [(nm & ch & Hin & Hcase) | (nm & ch & Hin & Hcase)];
          exists nm, ch; (split; [|exact Hcase]); apply In_entries_app.
        -- left. exact Hin.
        -- right. right. exact Hin.
  - apply findComponentFiles_readdir_fails.
  - intro Hfail. unfold run, main, bind, console_log.
    rewrite findComponentFiles_readdir_fails by exact Hfail.
    simpl. split; reflexivity.
Qed.

Lemma unreadable_directory_is_skipped_witness :
  walk (str "/p/src/locked") locked_dir [str "/p/src/Seen.tsx"]
  = [str "/p/src/Seen.tsx"]
  /\ In (str "/p/src/First.tsx")
        (walk (str "/p/src")
           (Dir true true
              (dirents_app
                 (DCons (str "First.tsx") (File true true []) DNil)
                 (DCons (str "locked") locked_dir
                    (DCons (str "Open.tsx") (File true true []) DNil))))
           [])
  /\ In (str "/p/src/Open.tsx")
        (walk (str "/p/src")
           (Dir true true
              (dirents_app
                 (DCons (str "First.tsx") (File true true []) DNil)
                 (DCons (str "locked") locked_dir
                    (DCons (str "Open.tsx") (File true true []) DNil))))
           [])
  /\ findComponentFiles (str "/p/src/locked") {| fs := locked_tree; trace := [] |}
     = (Returned [], {| fs := locked_tree; trace := [] |})
  /\ fst (@run AsciiCase [str "node"; str "react-testgen"; str "src/locked"]
            (str "/p") {| fs := locked_tree; trace := [] |}) = 0%N.
Proof.
  pose proof (@unreadable_directory_is_skipped AsciiCase
                [str "node"; str "react-testgen"; str "src/locked"]
                (str "/p") (str "/p/src/locked") (str "locked")
                locked_dir DNil DNil true [str "/p/src/Seen.tsx"]
                {| fs := locked_tree; trace := [] |}) as (Hwalk & Hfind & Hrun).
  pose proof (@unreadable_directory_is_skipped AsciiCase
                [str "node"; str "react-testgen"; str "src/locked"]
                (str "/p") (str "/p/src") (str "locked")
                locked_dir
                (DCons (str "First.tsx") (File true true []) DNil)
                (DCons (str "Open.tsx") (File true true []) DNil)
                true [str "/p/src/Seen.tsx"]
                {| fs := locked_tree; trace := [] |}) as (Hsiblings & _).
  destruct (Hsiblings eq_refl) as (_ & Hparent).
  destruct (Hparent eq_refl) as (_ & Hfound).
  split; [|split; [|split; [|split]]].
  - exact (proj1 (Hwalk eq_refl)).
  - apply Hfound. left.
    exists (str "First.tsx"), (File true true []).
    split; [left; split; reflexivity|]. left. repeat split; reflexivity.
  - apply Hfound. right.
    exists (str "Open.tsx"), (File true true []).
    split; [left; split; reflexivity|]. left. repeat split; reflexivity.
  - apply Hfind. vm_compute. reflexivity.
  - apply Hrun. vm_compute. reflexivity.
Defined.

(** The readable sibling of the unreadable directory is still found. *)
Example unreadable_sibling_walk :
  findComponentFiles (str "/p/src") {| fs := locked_tree; trace := [] |}
  = (Returned [str "/p/src/Open.tsx"], {| fs := locked_tree; trace := [] |}).
Proof. vm_compute. reflexivity. Qed.




(** The same walk, evaluated: the hidden file is left out and the file in
    the dot directory is returned. *)
Example dot_directory_walk :
  walk (str "/p/src")
    (Dir true true (DCons (str ".hidden.tsx") (File true true [])
              (DCons (str ".cache") cache_dir DNil))) []
  = [str "/p/src/.cache/Card.tsx"].
Proof. vm_compute. reflexivity. Qed.

(** ** The file system under [writeFile] *)

Lemma find_entry_replace (x c : jsstring) (n : node) (entries : dirents) :
  find_entry x (replace_entry c n entries)
  = if jseq x c
    then match find_entry c entries with Some _ => Some n | None => None end
    else find_entry x entries.
Proof.
  induction entries as [|name child rest IH] using dirents_list_ind.
  - simpl. destruct (jseq x c); reflexivity.
  - simpl. destruct (jseq c name) eqn:Ecn.
    + apply jseq_true in Ecn. subst name. simpl.
      destruct (jseq x c); reflexivity.
    + simpl. destruct (jseq x name) eqn:Exn.
      * apply jseq_true in Exn. subst name.
        destruct (jseq x c) eqn:Exc; [|reflexivity].
        apply jseq_true in Exc. subst c. rewrite jseq_refl in Ecn. discriminate.
      * exact IH.
Qed.

Lemma find_entry_append (x c : jsstring) (n : node) (entries : dirents) :
  find_entry x (append_entry entries c n)
  = match find_entry x entries with
    | Some m => Some m
    | None => if jseq x c then Some n else None
    end.
Proof.
  induction entries as [|name child rest IH] using dirents_list_ind.
  - reflexivity.
  - simpl. destruct (jseq x name); [reflexivity | exact IH].
Qed.

(** After a successful write the file is there, writable, with the text
    written. *)
Lemma lookup_write_same (comps : list jsstring) (content : jsstring) :
  forall n n', write_comps n comps content = Returned n' ->
  exists r, lookup_comps n' comps = Some (File r true content).
Proof.
  induction comps as [|c comps IH]; intros n n' Hw.
  - destruct n as [r wr old | r wr entries]; simpl in Hw; [|discriminate].
    destruct wr; [|discriminate].
    injection Hw as <-. exists r. reflexivity.
  - destruct n as [r wr old | r wr entries]; simpl in Hw; [discriminate|].
    destruct (find_entry c entries) as [child|] eqn:Hfind.
    + destruct (write_comps child comps content) as [child'|e] eqn:Hchild;
        [|discriminate].
      injection Hw as <-. simpl.
      rewrite find_entry_replace, jseq_refl, Hfind.
      apply (IH _ _ Hchild).
    + destruct comps as [|c' comps']; [|discriminate].
      destruct wr; [|discriminate].
      injection Hw as <-. simpl.
      rewrite find_entry_append, Hfind, jseq_refl.
      exists true. reflexivity.
Qed.

(** A write removes nothing: what could be reached still can. *)
Lemma lookup_write_exists (comps : list jsstring) (content : jsstring) :
  forall n n' target, write_comps n comps content = Returned n' ->
  lookup_comps n target <> None -> lookup_comps n' target <> None.
Proof.
  induction comps as [|c comps IH]; intros n n' target Hw Hthere.
  - destruct n as [r wr old | r wr entries]; simpl in Hw; [|discriminate].
    destruct wr; [|discriminate].
    injection Hw as <-.
    destruct target; simpl in *; [discriminate | exact Hthere].
  - destruct n as [r wr old | r wr entries]; simpl in Hw; [discriminate|].
    destruct target as [|x target]; [simpl; discriminate|].
    simpl in Hthere.
    destruct (find_entry c entries) as [child|] eqn:Hfind.
    + destruct (write_comps child comps content) as [child'|e] eqn:Hchild;
        [|discriminate].
      injection Hw as <-. simpl. rewrite find_entry_replace.
      destruct (jseq x c) eqn:Exc.
      * apply jseq_true in Exc. subst x. rewrite Hfind in *.
        apply (IH _ _ _ Hchild Hthere).
      * exact Hthere.
    + destruct comps as [|c' comps']; [|discriminate].
      destruct wr; [|discriminate].
      injection Hw as <-. simpl. rewrite find_entry_append.
      destruct (find_entry x entries) as [m|] eqn:Hx; [exact Hthere|].
      contradiction Hthere. reflexivity.
Qed.

(** A write changes one file: a file elsewhere keeps permission and text. *)
Lemma lookup_write_other (comps : list jsstring) (content : jsstring) :
  forall n n' target r wr old, write_comps n comps content = Returned n' ->
  target <> comps ->
  lookup_comps n target = Some (File r wr old) ->
  lookup_comps n' target = Some (File r wr old).
Proof.
  induction comps as [|c comps IH]; intros n n' target r0 wr0 old Hw Hne Hthere.
  - destruct n as [r wr old' | r wr entries]; simpl in Hw; [|discriminate].
    destruct target; [congruence | simpl in Hthere; discriminate].
  - destruct n as [r wr old' | r wr entries]; simpl in Hw; [discriminate|].
    destruct target as [|x target]; [simpl in Hthere; discriminate|].
    simpl in Hthere.
    destruct (find_entry c entries) as [child|] eqn:Hfind.
    + destruct (write_comps child comps content) as [child'|e] eqn:Hchild;
        [|discriminate].
      injection Hw as <-. simpl. rewrite find_entry_replace.
      destruct (jseq x c) eqn:Exc.
      * apply jseq_true in Exc. subst x. rewrite Hfind in *.
        apply (IH _ _ _ _ _ _ Hchild); [congruence | exact Hthere].
      * exact Hthere.
    + destruct comps as [|c' comps']; [|discriminate].
      destruct wr; [|discriminate].
      injection Hw as <-. simpl. rewrite find_entry_append.
      destruct (find_entry x entries) as [m|] eqn:Hx; [exact Hthere|].
      discriminate.
Qed.

(** A write keeps what can be reached, files as files and directories as
    directories. *)
Lemma lookup_write_kind (comps : list jsstring) (content : jsstring) :
  forall n n' target m, write_comps n comps content = Returned n' ->
  lookup_comps n target = Some m ->
  exists m', lookup_comps n' target = Some m' /\ isDirectory m' = isDirectory m.
Proof.
  induction comps as [|c comps IH]; intros n n' target m Hw Hthere.
  - destruct n as [r wr old | r wr entries]; simpl in Hw; [|discriminate].
    destruct wr; [|discriminate].
    injection Hw as <-.
    destruct target; simpl in *; [|discriminate].
    injection Hthere as <-. eexists. split; reflexivity.
  - destruct n as [r wr old | r wr entries]; simpl in Hw; [discriminate|].
    destruct target as [|x target].
    { simpl in Hthere. injection Hthere as <-.
      exists n'. split; [reflexivity|].
      destruct (find_entry c entries) as [child|].
      - destruct (write_comps child comps content); [|discriminate].
        injection Hw as <-. reflexivity.
      - destruct comps; [|discriminate]. destruct wr; [|discriminate].
        injection Hw as <-. reflexivity. }
    simpl in Hthere.
    destruct (find_entry c entries) as [child|] eqn:Hfind.
    + destruct (write_comps child comps content) as [child'|e] eqn:Hchild;
        [|discriminate].
      injection Hw as <-. simpl. rewrite find_entry_replace.
      destruct (jseq x c) eqn:Exc.
      * apply jseq_true in Exc. subst x. rewrite Hfind in *.
        apply (IH _ _ _ _ Hchild Hthere).
      * exists m. split; [exact Hthere | reflexivity].
    + destruct comps as [|c' comps']; [|discriminate].
      destruct wr; [|discriminate].
      injection Hw as <-. simpl. rewrite find_entry_append.
      destruct (find_entry x entries) as [k|] eqn:Hx; [|discriminate].
      exists m. split; [exact Hthere | reflexivity].
Qed.

(** A write creates nothing but the file it is given. *)
Lemma lookup_write_absent (comps : list jsstring) (content : jsstring) :
  forall n n' target, write_comps n comps content = Returned n' ->
  target <> comps ->
  lookup_comps n target = None ->
  lookup_comps n' target = None.
Proof.
  induction comps as [|c comps IH]; intros n n' target Hw Hne Habsent.
  - destruct n as [r wr old | r wr entries]; simpl in Hw; [|discriminate].
    destruct wr; [|discriminate].
    injection Hw as <-. destruct target; [congruence | reflexivity].
  - destruct n as [r wr old | r wr entries]; simpl in Hw; [discriminate|].
    destruct target as [|x target]; [simpl in Habsent; discriminate|].
    simpl in Habsent.
    destruct (find_entry c entries) as [child|] eqn:Hfind.
    + destruct (write_comps child comps content) as [child'|e] eqn:Hchild;
        [|discriminate].
      injection Hw as <-. simpl. rewrite find_entry_replace.
      destruct (jseq x c) eqn:Exc; [|exact Habsent].
      apply jseq_true in Exc. subst x. rewrite Hfind in *.
      apply (IH _ _ _ Hchild); [congruence | exact Habsent].
    + destruct comps as [|c' comps']; [|discriminate].
      destruct wr; [|discriminate].
      injection Hw as <-. simpl. rewrite find_entry_append.
      destruct (find_entry x entries) as [m|]; [exact Habsent|].
      destruct (jseq x c) eqn:Exc; [|reflexivity].
      apply jseq_true in Exc. subst x.
      destruct target; [congruence | reflexivity].
Qed.

(** A write makes no directory. *)
Lemma lookup_write_no_new_dir (comps : list jsstring) (content : jsstring)
    (n n' : node) (target : list jsstring) (m' : node) :
  write_comps n comps content = Returned n' ->
  (forall m, lookup_comps n target = Some m -> isDirectory m = false) ->
  lookup_comps n' target = Some m' ->
  isDirectory m' = false.
Proof.
  intros Hw Hbefore Hafter.
  destruct (lookup_comps n target) as [m|] eqn:Hm.
  - destruct (@lookup_write_kind comps content n n' target m Hw Hm)
      as (m1 & Hm1 & Hkind).
    rewrite Hafter in Hm1. injection Hm1 as <-.
    rewrite Hkind. apply Hbefore. reflexivity.
  - destruct (list_eq_dec (list_eq_dec N.eq_dec) target comps) as [-> | Hne].
    + destruct (lookup_write_same _ _ _ Hw) as (r & Hsame).
      rewrite Hafter in Hsame. injection Hsame as ->. reflexivity.
    + rewrite (@lookup_write_absent comps content n n' target Hw Hne Hm) in Hafter.
      discriminate.
Qed.


(** A write keeps the permissions of every directory. *)
Lemma lookup_write_dir (comps : list jsstring) (content : jsstring) :
  forall n n' target r wr entries,
  write_comps n comps content = Returned n' ->
  lookup_comps n target = Some (Dir r wr entries) ->
  exists entries', lookup_comps n' target = Some (Dir r wr entries').
Proof.
  induction comps as [|c comps IH]; intros n n' target r0 wr0 es Hw Hthere.
  - destruct n as [r wr old | r wr entries]; simpl in Hw; [|discriminate].
    destruct target; simpl in Hthere; discriminate.
  - destruct n as [r wr old | r wr entries]; simpl in Hw; [discriminate|].
    destruct target as [|x target].
    { simpl in Hthere. injection Hthere as -> -> ->.
      destruct (find_entry c es) as [child|].
      - destruct (write_comps child comps content); [|discriminate].
        injection Hw as <-. eexists. reflexivity.
      - destruct comps; [|discriminate]. destruct wr0; [|discriminate].
        injection Hw as <-. eexists. reflexivity. }
    simpl in Hthere.
    destruct (find_entry c entries) as [child|] eqn:Hfind.
    + destruct (write_comps child comps content) as [child'|e] eqn:Hchild;
        [|discriminate].
      injection Hw as <-. simpl. rewrite find_entry_replace.
      destruct (jseq x c) eqn:Exc.
      * apply jseq_true in Exc. subst x. rewrite Hfind in *.
        apply (IH _ _ _ _ _ _ Hchild Hthere).
      * exists es. exact Hthere.
    + destruct comps as [|c' comps']; [|discriminate].
      destruct wr; [|discriminate].
      injection Hw as <-. simpl. rewrite find_entry_append.
      destruct (find_entry x entries) as [k|] eqn:Hx; [|discriminate].
      exists es. exact Hthere.
Qed.

(** A write keeps files files and directories directories. *)
Lemma write_comps_kind (comps : list jsstring) (content : jsstring) (n n' : node) :
  write_comps n comps content = Returned n' -> isDirectory n' = isDirectory n.
Proof.
  destruct comps as [|c comps]; destruct n as [r wr old | r wr entries]; simpl;
    try discriminate.
  - destruct wr; [|discriminate]. intro Hw. injection Hw as <-. reflexivity.
  - destruct (find_entry c entries) as [child|].
    + destruct (write_comps child comps content); [|discriminate].
      intro Hw. injection Hw as <-. reflexivity.
    + destruct comps; [|discriminate]. destruct wr; [|discriminate].
      intro Hw. injection Hw as <-. reflexivity.
Qed.

(** *** Discovery does not see the test files that are written *)

Lemma walk_entries_replace (c : jsstring) (child child' : node) (entries : dirents) :
  find_entry c entries = Some child ->
  isDirectory child' = isDirectory child ->
  (forall dir results, walk dir child' results = walk dir child results) ->
  forall dir results,
    walk_entries dir (replace_entry c child' entries) results
    = walk_entries dir entries results.
Proof.
  intros Hfind Hkind Hwalk.
  induction entries as [|name ch rest IH] using dirents_list_ind;
    intros dir results.
  - reflexivity.
  - simpl in Hfind. cbn [replace_entry].
    destruct (jseq c name) eqn:Ecn.
    + injection Hfind as ->. cbn [walk_entries].
      rewrite Hkind, Hwalk. reflexivity.
    + cbn [walk_entries]. apply IH. exact Hfind.
Qed.

Lemma walk_entries_append (c content : jsstring) (r wr : bool) (entries : dirents) :
  excluded_file c = true ->
  forall dir results,
    walk_entries dir (append_entry entries c (File r wr content)) results
    = walk_entries dir entries results.
Proof.
  intro Hex.
  induction entries as [|name ch rest IH] using dirents_list_ind;
    intros dir results.
  - cbn [append_entry walk_entries isDirectory]. rewrite Hex. reflexivity.
  - cbn [append_entry walk_entries]. apply IH.
Qed.

Lemma test_name_excluded (name : jsstring) :
  is_test_name name = true -> excluded_file name = true.
Proof. unfold is_test_name, excluded_file. intros ->. reflexivity. Qed.

(** Writing a test file leaves the walk of any directory as it was. *)
Lemma walk_write_test_file (comps : list jsstring) (content : jsstring) :
  forall n n', write_comps n comps content = Returned n' ->
  comps = [] \/ names_test_file comps = true ->
  forall dir results, walk dir n' results = walk dir n results.
Proof.
  induction comps as [|c comps IH]; intros n n' Hw Hname dir results.
  - destruct n as [r wr old | r wr entries]; simpl in Hw; [|discriminate].
    destruct wr; [|discriminate].
    injection Hw as <-. reflexivity.
  - destruct Hname as [Hname | Hname]; [discriminate|].
    destruct n as [r wr old | r wr entries]; simpl in Hw; [discriminate|].
    destruct (find_entry c entries) as [child|] eqn:Hfind.
    + destruct (write_comps child comps content) as [child'|e] eqn:Hchild;
        [|discriminate].
      injection Hw as <-.
      destruct r; cbn [walk]; [|reflexivity].
      apply walk_entries_replace with (child := child); [exact Hfind | |].
      * eapply write_comps_kind. exact Hchild.
      * apply (IH _ _ Hchild).
        destruct comps as [|c' comps']; [left; reflexivity | right; exact Hname].
    + destruct comps as [|c' comps']; [|discriminate].
      destruct wr; [|discriminate].
      injection Hw as <-.
      destruct r; cbn [walk]; [|reflexivity].
      apply walk_entries_append. apply test_name_excluded. exact Hname.
Qed.

Lemma findComponentFiles_found (rootDir : jsstring) (w : world) :
  findComponentFiles rootDir w = (Returned (found (fs w) rootDir), w).
Proof.
  unfold findComponentFiles, found.
  destruct (lookup (fs w) rootDir); reflexivity.
Qed.

Lemma walk_of_write_test_file (comps : list jsstring) (content : jsstring) :
  forall n n' target, write_comps n comps content = Returned n' ->
  comps = [] \/ names_test_file comps = true ->
  forall dir,
    walk_of (lookup_comps n' target) dir = walk_of (lookup_comps n target) dir.
Proof.
  induction comps as [|c comps IH]; intros n n' target Hw Hname dir.
  - destruct n as [r wr old | r wr entries]; simpl in Hw; [|discriminate].
    destruct wr; [|discriminate].
    injection Hw as <-. destruct target; reflexivity.
  - destruct target as [|x target].
    { simpl. eapply walk_write_test_file; eassumption. }
    destruct Hname as [Hname | Hname]; [discriminate|].
    destruct n as [r wr old | r wr entries]; simpl in Hw; [discriminate|].
    destruct (find_entry c entries) as [child|] eqn:Hfind.
    + destruct (write_comps child comps content) as [child'|e] eqn:Hchild;
        [|discriminate].
      injection Hw as <-. simpl. rewrite find_entry_replace.
      destruct (jseq x c) eqn:Exc; [|reflexivity].
      apply jseq_true in Exc. subst x. rewrite Hfind.
      apply (IH _ _ _ Hchild).
      destruct comps as [|c' comps']; [left; reflexivity | right; exact Hname].
    + destruct comps as [|c' comps']; [|discriminate].
      destruct wr; [|discriminate].
      injection Hw as <-. simpl. rewrite find_entry_append.
      destruct (find_entry x entries) as [m|] eqn:Hx; [reflexivity|].
      destruct (jseq x c); [|reflexivity].
      destruct target; reflexivity.
Qed.

Lemma found_write_test_file (tree tree' : node) (p content rootDir : jsstring) :
  write_comps tree (os_path p) content = Returned tree' ->
  names_test_file (os_path p) = true ->
  found tree' rootDir = found tree rootDir.
Proof.
  intros Hw Hname. unfold found, lookup.
  eapply walk_of_write_test_file; [exact Hw | right; exact Hname].
Qed.

(** ** Paths: where a test file is written *)

Lemma split_slash_nonempty (s : jsstring) : Path.split_slash s <> [].
Proof.
  induction s as [|c s IH]; simpl.
  - discriminate.
  - destruct (Path.isSlash c); [discriminate|].
    destruct (Path.split_slash s); [congruence | discriminate].
Qed.

Lemma split_slash_app (a b : jsstring) :
  Path.split_slash (a ++ Path.slash :: b) = Path.split_slash a ++ Path.split_slash b.
Proof.
  induction a as [|c a IH]; simpl.
  - reflexivity.
  - rewrite IH. destruct (Path.isSlash c); [reflexivity|].
    pose proof (split_slash_nonempty a) as Ha.
    destruct (Path.split_slash a); [congruence | reflexivity].
Qed.

(** Text without a slash extends the last segment. *)
Lemma split_slash_suffix (b s : jsstring) :
  existsb Path.isSlash s = false ->
  exists segs seg,
    Path.split_slash b = segs ++ [seg]
    /\ Path.split_slash (b ++ s) = segs ++ [seg ++ s].
Proof.
  intro Hs. induction b as [|c b (segs & seg & Hb & Hbs)]; simpl.
  - exists [], []. split; [reflexivity|]. simpl.
    induction s as [|d s IHs]; [reflexivity|].
    simpl in Hs. apply orb_false_iff in Hs as [Hd Hs]. simpl.
    rewrite Hd, (IHs Hs). reflexivity.
  - rewrite Hb, Hbs. destruct (Path.isSlash c).
    + exists ([] :: segs), seg. split; reflexivity.
    + destruct segs as [|seg0 segs]; simpl.
      * exists [], (c :: seg). split; reflexivity.
      * exists ((c :: seg0) :: segs), seg. split; reflexivity.
Qed.

Lemma split_slash_free (s : jsstring) :
  Forall (fun seg => existsb Path.isSlash seg = false) (Path.split_slash s).
Proof.
  induction s as [|c s IH]; simpl.
  - constructor; [reflexivity | constructor].
  - destruct (Path.isSlash c) eqn:Ec.
    + constructor; [reflexivity | exact IH].
    + destruct (Path.split_slash s) as [|seg segs]; inversion IH; subst.
      * constructor; [simpl; rewrite Ec; reflexivity | constructor].
      * constructor; [simpl; rewrite Ec; assumption | assumption].
Qed.

Lemma split_slash_of_free (s : jsstring) :
  existsb Path.isSlash s = false -> Path.split_slash s = [s].
Proof.
  induction s as [|c s IH]; simpl; [reflexivity|].
  intro H. apply orb_false_iff in H as [Hc Hs]. rewrite Hc, (IH Hs). reflexivity.
Qed.

(** Joining segments that hold no slash and splitting again gives them back. *)
Lemma split_join_slash (segs : list jsstring) :
  segs <> [] ->
  Forall (fun seg => existsb Path.isSlash seg = false) segs ->
  Path.split_slash (Path.join_slash segs) = segs.
Proof.
  induction segs as [|seg segs IH]; intros Hne Hfree; [congruence|].
  inversion Hfree as [|? ? Hseg Hsegs]; subst.
  destruct segs as [|seg' segs].
  - simpl. apply split_slash_of_free. exact Hseg.
  - change (Path.join_slash (seg :: seg' :: segs))
      with (seg ++ Path.slash :: Path.join_slash (seg' :: segs)).
    rewrite split_slash_app, IH by (assumption || discriminate).
    rewrite (split_slash_of_free _ Hseg). reflexivity.
Qed.

(** The segments [normalizeString] keeps come from its input. *)
Lemma normalize_segment_free (allow : bool) (stack : list jsstring) (seg : jsstring) :
  Forall (fun s => existsb Path.isSlash s = false) stack ->
  existsb Path.isSlash seg = false ->
  Forall (fun s => existsb Path.isSlash s = false)
         (Path.normalize_segment allow stack seg).
Proof.
  intros Hstack Hseg. unfold Path.normalize_segment.
  destruct (Path.isEmpty seg || Path.isDot seg); [exact Hstack|].
  destruct (Path.isDotDot seg).
  - destruct stack as [|top below].
    + destruct allow; repeat constructor; assumption.
    + inversion Hstack; subst.
      destruct (Path.isDotDot top); [destruct allow|]; try assumption.
      constructor; assumption.
  - constructor; assumption.
Qed.

Lemma normalize_fold_free (allow : bool) (segs stack : list jsstring) :
  Forall (fun s => existsb Path.isSlash s = false) stack ->
  Forall (fun s => existsb Path.isSlash s = false) segs ->
  Forall (fun s => existsb Path.isSlash s = false)
         (fold_left (Path.normalize_segment allow) segs stack).
Proof.
  revert stack. induction segs as [|seg segs IH]; intros stack Hstack Hsegs; simpl.
  - exact Hstack.
  - inversion Hsegs; subst. apply IH; [|assumption].
    apply normalize_segment_free; assumption.
Qed.

Lemma startsWith_app (p s : jsstring) : startsWith (p ++ s) p = true.
Proof.
  induction p as [|c p IH]; simpl; [reflexivity|].
  rewrite N.eqb_refl. exact IH.
Qed.

Lemma endsWith_app (s p : jsstring) : endsWith (s ++ p) p = true.
Proof. unfold endsWith. rewrite rev_app_distr. apply startsWith_app. Qed.

Lemma names_test_file_last (comps : list jsstring) (name : jsstring) :
  names_test_file (comps ++ [name]) = is_test_name name.
Proof.
  induction comps as [|c comps IH]; [reflexivity|].
  simpl. destruct (comps ++ [name]) eqn:E; [|exact IH].
  destruct comps; discriminate.
Qed.

Lemma dirname_nonempty (p : jsstring) : Path.dirname p <> [].
Proof.
  unfold Path.dirname. destruct p as [|c0 tail]; [discriminate|].
  destruct (snd (Path.take_segment (Path.skip_slashes (rev tail)))).
  - destruct (Path.isSlash c0); discriminate.
  - destruct (Path.isSlash c0 && Path.isEmpty j); discriminate.
Qed.

(** The path of a test file ends in a component that ends with
    [.test.tsx], whatever the path of the source file. *)
Lemma getTestPath_names_test_file (filePath : jsstring) :
  names_test_file (os_path (getTestPath filePath)) = true.
Proof.
  unfold getTestPath.
  set (dir := Path.dirname filePath).
  set (base := Path.basename filePath (Path.extname filePath)).
  assert (Hdir : dir <> []) by apply dirname_nonempty.
  unfold Path.join. simpl filter.
  destruct dir as [|d0 dir']; [congruence|]. cbn [Path.isEmpty negb].
  assert (Hbase : Path.isEmpty (base ++ str ".test.tsx") = false).
  { destruct base; reflexivity. }
  rewrite Hbase. cbn [negb Path.join_slash].
  set (dirs := d0 :: dir').
  destruct (split_slash_suffix base (str ".test.tsx") eq_refl)
    as (bsegs & bseg & _ & Hsplit).
  set (t := bseg ++ str ".test.tsx") in *.
  assert (Ht : is_test_name t = true) by apply endsWith_app.
  assert (Htlen : 9 <= List.length t).
  { unfold t. rewrite length_app. simpl. lia. }
  assert (Hsegs : Path.split_slash (dirs ++ Path.slash :: base ++ str ".test.tsx")
                  = (Path.split_slash dirs ++ bsegs) ++ [t]).
  { rewrite split_slash_app, Hsplit, app_assoc. reflexivity. }
  assert (Hstep : forall allow stack,
             Path.normalize_segment allow stack t = t :: stack).
  { intros allow stack. unfold Path.normalize_segment.
    assert (E1 : Path.isEmpty t = false) by (destruct t; [simpl in Htlen; lia | reflexivity]).
    assert (E2 : Path.isDot t = false).
    { apply jseq_false. intro E. rewrite E in Htlen. simpl in Htlen. lia. }
    assert (E3 : Path.isDotDot t = false).
    { apply jseq_false. intro E. rewrite E in Htlen. simpl in Htlen. lia. }
    rewrite E1, E2, E3. reflexivity. }
  assert (Hnorm : forall allow, exists kept,
             Forall (fun s => existsb Path.isSlash s = false) (kept ++ [t])
             /\ Path.normalizeString
                  (dirs ++ Path.slash :: base ++ str ".test.tsx") allow
                = Path.join_slash (kept ++ [t])).
  { intro allow. unfold Path.normalizeString. rewrite Hsegs, fold_left_app.
    cbn [fold_left]. rewrite Hstep.
    set (stack := fold_left (Path.normalize_segment allow)
                    (Path.split_slash dirs ++ bsegs) []).
    exists (rev stack). split; [|reflexivity].
    pose proof (split_slash_free (dirs ++ Path.slash :: base ++ str ".test.tsx"))
      as Hfree.
    rewrite Hsegs in Hfree. apply Forall_app in Hfree as [Hpre Hlast].
    apply Forall_app. split; [|exact Hlast].
    apply Forall_rev. apply normalize_fold_free; [constructor | exact Hpre]. }
  assert (Hlastx : Path.hasTrailingSlash
                     (dirs ++ Path.slash :: base ++ str ".test.tsx") = false).
  { unfold Path.hasTrailingSlash.
    change (str ".test.tsx") with (str ".test.ts" ++ [120%N]).
    rewrite !app_comm_cons, !app_assoc, rev_app_distr. reflexivity. }
  unfold Path.normalize. cbn [Path.isEmpty dirs app].
  fold dirs. change (d0 :: dir' ++ Path.slash :: base ++ str ".test.tsx")
    with (dirs ++ Path.slash :: base ++ str ".test.tsx").
  rewrite Hlastx.
  set (abs := Path.isAbsolute (dirs ++ Path.slash :: base ++ str ".test.tsx")).
  destruct (Hnorm (negb abs)) as (kept & Hfree & ->).
  assert (Hne : Path.isEmpty (Path.join_slash (kept ++ [t])) = false).
  { destruct (Path.join_slash (kept ++ [t])) eqn:E; [|reflexivity].
    exfalso. apply (f_equal Path.split_slash) in E.
    rewrite split_join_slash in E; [| destruct kept; discriminate | exact Hfree].
    simpl in E. destruct kept as [|k kept]; simpl in E.
    - injection E as E. rewrite E in Htlen. simpl in Htlen. lia.
    - destruct kept; discriminate. }
  rewrite Hne.
  assert (Hos : os_path (Path.join_slash (kept ++ [t]))
                = filter (fun seg => negb (Path.isEmpty seg)) kept ++ [t]).
  { unfold os_path. rewrite split_join_slash;
      [| destruct kept; discriminate | exact Hfree].
    rewrite filter_app. simpl.
    destruct t; [simpl in Htlen; lia | reflexivity]. }
  destruct abs.
  - change (os_path (Path.slash :: Path.join_slash (kept ++ [t])))
      with (os_path (Path.join_slash (kept ++ [t]))).
    rewrite Hos, names_test_file_last. exact Ht.
  - rewrite Hos, names_test_file_last. exact Ht.
Qed.

(** ** Paths of discovered files

    The directories the walk visits are named by absolute paths in normal
    form: a slash, then the names of the directories from the root,
    separated by slashes. *)

Lemma plain_free (names : list jsstring) :
  Forall plain names -> Forall (fun s => existsb Path.isSlash s = false) names.
Proof. apply Forall_impl. intros name (_ & H & _). exact H. Qed.

Lemma normalize_segment_plain (allow : bool) (stack : list jsstring) (name : jsstring) :
  plain name -> Path.normalize_segment allow stack name = name :: stack.
Proof.
  intros (Hne & _ & Hdot & Hdd). unfold Path.normalize_segment.
  assert (E1 : Path.isEmpty name = false) by (destruct name; [congruence | reflexivity]).
  assert (E2 : Path.isDot name = false) by (apply jseq_false; exact Hdot).
  assert (E3 : Path.isDotDot name = false) by (apply jseq_false; exact Hdd).
  rewrite E1, E2, E3. reflexivity.
Qed.

Lemma normalize_fold_plain (allow : bool) (names stack : list jsstring) :
  Forall plain names ->
  fold_left (Path.normalize_segment allow) names stack = rev names ++ stack.
Proof.
  revert stack. induction names as [|name names IH]; intros stack Hall;
    [reflexivity|].
  inversion Hall; subst. simpl.
  rewrite normalize_segment_plain, IH by assumption.
  rewrite <- app_assoc. reflexivity.
Qed.

Lemma join_slash_snoc (comps : list jsstring) (name : jsstring) :
  comps <> [] ->
  Path.join_slash (comps ++ [name]) = Path.join_slash comps ++ Path.slash :: name.
Proof.
  induction comps as [|c comps IH]; [congruence|]. intros _.
  destruct comps as [|c' comps]; [reflexivity|].
  change (Path.join_slash ((c :: c' :: comps) ++ [name]))
    with (c ++ Path.slash :: Path.join_slash ((c' :: comps) ++ [name])).
  rewrite IH by discriminate.
  change (Path.join_slash (c :: c' :: comps))
    with (c ++ Path.slash :: Path.join_slash (c' :: comps)).
  rewrite <- app_assoc. reflexivity.
Qed.

(** A path and a name below it, as one string. *)
Lemma absolute_path_snoc (comps : list jsstring) (name : jsstring) :
  absolute_path (comps ++ [name])
  = match comps with
    | [] => Path.slash :: name
    | _ :: _ => absolute_path comps ++ Path.slash :: name
    end.
Proof.
  unfold absolute_path. destruct comps as [|c comps]; [reflexivity|].
  rewrite join_slash_snoc by discriminate. reflexivity.
Qed.

(** The segments of an absolute path, empty ones dropped, are its
    components. *)
Lemma normalize_fold_absolute (allow : bool) (comps : list jsstring) (tail : jsstring) :
  Forall plain comps ->
  existsb Path.isSlash tail = false ->
  fold_left (Path.normalize_segment allow)
    (Path.split_slash (absolute_path comps ++ Path.slash :: tail)) []
  = Path.normalize_segment allow (rev comps) tail.
Proof.
  intros Hplain Htail. unfold absolute_path.
  rewrite split_slash_app, fold_left_app.
  rewrite (split_slash_of_free _ Htail). cbn [fold_left]. f_equal.
  destruct comps as [|c comps].
  - reflexivity.
  - change (Path.slash :: Path.join_slash (c :: comps))
      with ([] ++ Path.slash :: Path.join_slash (c :: comps)).
    rewrite split_slash_app, (@split_join_slash (c :: comps));
      [| discriminate | apply plain_free; exact Hplain].
    cbn [Path.split_slash app fold_left].
    change (Path.normalize_segment allow [] []) with (@nil jsstring).
    inversion Hplain; subst.
    rewrite normalize_segment_plain, normalize_fold_plain by assumption.
    reflexivity.
Qed.

Lemma plain_last_char (name : jsstring) :
  plain name -> exists c r, rev name = c :: r /\ Path.isSlash c = false.
Proof.
  intros (Hne & Hfree & _).
  destruct (rev name) as [|c r] eqn:E.
  - apply (f_equal (@rev N)) in E. rewrite rev_involutive in E. contradiction.
  - exists c, r. split; [reflexivity|].
    assert (Hin : In c name) by (apply in_rev; rewrite E; left; reflexivity).
    destruct (Path.isSlash c) eqn:Hc; [|reflexivity].
    assert (existsb Path.isSlash name = true)
      by (apply existsb_exists; exists c; split; assumption).
    congruence.
Qed.

Lemma join_slash_nonempty (comps : list jsstring) (name : jsstring) :
  name <> [] -> Path.join_slash (comps ++ [name]) <> [].
Proof.
  intro Hne. destruct comps as [|c comps]; [exact Hne|].
  rewrite join_slash_snoc by discriminate.
  intro E. apply app_eq_nil in E as [_ E]. discriminate.
Qed.

(** [path.join] of a directory in normal form and a name appends the
    name. *)
Lemma join_absolute (comps : list jsstring) (name : jsstring) :
  Forall plain comps -> plain name ->
  Path.join [absolute_path comps; name] = absolute_path (comps ++ [name]).
Proof.
  intros Hcomps Hname. unfold Path.join.
  assert (Hn : Path.isEmpty name = false)
    by (destruct Hname as (Hne & _); destruct name; [congruence | reflexivity]).
  cbn [filter]. change (Path.isEmpty (absolute_path comps)) with false.
  rewrite Hn. cbn [negb Path.join_slash].
  set (joined := absolute_path comps ++ Path.slash :: name).
  assert (Htrail : Path.hasTrailingSlash joined = false).
  { unfold Path.hasTrailingSlash, joined.
    destruct (plain_last_char Hname) as (c & r & Hrev & Hc).
    rewrite rev_app_distr. cbn [rev].
    rewrite <- app_assoc, Hrev. exact Hc. }
  assert (Hnorm : Path.normalizeString joined false
                  = Path.join_slash (comps ++ [name])).
  { unfold Path.normalizeString, joined.
    rewrite normalize_fold_absolute;
      [| exact Hcomps | destruct Hname as (_ & H & _); exact H].
    rewrite normalize_segment_plain by exact Hname.
    cbn [rev]. rewrite rev_involutive. reflexivity. }
  unfold Path.normalize.
  change (Path.isEmpty joined) with false.
  change (Path.isAbsolute joined) with true.
  cbn [negb]. rewrite Htrail, Hnorm.
  destruct (Path.join_slash (comps ++ [name])) eqn:E.
  - exfalso. apply (join_slash_nonempty comps) in E; [exact E|].
    destruct Hname as (Hne & _). exact Hne.
  - unfold absolute_path. rewrite E. reflexivity.
Qed.

(** The paths [walk] builds below a directory in normal form. *)
Lemma path_below_absolute (comps names : list jsstring) :
  Forall plain comps -> Forall plain names ->
  path_below (absolute_path comps) names = absolute_path (comps ++ names).
Proof.
  revert comps. induction names as [|name names IH]; intros comps Hcomps Hnames.
  - rewrite app_nil_r. reflexivity.
  - inversion Hnames; subst. unfold path_below in *. cbn [fold_left].
    rewrite join_absolute by assumption.
    rewrite IH;
      [| apply Forall_app; split; [assumption | constructor; [assumption | constructor]]
       | assumption].
    rewrite <- app_assoc. reflexivity.
Qed.

Lemma skip_slashes_plain (name rest : jsstring) :
  plain name -> Path.skip_slashes (rev name ++ rest) = rev name ++ rest.
Proof.
  intro Hname. destruct (plain_last_char Hname) as (c & r & -> & Hc).
  simpl. rewrite Hc. reflexivity.
Qed.

Lemma take_segment_free (seg rest : jsstring) :
  existsb Path.isSlash seg = false ->
  Path.take_segment (seg ++ Path.slash :: rest) = (seg, Path.slash :: rest).
Proof.
  induction seg as [|c seg IH]; intro Hfree.
  - reflexivity.
  - simpl in Hfree. apply orb_false_iff in Hfree as [Hc Hseg].
    simpl. rewrite Hc, (IH Hseg). reflexivity.
Qed.

Lemma take_segment_free_end (seg : jsstring) :
  existsb Path.isSlash seg = false -> Path.take_segment seg = (seg, []).
Proof.
  induction seg as [|c seg IH]; intro Hfree.
  - reflexivity.
  - simpl in Hfree. apply orb_false_iff in Hfree as [Hc Hseg].
    simpl. rewrite Hc, (IH Hseg). reflexivity.
Qed.

Lemma existsb_rev (A : Type) (f : A -> bool) (l : list A) :
  existsb f (rev l) = existsb f l.
Proof.
  induction l as [|x l IH]; [reflexivity|].
  simpl. rewrite existsb_app, IH. simpl. rewrite orb_false_r. apply orb_comm.
Qed.

Lemma plain_rev_free (name : jsstring) :
  plain name -> existsb Path.isSlash (rev name) = false.
Proof. intros (_ & H & _). rewrite existsb_rev. exact H. Qed.

(** The reversed path: the reversed name, a slash, and the rest. *)
Lemma rev_absolute_path_snoc (comps : list jsstring) (name : jsstring) :
  exists rest,
    rev (absolute_path (comps ++ [name])) = rev name ++ Path.slash :: rest.
Proof.
  rewrite absolute_path_snoc. destruct comps as [|c comps].
  - exists []. reflexivity.
  - exists (rev (absolute_path (c :: comps))).
    rewrite rev_app_distr. cbn [rev]. rewrite <- app_assoc. reflexivity.
Qed.

Lemma last_segment_absolute (comps : list jsstring) (name : jsstring) :
  plain name ->
  Path.take_segment (Path.skip_slashes (rev (absolute_path (comps ++ [name]))))
  = (rev name, snd (Path.take_segment
                      (Path.skip_slashes (rev (absolute_path (comps ++ [name])))))).
Proof.
  intro Hname. destruct (rev_absolute_path_snoc comps name) as (rest & ->).
  rewrite skip_slashes_plain by exact Hname.
  rewrite take_segment_free by (apply plain_rev_free; exact Hname).
  reflexivity.
Qed.

(** [path.dirname] of a file in a directory is the directory. *)
Lemma dirname_absolute (comps : list jsstring) (name : jsstring) :
  Forall plain comps -> plain name ->
  Path.dirname (absolute_path (comps ++ [name])) = absolute_path comps.
Proof.
  intros Hcomps Hname. unfold Path.dirname, absolute_path.
  change (Path.isSlash Path.slash) with true. cbn [andb].
  destruct comps as [|c comps].
  - cbn [app Path.join_slash].
    rewrite <- (app_nil_r (rev name)), skip_slashes_plain by exact Hname.
    rewrite app_nil_r, take_segment_free_end
      by (apply plain_rev_free; exact Hname).
    reflexivity.
  - rewrite join_slash_snoc by discriminate.
    rewrite rev_app_distr. cbn [rev]. rewrite <- app_assoc. cbn [app].
    rewrite skip_slashes_plain by exact Hname.
    rewrite take_segment_free by (apply plain_rev_free; exact Hname).
    cbn [snd].
    destruct (rev (Path.join_slash (c :: comps))) as [|x r] eqn:E.
    + exfalso. apply (f_equal (@rev N)) in E. rewrite rev_involutive in E.
      inversion Hcomps as [|? ? (Hc & _) _]; subst.
      destruct comps; simpl in E.
      * congruence.
      * apply app_eq_nil in E as [E _]. congruence.
    + cbn [Path.isEmpty]. rewrite <- E, rev_involutive. reflexivity.
Qed.

Lemma split_last_dot_tsx (stem_rev : jsstring) :
  Path.split_last_dot (rev (str ".tsx") ++ stem_rev) = Some (rev (str "tsx"), stem_rev).
Proof. reflexivity. Qed.

Lemma extname_absolute (comps : list jsstring) (stem : jsstring) :
  plain (component_name stem) -> stem <> [] ->
  Path.extname (absolute_path (comps ++ [component_name stem])) = str ".tsx".
Proof.
  intros Hname Hstem. unfold Path.extname.
  rewrite last_segment_absolute by exact Hname. cbn [fst].
  unfold component_name. rewrite rev_app_distr, split_last_dot_tsx.
  destruct (rev stem) as [|c r] eqn:E.
  - apply (f_equal (@rev N)) in E. rewrite rev_involutive in E. contradiction.
  - cbn [Path.isEmpty]. change (Path.isEmpty (rev (str "tsx"))) with false.
    rewrite andb_false_r. reflexivity.
Qed.

Lemma last_segment_absolute' (comps : list jsstring) (name : jsstring) :
  plain name ->
  Path.last_segment (absolute_path (comps ++ [name])) = name.
Proof.
  intro Hname. unfold Path.last_segment.
  rewrite last_segment_absolute by exact Hname. apply rev_involutive.
Qed.

Lemma scan_suffix_app (suffix_rev stem_rev : jsstring) :
  Path.scan_suffix (suffix_rev ++ stem_rev) suffix_rev = Path.Matched stem_rev.
Proof.
  induction suffix_rev as [|x s IH]; simpl.
  - destruct stem_rev; reflexivity.
  - rewrite N.eqb_refl. exact IH.
Qed.

Lemma basename_absolute (comps : list jsstring) (stem : jsstring) :
  plain (component_name stem) -> stem <> [] ->
  Path.basename (absolute_path (comps ++ [component_name stem])) (str ".tsx")
  = stem.
Proof.
  intros Hname Hstem. unfold Path.basename.
  set (p := absolute_path (comps ++ [component_name stem])).
  assert (Hlen : (List.length (str ".tsx") <=? List.length p) = true).
  { apply Nat.leb_le. unfold p. rewrite absolute_path_snoc.
    destruct comps; [|rewrite length_app]; cbn [List.length];
      unfold component_name; rewrite length_app; simpl; lia. }
  rewrite Hlen. cbn [Path.isEmpty negb andb str].
  assert (Hneq : jseq (str ".tsx") p = false).
  { apply jseq_false. unfold p, absolute_path. discriminate. }
  change (map N_of_ascii (list_ascii_of_string ".tsx")) with (str ".tsx").
  rewrite Hneq. unfold p. rewrite last_segment_absolute' by exact Hname.
  unfold component_name. rewrite rev_app_distr, scan_suffix_app.
  destruct (rev stem) as [|c r] eqn:E.
  - apply (f_equal (@rev N)) in E. rewrite rev_involutive in E. contradiction.
  - cbn [Path.isEmpty]. rewrite <- E. apply rev_involutive.
Qed.

Lemma plain_test_name (stem : jsstring) :
  plain (component_name stem) -> plain (stem ++ str ".test.tsx").
Proof.
  intros (_ & Hfree & _). unfold component_name in Hfree.
  rewrite existsb_app in Hfree. apply orb_false_iff in Hfree as [Hstem _].
  assert (Hlen : 9 <= List.length (stem ++ str ".test.tsx"))
    by (rewrite length_app; simpl; lia).
  repeat split.
  - intro E. rewrite E in Hlen. simpl in Hlen. lia.
  - rewrite existsb_app, Hstem. reflexivity.
  - intro E. rewrite E in Hlen. simpl in Hlen. lia.
  - intro E. rewrite E in Hlen. simpl in Hlen. lia.
Qed.

(** Section 4.3 of the specification, for a component in a directory in
    normal form: the test file is a sibling of the source file. *)
Lemma getTestPath_sibling (comps : list jsstring) (stem : jsstring) :
  Forall plain comps -> plain (component_name stem) -> stem <> [] ->
  getTestPath (absolute_path (comps ++ [component_name stem]))
  = absolute_path (comps ++ [stem ++ str ".test.tsx"]).
Proof.
  intros Hcomps Hname Hstem. unfold getTestPath.
  rewrite dirname_absolute, extname_absolute, basename_absolute by assumption.
  apply join_absolute; [exact Hcomps | apply plain_test_name; exact Hname].
Qed.

(** [path.resolve] leaves an absolute path in normal form as it is. *)
Lemma resolve_absolute (pcwd : jsstring) (comps : list jsstring) :
  Forall plain comps ->
  Path.resolve pcwd [absolute_path comps] = absolute_path comps.
Proof.
  intro Hcomps. unfold Path.resolve. cbn [rev app Path.resolve_args].
  change (Path.isEmpty (absolute_path comps)) with false.
  change (Path.isAbsolute (absolute_path comps)) with true. cbn [negb].
  unfold Path.normalizeString.
  rewrite normalize_fold_absolute by (exact Hcomps || reflexivity).
  change (Path.normalize_segment false (rev comps) []) with (rev comps).
  rewrite rev_involutive. reflexivity.
Qed.

Lemma common_prefix_self (f rest : jsstring) (i : nat) (sep : option nat) :
  fst (Path.common_prefix f (f ++ rest) (List.length f) i sep) = i + List.length f.
Proof.
  revert i sep. induction f as [|c f IH]; intros i sep.
  - simpl. lia.
  - cbn [app List.length Path.common_prefix]. rewrite N.eqb_refl, IH. lia.
Qed.

Lemma charIs_app (f rest : jsstring) (c : N) :
  Path.charIs (f ++ c :: rest) (List.length f) c = true.
Proof.
  unfold Path.charIs. rewrite nth_error_app2 by lia.
  rewrite Nat.sub_diag. simpl. apply N.eqb_refl.
Qed.

Lemma skipn_past (f rest : jsstring) (c : N) :
  skipn (S (List.length f)) (f ++ c :: rest) = rest.
Proof. induction f as [|x f IH]; [reflexivity | exact IH]. Qed.

Lemma plain_first_char (name : jsstring) :
  plain name -> Path.charIs name 0 Path.slash = false.
Proof.
  intros (Hne & Hfree & _). destruct name as [|c name]; [congruence|].
  simpl in Hfree. apply orb_false_iff in Hfree as [Hc _].
  unfold Path.charIs. simpl. exact Hc.
Qed.

(** [path.relative] from a directory to a file in it is the file name. *)
Lemma relative_to_child (pcwd : jsstring) (comps : list jsstring) (name : jsstring) :
  Forall plain comps -> plain name ->
  Path.relative pcwd (absolute_path comps) (absolute_path (comps ++ [name]))
  = name.
Proof.
  intros Hcomps Hname.
  assert (Hall : Forall plain (comps ++ [name]))
    by (apply Forall_app; split; [exact Hcomps | constructor; [exact Hname | constructor]]).
  assert (Hne : name <> []) by (destruct Hname as (H & _); exact H).
  assert (Hdiff : jseq (absolute_path comps) (absolute_path (comps ++ [name]))
                  = false).
  { apply jseq_false. intro E. apply (f_equal (@List.length N)) in E.
    rewrite absolute_path_snoc in E.
    destruct comps; [|rewrite length_app in E]; simpl in E;
      destruct name; try congruence; simpl in E; lia. }
  unfold Path.relative.
  rewrite Hdiff, !resolve_absolute, Hdiff by assumption.
  unfold absolute_path. cbn [skipn].
  destruct comps as [|c comps].
  - cbn [app Path.join_slash List.length Nat.min Path.common_prefix].
    cbn [Nat.eqb].
    destruct name as [|x name']; [congruence|].
    cbn [List.length Nat.ltb Nat.leb].
    rewrite (plain_first_char Hname). reflexivity.
  - rewrite join_slash_snoc by discriminate.
    set (f := Path.join_slash (c :: comps)).
    rewrite length_app. cbn [List.length].
    replace (Nat.min (List.length f) (List.length f + S (List.length name)))
      with (List.length f) by lia.
    pose proof (common_prefix_self f (Path.slash :: name) 0 None) as Hi.
    destruct (Path.common_prefix f (f ++ Path.slash :: name) (List.length f) 0 None)
      as [i sep].
    simpl in Hi. subst i. rewrite Nat.eqb_refl.
    assert (Hlt : (List.length f <? List.length f + S (List.length name)) = true)
      by (apply Nat.ltb_lt; lia).
    rewrite Hlt, charIs_app.
    apply skipn_past.
Qed.

(** One literal character of a pattern. *)
Lemma exec_char_one (c : N) (re : regex) (s : jsstring) (st : mstate) :
  exec (Item (AChar c) One :: re) s st
  = match s with
    | d :: s' => if N.eqb c d then exec re s' (consume st [d]) else None
    | [] => None
    end.
Proof.
  destruct s as [|d s']; [reflexivity|].
  cbn [exec run_length atom_matches quant_min quant_max].
  destruct (N.eqb c d); [|reflexivity].
  cbn [Nat.min try_counts Nat.ltb Nat.leb skipn firstn].
  destruct (exec re s' (consume st [d])); reflexivity.
Qed.

(** [/\.tsx?$/] matches nothing longer than [.tsx]. *)
Lemma exec_ts_ext_long (s : jsstring) :
  4 < List.length s -> exec re_ts_ext s initial_mstate = None.
Proof.
  intro Hlen.
  destruct s as [|c1 [|c2 [|c3 [|c4 [|c5 s]]]]]; simpl in Hlen; try lia.
  change re_ts_ext
    with [Item (AChar 46) One; Item (AChar 116) One; Item (AChar 115) One;
          Item (AChar 120) ZeroOrOne; EndAnchor].
  rewrite exec_char_one. destruct (46 =? c1)%N; [|reflexivity].
  rewrite exec_char_one. destruct (116 =? c2)%N; [|reflexivity].
  rewrite exec_char_one. destruct (115 =? c3)%N; [|reflexivity].
  cbn [exec run_length atom_matches quant_min quant_max].
  destruct (120 =? c4)%N; reflexivity.
Qed.

Lemma search_ts_ext (stem pre_rev : jsstring) :
  search_from re_ts_ext pre_rev (stem ++ str ".tsx")
  = Some {| before := rev pre_rev ++ stem; group1 := []; after := [] |}.
Proof.
  revert pre_rev. induction stem as [|c stem IH]; intro pre_rev.
  - rewrite app_nil_r. reflexivity.
  - cbn [app search_from].
    rewrite exec_ts_ext_long by (simpl; rewrite length_app; simpl; lia).
    rewrite IH. cbn [rev]. rewrite <- app_assoc. reflexivity.
Qed.

Lemma strip_tsx (stem : jsstring) :
  replace_first re_ts_ext [] (stem ++ str ".tsx") = stem.
Proof.
  unfold replace_first, search. rewrite search_ts_ext. simpl.
  apply app_nil_r.
Qed.

Section SiblingImport.
Context {U : Unicode}.

(** For a component in a directory in normal form, the import path is the
    file name without [.tsx]: [path.relative] puts no [./] in front. *)
Lemma relativeImport_sibling (pcwd : jsstring) (comps : list jsstring)
    (stem : jsstring) :
  Forall plain comps -> plain (component_name stem) -> stem <> [] ->
  relativeImport_of pcwd (absolute_path (comps ++ [component_name stem]))
  = replace_backslashes stem.
Proof.
  intros Hcomps Hname Hstem. unfold relativeImport_of.
  rewrite getTestPath_sibling by assumption.
  rewrite dirname_absolute by (try apply plain_test_name; assumption).
  rewrite relative_to_child by assumption.
  unfold component_name, replace_backslashes. rewrite map_app.
  apply strip_tsx.
Qed.

Lemma exportInfo_shape (pcwd filePath source : jsstring) :
  exists name,
    exportInfo_of_source pcwd filePath source
    = default_import name (relativeImport_of pcwd filePath)
    \/ exportInfo_of_source pcwd filePath source
       = named_import name (relativeImport_of pcwd filePath).
Proof.
  unfold exportInfo_of_source.
  destruct (js_match re_default_function source) as [n|]; [exists n; left; reflexivity|].
  destruct (js_match re_default source) as [n|]; [exists n; left; reflexivity|].
  destruct (js_match re_function source) as [n|]; [exists n; right; reflexivity|].
  destruct (js_match re_const source) as [n|]; [exists n; right; reflexivity|].
  eexists. left. reflexivity.
Qed.

(** The import line of a component beside its test: the module named is
    the bare stem of the file. *)
Lemma importLine_sibling (pcwd : jsstring) (comps : list jsstring)
    (stem source : jsstring) :
  Forall plain comps -> plain (component_name stem) -> stem <> [] ->
  exists binding,
    importLine (exportInfo_of_source pcwd
                  (absolute_path (comps ++ [component_name stem])) source)
    = str "import " ++ binding ++ str " from " ++ [dquote]
      ++ replace_backslashes stem ++ [dquote] ++ str ";".
Proof.
  intros Hcomps Hname Hstem.
  destruct (exportInfo_shape pcwd (absolute_path (comps ++ [component_name stem]))
              source) as (name & [-> | ->]);
    rewrite relativeImport_sibling by assumption.
  - exists name. reflexivity.
  - exists (str "{ " ++ name ++ str " }"). simpl.
    repeat rewrite <- app_assoc. reflexivity.
Qed.

End SiblingImport.

(** *** The root that [main] scans *)

Lemma normalize_segment_keeps_plain (stack : list jsstring) (seg : jsstring) :
  Forall plain stack ->
  existsb Path.isSlash seg = false ->
  Forall plain (Path.normalize_segment false stack seg).
Proof.
  intros Hstack Hseg. unfold Path.normalize_segment.
  destruct (Path.isEmpty seg) eqn:E1; [exact Hstack|].
  destruct (Path.isDot seg) eqn:E2; [exact Hstack|]. cbn [orb].
  destruct (Path.isDotDot seg) eqn:E3.
  - destruct stack as [|top below]; [constructor|].
    inversion Hstack; subst. destruct (Path.isDotDot top); assumption.
  - constructor; [|exact Hstack].
    repeat split.
    + intro E. rewrite E in E1. discriminate.
    + exact Hseg.
    + apply jseq_false. exact E2.
    + apply jseq_false. exact E3.
Qed.

Lemma normalize_fold_keeps_plain (segs stack : list jsstring) :
  Forall plain stack ->
  Forall (fun s => existsb Path.isSlash s = false) segs ->
  Forall plain (fold_left (Path.normalize_segment false) segs stack).
Proof.
  revert stack. induction segs as [|seg segs IH]; intros stack Hstack Hsegs;
    [exact Hstack|].
  inversion Hsegs; subst. cbn [fold_left].
  apply IH; [apply normalize_segment_keeps_plain|]; assumption.
Qed.

(** With an absolute working directory, the root that [main] scans is an
    absolute path in normal form, whatever the [rootDir] argument. *)
Lemma resolve_root_absolute (pcwd rootDir : jsstring) :
  Path.isAbsolute pcwd = true ->
  exists comps,
    Forall plain comps
    /\ Path.resolve pcwd [pcwd; rootDir] = absolute_path comps.
Proof.
  intro Habs. unfold Path.resolve.
  assert (Hargs : exists resolvedPath,
             Path.resolve_args (rev [pcwd; rootDir] ++ [pcwd]) []
             = (resolvedPath, true)).
  { cbn [rev app Path.resolve_args].
    assert (Hne : Path.isEmpty pcwd = false) by (destruct pcwd; [discriminate | reflexivity]).
    destruct (Path.isEmpty rootDir); [|destruct (Path.isAbsolute rootDir)];
      rewrite ?Hne, ?Habs; eexists; reflexivity. }
  destruct Hargs as (resolvedPath & ->). cbn [negb].
  unfold Path.normalizeString.
  exists (rev (fold_left (Path.normalize_segment false)
                 (Path.split_slash resolvedPath) [])).
  split; [|reflexivity].
  apply Forall_rev. apply normalize_fold_keeps_plain; [constructor|].
  apply split_slash_free.
Qed.

(** C1.  For [widget.tsx] without a recognized export, and for
    [Button.tsx] with a default function, the import line names the source
    as [path.relative] returns it, [widget] and [Button]: there is no
    leading [./], so the line imports a package of that name. *)
Theorem import_path_has_no_dot_slash :
  @exportInfo_of_source AsciiCase (str "/p") (str "/p/src/widget.tsx")
     (str "const x = 1;")
  = {| importName := str "Widget";
       importLine := str "import Widget from " ++ [dquote] ++ str "widget"
                     ++ [dquote] ++ str ";";
       jsxTag := str "<Widget />" |}
  /\ getTestPath (str "/p/src/Button.tsx") = str "/p/src/Button.test.tsx"
  /\ @exportInfo_of_source AsciiCase (str "/p") (str "/p/src/Button.tsx")
       (str "export default function Button() { return null; }")
     = {| importName := str "Button";
          importLine := str "import Button from " ++ [dquote] ++ str "Button"
                        ++ [dquote] ++ str ";";
          jsxTag := str "<Button />" |}.
Proof. repeat split; vm_compute; reflexivity. Qed.

(** ** The monadic program and its effect on the file system *)

Section RunOnFs.
Context {U : Unicode}.
Variables (pcwd : jsstring) (opts : CliOptions).

Lemma main_file_on_fs (file : jsstring) (w : world) :
  on_fs (main_file pcwd opts file w) = main_file_fs pcwd opts file (fs w).
Proof.
  unfold main_file, main_file_fs, on_fs, bind, succeeds, fs_access, exists_in.
  destruct (lookup (fs w) (getTestPath file)) as [t|] eqn:Ht;
    destruct (force opts); cbn [andb negb]; try reflexivity;
    unfold inferExportInfo, bind, fs_readFile, read_result, ret;
    cbn [fs emit];
    (destruct (lookup (fs w) file) as [[[|] wr src | r wr es]|]; try reflexivity;
     destruct (dryRun opts); try reflexivity;
     unfold fs_writeFile, console_log; cbn [fs emit];
     destruct (write_comps (fs w) (os_path (getTestPath file)) _);
     reflexivity).
Qed.

Lemma for_each_on_fs (files : list jsstring) (w : world) :
  on_fs (for_each files (main_file pcwd opts) w)
  = for_each_fs files (main_file_fs pcwd opts) (fs w).
Proof.
  revert w. induction files as [|file files IH]; intro w; [reflexivity|].
  cbn [for_each for_each_fs]. unfold bind.
  pose proof (main_file_on_fs file w) as Hstep. unfold on_fs in Hstep.
  destruct (main_file pcwd opts file w) as [[[]|e] w1]; simpl in Hstep;
    rewrite <- Hstep.
  - apply IH.
  - reflexivity.
Qed.

End RunOnFs.

Section RunFs.
Context {U : Unicode}.

Lemma run_on_fs (argv : list jsstring) (pcwd : jsstring) (w : world) :
  fs (snd (run argv pcwd w)) = run_fs argv pcwd (fs w).
Proof.
  unfold run, run_fs, main, bind, console_log.
  rewrite findComponentFiles_found. cbn [fs emit].
  set (root := Path.resolve pcwd [pcwd; rootDir (parseArgs argv)]).
  set (w1 := emit _ w).
  destruct (List.length (found (fs w) root) =? 0); [reflexivity|].
  pose proof (for_each_on_fs pcwd (parseArgs argv) (found (fs w) root) w1) as Hloop.
  unfold on_fs in Hloop. change (fs w1) with (fs w) in Hloop.
  rewrite <- Hloop.
  destruct (for_each (found (fs w) root) (main_file pcwd (parseArgs argv)) w1)
    as [[[]|e] w2]; reflexivity.
Qed.

End RunFs.

(** ** Write policy *)

Section WritePolicy.
Context {U : Unicode}.
Variables (pcwd : jsstring) (opts : CliOptions).

(** One file of the loop either leaves the tree alone or writes the test
    path of that file. *)
Lemma main_file_fs_cases (file : jsstring) (tree : node) :
  snd (main_file_fs pcwd opts file tree) = tree
  \/ (exists content,
        fst (main_file_fs pcwd opts file tree) = Returned tt
        /\ dryRun opts = false
        /\ (force opts = false -> lookup tree (getTestPath file) = None)
        /\ write_comps tree (os_path (getTestPath file)) content
           = Returned (snd (main_file_fs pcwd opts file tree))).
Proof.
  unfold main_file_fs, exists_in.
  destruct (lookup tree (getTestPath file)) as [t|] eqn:Ht;
    destruct (force opts); cbn [andb negb]; try (left; reflexivity);
    (destruct (read_result tree file) as [source|e]; [|left; reflexivity];
     destruct (dryRun opts); [left; reflexivity|];
     destruct (write_comps tree (os_path (getTestPath file)) _) as [tree'|e] eqn:Hw;
     [|left; reflexivity];
     right; eexists; repeat split; try exact Hw; congruence).
Qed.

(** The loop removes nothing. *)
Lemma for_each_fs_exists (files : list jsstring) (tree : node) (p : jsstring) :
  lookup tree p <> None ->
  lookup (snd (for_each_fs files (main_file_fs pcwd opts) tree)) p <> None.
Proof.
  revert tree. induction files as [|file files IH]; intros tree Hp; [exact Hp|].
  cbn [for_each_fs].
  destruct (main_file_fs_cases file tree) as [Hsame | (content & Hok & _ & _ & Hw)].
  - destruct (main_file_fs pcwd opts file tree) as [[[]|e] tree']; simpl in Hsame; subst tree'.
    + apply IH. exact Hp.
    + exact Hp.
  - destruct (main_file_fs pcwd opts file tree) as [[[]|e] tree']; simpl in Hok, Hw; [|discriminate].
    apply IH. unfold lookup in *. eapply lookup_write_exists; eassumption.
Qed.

(** The loop leaves discovery as it was. *)
Lemma for_each_fs_found (files : list jsstring) (tree : node) (rootDir : jsstring) :
  found (snd (for_each_fs files (main_file_fs pcwd opts) tree)) rootDir = found tree rootDir.
Proof.
  revert tree. induction files as [|file files IH]; intro tree; [reflexivity|].
  cbn [for_each_fs].
  destruct (main_file_fs_cases file tree) as [Hsame | (content & Hok & _ & _ & Hw)].
  - destruct (main_file_fs pcwd opts file tree) as [[[]|e] tree']; simpl in Hsame; subst tree'.
    + apply IH.
    + reflexivity.
  - destruct (main_file_fs pcwd opts file tree) as [[[]|e] tree']; simpl in Hok, Hw; [|discriminate].
    rewrite IH. eapply found_write_test_file; [exact Hw|].
    apply getTestPath_names_test_file.
Qed.

(** Under [--dry-run] the loop writes nothing. *)
Lemma for_each_fs_dry_run (files : list jsstring) (tree : node) :
  dryRun opts = true -> snd (for_each_fs files (main_file_fs pcwd opts) tree) = tree.
Proof.
  intro Hdry. revert tree. induction files as [|file files IH]; intro tree;
    [reflexivity|].
  cbn [for_each_fs].
  destruct (main_file_fs_cases file tree) as [Hsame | (content & _ & Hno & _)];
    [|congruence].
  destruct (main_file_fs pcwd opts file tree) as [[[]|e] tree']; simpl in Hsame; subst tree'.
  - apply IH.
  - reflexivity.
Qed.


(** Without [--force], running the loop again on what it left changes
    nothing. *)
Lemma for_each_fs_again (files : list jsstring) (tree : node) :
  force opts = false ->
  let tree1 := snd (for_each_fs files (main_file_fs pcwd opts) tree) in
  snd (for_each_fs files (main_file_fs pcwd opts) tree1) = tree1.
Proof.
  intro Hforce. revert tree.
  induction files as [|file files IH]; intro tree; [reflexivity|].
  cbn zeta in *. cbn [for_each_fs].
  assert (Hskip : forall t, lookup t (getTestPath file) <> None ->
                            main_file_fs pcwd opts file t = (Returned tt, t)).
  { intros t Ht. unfold main_file_fs, exists_in.
    destruct (lookup t (getTestPath file)); [|congruence].
    rewrite Hforce. reflexivity. }
  destruct (main_file_fs_cases file tree) as [Hsame | (content & Hok & _ & _ & Hw)].
  - destruct (main_file_fs pcwd opts file tree) as [[[]|e] tree'] eqn:Hbody; simpl in Hsame;
      subst tree'.
    + (* the file was skipped, or the run is a dry run *)
      set (tree1 := snd (for_each_fs files (main_file_fs pcwd opts) tree)).
      destruct (lookup tree (getTestPath file)) as [t|] eqn:Ht.
      * rewrite Hskip.
        -- apply IH.
        -- apply for_each_fs_exists. congruence.
      * assert (Hdry : dryRun opts = true).
        { unfold main_file_fs, exists_in in Hbody. rewrite Ht in Hbody.
          cbn [andb] in Hbody.
          destruct (read_result tree file); [|discriminate].
          destruct (dryRun opts); [reflexivity|].
          destruct (write_comps tree (os_path (getTestPath file)) _)
            as [written|e'] eqn:Hw; [|discriminate].
          exfalso. injection Hbody as Htree. subst written.
          apply lookup_write_same in Hw as (r & Hthere).
          unfold lookup in Ht. congruence. }
        apply for_each_fs_dry_run with (files := file :: files). exact Hdry.
    + (* the run stopped here: it stops here again *)
      simpl. rewrite Hbody. reflexivity.
  - destruct (main_file_fs pcwd opts file tree) as [[[]|e] tree'] eqn:Hbody; simpl in Hok, Hw;
      [|discriminate].
    rewrite Hskip.
    + apply IH.
    + apply for_each_fs_exists. unfold lookup.
      apply lookup_write_same in Hw as (r & Hthere). congruence.
Qed.

End WritePolicy.

Section WholeRun.
Context {U : Unicode}.

(** A file whose test exists is passed over when [--force] is not given:
    nothing is read, written or printed. *)
Lemma main_file_skips (pcwd : jsstring) (opts : CliOptions) (file : jsstring)
    (w : world) :
  force opts = false ->
  lookup (fs w) (getTestPath file) <> None ->
  main_file pcwd opts file w = (Returned tt, w).
Proof.
  intros Hforce Hthere. unfold main_file, bind, succeeds, fs_access.
  destruct (lookup (fs w) (getTestPath file)); [|congruence].
  rewrite Hforce. reflexivity.
Qed.

(** Writing over a file that is there and may be written succeeds and
    keeps its permissions. *)
Lemma write_existing_file (comps : list jsstring) (content : jsstring) :
  forall n r old, lookup_comps n comps = Some (File r true old) ->
  exists n', write_comps n comps content = Returned n'
             /\ lookup_comps n' comps = Some (File r true content).
Proof.
  induction comps as [|c comps IH]; intros n r old Hthere.
  - simpl in Hthere. injection Hthere as ->. eexists. split; reflexivity.
  - destruct n as [r' wr' old' | r' wr' entries]; simpl in Hthere; [discriminate|].
    destruct (find_entry c entries) as [child|] eqn:Hfind; [|discriminate].
    destruct (IH _ _ _ Hthere) as (child' & Hw & Hl).
    exists (Dir r' wr' (replace_entry c child' entries)). simpl.
    rewrite Hfind, Hw, find_entry_replace, jseq_refl, Hfind. split; [reflexivity|exact Hl].
Qed.

Lemma main_file_dry_run (pcwd : jsstring) (opts : CliOptions) (file : jsstring)
    (w : world) :
  dryRun opts = true -> fs (snd (main_file pcwd opts file w)) = fs w.
Proof.
  intro Hdry.
  pose proof (main_file_on_fs pcwd opts file w) as Hfs.
  apply (f_equal snd) in Hfs. simpl in Hfs. rewrite Hfs.
  destruct (main_file_fs_cases pcwd opts file (fs w))
    as [Hsame | (content & _ & Hno & _)]; [exact Hsame | congruence].
Qed.



End WholeRun.

(** When every test exists the loop passes over every file. *)
Lemma for_each_skips_all (U : Unicode) (pcwd : jsstring) (opts : CliOptions)
    (files : list jsstring) (w : world) :
  force opts = false ->
  (forall file, In file files -> lookup (fs w) (getTestPath file) <> None) ->
  for_each files (main_file pcwd opts) w = (Returned tt, w).
Proof.
  intros Hforce. induction files as [|f files IH]; intro Hall; [reflexivity|].
  cbn [for_each]. unfold bind.
  rewrite main_file_skips; [| exact Hforce | apply Hall; left; reflexivity].
  apply IH. intros file Hin. apply Hall. right. exact Hin.
Qed.

Section SecondRun.
Context {U : Unicode}.

(** After a loop that ended normally, without [--force] and without
    [--dry-run], the test of every file of the loop exists. *)
Lemma for_each_fs_tests_exist (pcwd : jsstring) (opts : CliOptions)
    (files : list jsstring) (tree : node) :
  force opts = false ->
  dryRun opts = false ->
  fst (for_each_fs files (main_file_fs pcwd opts) tree) = Returned tt ->
  forall file, In file files ->
    lookup (snd (for_each_fs files (main_file_fs pcwd opts) tree))
           (getTestPath file) <> None.
Proof.
  intros Hforce Hdry. revert tree.
  induction files as [|f files IH]; intros tree Hok file Hin; [destruct Hin|].
  cbn [for_each_fs] in *.
  assert (Hstep : fst (main_file_fs pcwd opts f tree) = Returned tt ->
                  lookup (snd (main_file_fs pcwd opts f tree)) (getTestPath f)
                  <> None).
  { unfold main_file_fs, exists_in.
    destruct (lookup tree (getTestPath f)) as [t|] eqn:Ht.
    - rewrite Hforce. simpl. congruence.
    - cbn [andb]. destruct (read_result tree f); [|discriminate].
      rewrite Hdry.
      destruct (write_comps tree (os_path (getTestPath f)) _)
        as [written|e] eqn:Hw; [|discriminate].
      intros _. simpl. unfold lookup.
      apply lookup_write_same in Hw as (r & Hthere). congruence. }
  destruct (main_file_fs pcwd opts f tree) as [[[]|e] tree']; [|discriminate].
  destruct Hin as [<- | Hin].
  - apply for_each_fs_exists. apply Hstep. reflexivity.
  - apply IH; assumption.
Qed.

Lemma run_fs_found (argv : list jsstring) (pcwd : jsstring) (tree : node)
    (rootDir : jsstring) :
  found (run_fs argv pcwd tree) rootDir = found tree rootDir.
Proof.
  unfold run_fs. destruct (List.length _ =? 0); [reflexivity|].
  apply for_each_fs_found.
Qed.

Lemma run_fs_again (argv : list jsstring) (pcwd : jsstring) (tree : node) :
  force (parseArgs argv) = false ->
  run_fs argv pcwd (run_fs argv pcwd tree) = run_fs argv pcwd tree.
Proof.
  intro Hforce. unfold run_fs at 1. rewrite run_fs_found.
  unfold run_fs.
  destruct (List.length _ =? 0) eqn:E; [reflexivity|].
  apply for_each_fs_again. exact Hforce.
Qed.

(** Status 0 means that the loop, if entered, ended normally. *)
Lemma run_exit_0 (argv : list jsstring) (pcwd : jsstring) (w : world) :
  fst (run argv pcwd w) = 0%N ->
  let opts := parseArgs argv in
  let files := found (fs w) (Path.resolve pcwd [pcwd; rootDir opts]) in
  files = []
  \/ fst (for_each_fs files (main_file_fs pcwd opts) (fs w)) = Returned tt.
Proof.
  intros Hexit opts files. unfold run, main, bind, console_log in Hexit.
  rewrite findComponentFiles_found in Hexit. cbn [fs emit] in Hexit.
  fold opts in Hexit. fold files in Hexit.
  destruct files as [|f files'] eqn:Efiles; [left; reflexivity|]. right.
  cbn [List.length Nat.eqb] in Hexit.
  set (w0 := emit _ w) in Hexit.
  pose proof (for_each_on_fs pcwd opts (f :: files') w0) as Hloop.
  unfold on_fs in Hloop. change (fs w0) with (fs w) in Hloop.
  destruct (for_each (f :: files') (main_file pcwd opts) w0) as [[[]|e] w2];
    [|discriminate].
  rewrite <- Hloop. reflexivity.
Qed.

End SecondRun.

(** C5.  Without [--force], a second run on what the first run left
    changes no file.  The second run discovers what the first did, test
    files not being discovered; and when the first run ended normally and
    was not a dry run, the second passes over every file it discovers: it
    ends with status 0 and only prints its first and last lines. *)
Theorem second_run_changes_nothing
    (U : Unicode) (argv : list jsstring) (pcwd : jsstring) (w : world) :
  force (parseArgs argv) = false ->
  let opts := parseArgs argv in
  let absoluteRoot := Path.resolve pcwd [pcwd; rootDir opts] in
  let w1 := snd (run argv pcwd w) in
  fs (snd (run argv pcwd w1)) = fs w1
  /\ found (fs w1) absoluteRoot = found (fs w) absoluteRoot
  /\ (fst (run argv pcwd w) = 0%N ->
      dryRun opts = false ->
      (forall file w', In file (found (fs w1) absoluteRoot) ->
         fs w' = fs w1 ->
         main_file pcwd opts file w' = (Returned tt, w'))
      /\ exists first_line last_line,
           run argv pcwd w1
           = (0%N, emit (ConsoleLog last_line) (emit (ConsoleLog first_line) w1))).
Proof.
  intros Hforce opts absoluteRoot w1.
  assert (Hfs1 : fs w1 = run_fs argv pcwd (fs w)) by apply run_on_fs.
  assert (Hfound : found (fs w1) absoluteRoot = found (fs w) absoluteRoot)
    by (rewrite Hfs1; apply run_fs_found).
  split; [|split].
  - rewrite run_on_fs, Hfs1. apply run_fs_again. exact Hforce.
  - exact Hfound.
  - intros Hexit Hdry.
    assert (Hthere : forall file, In file (found (fs w1) absoluteRoot) ->
                       lookup (fs w1) (getTestPath file) <> None).
    { intros file Hin. rewrite Hfound in Hin. rewrite Hfs1.
      destruct (run_exit_0 argv pcwd w Hexit) as [Hnone | Hok].
      - fold opts absoluteRoot in Hnone. rewrite Hnone in Hin. destruct Hin.
      - unfold run_fs. fold opts absoluteRoot in Hok |- *.
        destruct (found (fs w) absoluteRoot) as [|f files] eqn:Efiles;
          [destruct Hin|].
        cbn [List.length Nat.eqb].
        apply for_each_fs_tests_exist; assumption. }
    split.
    + intros file w' Hin Hw'. apply main_file_skips; [exact Hforce|].
      rewrite Hw'. apply Hthere. exact Hin.
    + unfold run, main, bind, console_log.
      rewrite findComponentFiles_found. cbn [fs emit].
      fold opts absoluteRoot.
      destruct (List.length (found (fs w1) absoluteRoot) =? 0).
      * do 2 eexists. reflexivity.
      * rewrite for_each_skips_all; [do 2 eexists; reflexivity | exact Hforce |].
        intros file Hin. apply Hthere. exact Hin.
Qed.

(** The first run on the project creates the missing test and leaves the
    existing one. *)
Example first_run_creates_missing_test :
  let w1 := snd (@run AsciiCase (node_argv []) (str "/p") project_world) in
  fst (@run AsciiCase (node_argv []) (str "/p") project_world) = 0%N
  /\ lookup (fs project_world) (str "/p/src/Button.test.tsx") = None
  /\ lookup (fs w1) (str "/p/src/Button.test.tsx")
     = Some (File true true
               (createTestTemplate (str "/p/src/Button.tsx")
                  (@exportInfo_of_source AsciiCase (str "/p")
                     (str "/p/src/Button.tsx")
                     (str "export default function Button() { return null; }"))))
  /\ lookup (fs w1) (str "/p/src/Old.test.tsx") = Some (File true true (str "keep me")).
Proof. repeat split; vm_compute; reflexivity. Qed.

Lemma second_run_changes_nothing_witness :
  let w1 := snd (@run AsciiCase (node_argv []) (str "/p") project_world) in
  fs (snd (@run AsciiCase (node_argv []) (str "/p") w1)) = fs w1
  /\ @main_file AsciiCase (str "/p") (parseArgs (node_argv []))
       (str "/p/src/Button.tsx") w1
     = (Returned tt, w1).
Proof.
  pose proof (@second_run_changes_nothing AsciiCase (node_argv []) (str "/p")
                project_world eq_refl) as (Hsame & _ & Hskip).
  split; [exact Hsame|].
  destruct (Hskip eq_refl eq_refl) as (Hfile & _).
  apply Hfile; [|reflexivity].
  vm_compute. right. left. reflexivity.
Defined.

(** * Further properties of the program *)

(** ** [parseArgs] *)

Lemma parseArgs_arg_flags (o : CliOptions) (arg : jsstring) :
  dryRun (parseArgs_arg o arg) = dryRun o || jseq arg (str "--dry-run")
  /\ force (parseArgs_arg o arg) = force o || jseq arg (str "--force").
Proof.
  unfold parseArgs_arg.
  destruct (jseq arg (str "--dry-run")) eqn:E1.
  - apply jseq_true in E1. subst arg. cbn [dryRun force].
    rewrite orb_true_r. change (jseq (str "--dry-run") (str "--force")) with false.
    rewrite orb_false_r. split; reflexivity.
  - destruct (jseq arg (str "--force")).
    + cbn [dryRun force]. rewrite orb_true_r, orb_false_r. split; reflexivity.
    + destruct (negb (startsWith arg (str "-"))); cbn [dryRun force];
        rewrite !orb_false_r; split; reflexivity.
Qed.

Lemma fold_parseArgs_flags (args : list jsstring) (o : CliOptions) :
  dryRun (fold_left parseArgs_arg args o)
  = dryRun o || existsb (fun a => jseq a (str "--dry-run")) args
  /\ force (fold_left parseArgs_arg args o)
     = force o || existsb (fun a => jseq a (str "--force")) args.
Proof.
  revert o. induction args as [|arg args IH]; intro o; cbn [fold_left existsb].
  - rewrite !orb_false_r. split; reflexivity.
  - destruct (IH (parseArgs_arg o arg)) as [-> ->].
    destruct (parseArgs_arg_flags o arg) as [-> ->].
    rewrite !orb_assoc. split; reflexivity.
Qed.

(** X1.  [dryRun] is set exactly when [--dry-run] is among the arguments
    after the first two entries of [process.argv], and [force] exactly when
    [--force] is: the position of a flag, its repetition and the other
    tokens do not matter. *)
Theorem parseArgs_flags (argv : list jsstring) :
  dryRun (parseArgs argv)
  = existsb (fun a => jseq a (str "--dry-run")) (skipn 2 argv)
  /\ force (parseArgs argv)
     = existsb (fun a => jseq a (str "--force")) (skipn 2 argv).
Proof.
  unfold parseArgs. apply fold_parseArgs_flags.
Qed.

Lemma fold_parseArgs_filter (args : list jsstring) (o : CliOptions) :
  fold_left parseArgs_arg (filter known_token args) o
  = fold_left parseArgs_arg args o.
Proof.
  revert o. induction args as [|arg args IH]; intro o; [reflexivity|].
  cbn [filter]. destruct (known_token arg) eqn:E.
  - cbn [fold_left]. apply IH.
  - cbn [fold_left]. rewrite IH. f_equal.
    unfold known_token, is_flag in E. unfold parseArgs_arg.
    destruct (jseq arg (str "--dry-run")); [discriminate|].
    destruct (jseq arg (str "--force")); [discriminate|].
    cbn [orb] in E. rewrite E. reflexivity.
Qed.

(** X2.  The first two entries of [process.argv] are not read, and a token
    that starts with a dash and is neither [--dry-run] nor [--force] is
    ignored: the options are those of the command line without such
    tokens. *)
Theorem parseArgs_ignores_unknown_flags
    (node script node' script' : jsstring) (args : list jsstring) :
  parseArgs (node :: script :: args)
  = parseArgs (node' :: script' :: filter known_token args).
Proof.
  unfold parseArgs. cbn [skipn]. symmetry. apply fold_parseArgs_filter.
Qed.

(** X3.  When every argument starts with a dash the root directory is the
    default [src]; for a [process.argv] of at most two entries all three
    options have their defaults. *)
Theorem parseArgs_defaults (argv : list jsstring) :
  (forallb is_flag (skipn 2 argv) = true -> rootDir (parseArgs argv) = str "src")
  /\ (List.length argv <= 2 ->
      parseArgs argv = {| rootDir := str "src"; dryRun := false; force := false |}).
Proof.
  split.
  - intro Hall. unfold parseArgs. rewrite fold_parseArgs_rootDir.
    induction (skipn 2 argv) as [|a l IH]; cbn [forallb filter] in *;
      [reflexivity|].
    apply andb_true_iff in Hall as [Ha Hl]. rewrite Ha. cbn [negb]. auto.
  - intro Hlen. unfold parseArgs.
    destruct argv as [|a [|b [|c argv]]]; simpl in *; try reflexivity. lia.
Qed.

Lemma parseArgs_defaults_witness :
  rootDir (parseArgs (node_argv [str "--force"; str "-v"; str "--dry-run"]))
  = str "src"
  /\ parseArgs [str "node"]
     = {| rootDir := str "src"; dryRun := false; force := false |}.
Proof.
  split.
  - apply (proj1 (parseArgs_defaults
                    (node_argv [str "--force"; str "-v"; str "--dry-run"]))).
    reflexivity.
  - apply (proj2 (parseArgs_defaults [str "node"])). simpl. lia.
Defined.

(** ** [getTestPath] *)

Lemma filter_nonempty_plain (comps : list jsstring) :
  Forall plain comps ->
  filter (fun seg => negb (Path.isEmpty seg)) comps = comps.
Proof.
  induction 1 as [|c comps (Hne & _) _ IH]; [reflexivity|].
  cbn [filter]. destruct c; [congruence|]. cbn [Path.isEmpty negb].
  rewrite IH. reflexivity.
Qed.

(** The kernel follows an absolute path in normal form along its
    components. *)
Lemma os_path_absolute (comps : list jsstring) :
  Forall plain comps -> os_path (absolute_path comps) = comps.
Proof.
  intro Hcomps. unfold os_path, absolute_path.
  change (Path.split_slash (Path.slash :: Path.join_slash comps))
    with ([] :: Path.split_slash (Path.join_slash comps)).
  cbn [filter Path.isEmpty negb].
  destruct comps as [|c comps]; [reflexivity|].
  rewrite split_join_slash; [| discriminate | apply plain_free; exact Hcomps].
  apply filter_nonempty_plain. exact Hcomps.
Qed.

(** X4.  For a component [stem.tsx] in a directory given by an absolute
    path in normal form, the test path is [stem.test.tsx] in the same
    directory; it differs from the path of the component. *)
Theorem test_path_beside_component (comps : list jsstring) (stem : jsstring) :
  Forall plain comps -> plain (component_name stem) -> stem <> [] ->
  let filePath := absolute_path (comps ++ [component_name stem]) in
  getTestPath filePath = absolute_path (comps ++ [stem ++ str ".test.tsx"])
  /\ Path.dirname (getTestPath filePath) = Path.dirname filePath
  /\ getTestPath filePath <> filePath.
Proof.
  intros Hcomps Hname Hstem filePath. unfold filePath.
  rewrite getTestPath_sibling by assumption.
  assert (Htest : plain (stem ++ str ".test.tsx"))
    by (apply plain_test_name; exact Hname).
  split; [reflexivity|]. split.
  - rewrite !dirname_absolute by assumption. reflexivity.
  - intro E. apply (f_equal os_path) in E.
    rewrite !os_path_absolute in E
      by (apply Forall_app; split; [assumption | constructor; [assumption | constructor]]).
    apply app_inv_head in E. injection E as E.
    unfold component_name in E. apply app_inv_head in E. discriminate.
Qed.

Lemma test_path_beside_component_witness :
  getTestPath (absolute_path [str "p"; str "src"; component_name (str "Nav.bar")])
  = str "/p/src/Nav.bar.test.tsx".
Proof.
  refine (proj1 (@test_path_beside_component [str "p"; str "src"] (str "Nav.bar")
                   _ _ _)).
  - repeat constructor; discriminate.
  - repeat split; discriminate.
  - discriminate.
Defined.

(** X5.  Two different components in normal form have different test
    paths: no test file is generated for two components. *)
Theorem test_paths_do_not_collide
    (comps1 comps2 : list jsstring) (stem1 stem2 : jsstring) :
  Forall plain comps1 -> plain (component_name stem1) -> stem1 <> [] ->
  Forall plain comps2 -> plain (component_name stem2) -> stem2 <> [] ->
  absolute_path (comps1 ++ [component_name stem1])
  <> absolute_path (comps2 ++ [component_name stem2]) ->
  getTestPath (absolute_path (comps1 ++ [component_name stem1]))
  <> getTestPath (absolute_path (comps2 ++ [component_name stem2])).
Proof.
  intros Hc1 Hn1 Hs1 Hc2 Hn2 Hs2 Hdiff E. apply Hdiff.
  rewrite !getTestPath_sibling in E by assumption.
  apply (f_equal os_path) in E.
  rewrite !os_path_absolute in E
    by (apply Forall_app; split;
        [assumption | constructor; [apply plain_test_name; assumption | constructor]]).
  apply app_inj_tail in E as [-> E].
  apply app_inv_tail in E. subst. reflexivity.
Qed.

Lemma test_paths_do_not_collide_witness :
  jseq (getTestPath (absolute_path ([str "p"] ++ [component_name (str "A")])))
       (getTestPath (absolute_path ([str "p"; str "ui"] ++ [component_name (str "A")])))
  = false.
Proof.
  apply jseq_false.
  apply (@test_paths_do_not_collide [str "p"] [str "p"; str "ui"] (str "A") (str "A"));
    try discriminate;
    try (repeat constructor; discriminate);
    repeat split; discriminate.
Defined.

(** ** The paths that discovery returns *)

Lemma In_entries_plain (name : jsstring) (child : node) (entries : dirents) :
  plain_entries entries -> In_entries name child entries ->
  plain name /\ plain_names child.
Proof.
  induction entries as [|name' child' rest IH] using dirents_list_ind;
    [intros _ []|].
  intros (Hname & Hchild & Hrest) [[-> ->] | Hin].
  - split; assumption.
  - apply IH; assumption.
Qed.

Lemma reaches_plain (n : node) (ds : list jsstring) (name : jsstring) :
  reaches n ds name -> plain_names n -> Forall plain ds /\ plain name.
Proof.
  induction 1 as [wr entries name child Hin Hfile
                 | wr entries d child ds name Hin Hdir Hsub IH]; intro Hplain.
  - split; [constructor|]. apply (In_entries_plain _ _ _ Hplain Hin).
  - destruct (In_entries_plain _ _ _ Hplain Hin) as [Hd Hchild].
    destruct (IH Hchild) as [Hds Hname]. split; [constructor|]; assumption.
Qed.

Lemma split_last_dot_spec (seg_rev after_rev before_rev : jsstring) :
  Path.split_last_dot seg_rev = Some (after_rev, before_rev) ->
  seg_rev = after_rev ++ Path.dot :: before_rev.
Proof.
  revert after_rev. induction seg_rev as [|c r IH]; intros after_rev H;
    [discriminate|].
  simpl in H. destruct (N.eqb c Path.dot) eqn:Ec.
  - injection H as <- <-. apply N.eqb_eq in Ec. subst c. reflexivity.
  - destruct (Path.split_last_dot r) as [[a b]|]; [|discriminate].
    injection H as <- <-. rewrite (IH a eq_refl). reflexivity.
Qed.

(** A name whose extension is [.tsx] is a stem that is not empty, and
    [.tsx]. *)
Lemma extname_tsx_inv (name : jsstring) :
  plain name -> Path.extname name = str ".tsx" ->
  exists stem, name = component_name stem /\ stem <> [].
Proof.
  intros Hname Hext. unfold Path.extname in Hext.
  rewrite <- (app_nil_r (rev name)) in Hext.
  rewrite skip_slashes_plain in Hext by exact Hname.
  rewrite app_nil_r, take_segment_free_end in Hext
    by (apply plain_rev_free; exact Hname).
  cbn [fst] in Hext.
  destruct (Path.split_last_dot (rev name)) as [[a b]|] eqn:Hsplit;
    [|discriminate].
  apply split_last_dot_spec in Hsplit.
  destruct b as [|b0 b]; [discriminate|]. cbn [Path.isEmpty] in Hext.
  destruct (forallb (N.eqb Path.dot) (b0 :: b) && Path.isEmpty a
            && (List.length (b0 :: b) =? 1)); [discriminate|].
  injection Hext as Ha.
  exists (rev (b0 :: b)). split.
  - apply (f_equal (@rev N)) in Hsplit. rewrite rev_involutive in Hsplit.
    rewrite Hsplit, rev_app_distr. cbn [rev]. rewrite <- app_assoc.
    unfold component_name. f_equal. cbn [app]. rewrite Ha. reflexivity.
  - intro E. apply (f_equal (@rev N)) in E. rewrite rev_involutive in E.
    discriminate.
Qed.

(** X6.  When the root is an absolute path in normal form and the entries
    have names that [readdir] can return, every path that discovery returns
    is the root followed by the names of the directories walked through and
    a file name [stem.tsx] with a non-empty stem, separated by slashes; its
    test path is [stem.test.tsx] in the same directory. *)
Theorem discovered_paths_normal_form
    (comps : list jsstring) (n : node) (p : jsstring) :
  Forall plain comps ->
  plain_names n ->
  In p (walk (absolute_path comps) n []) ->
  exists ds stem,
    reaches n ds (component_name stem)
    /\ stem <> []
    /\ p = absolute_path (comps ++ ds ++ [component_name stem])
    /\ getTestPath p = absolute_path (comps ++ ds ++ [stem ++ str ".test.tsx"]).
Proof.
  intros Hcomps Hplain Hin.
  apply (proj1 walk_selected) in Hin.
  destruct Hin as (ds & name & Hreach & _ & _ & Hext & ->).
  destruct (reaches_plain Hreach Hplain) as [Hds Hname].
  apply includes_In in Hext. destruct Hext as [Hext | []].
  destruct (extname_tsx_inv Hname (eq_sym Hext)) as (stem & -> & Hstem).
  exists ds, stem.
  assert (Hall : Forall plain (comps ++ ds))
    by (apply Forall_app; split; assumption).
  assert (Hnames : Forall plain (ds ++ [component_name stem]))
    by (apply Forall_app; split; [assumption | constructor; [assumption | constructor]]).
  rewrite path_below_absolute by assumption.
  repeat split; try assumption.
  rewrite !app_assoc. apply getTestPath_sibling; assumption.
Qed.

Lemma discovered_paths_normal_form_witness :
  exists ds stem,
    reaches noisy_tree ds (component_name stem)
    /\ stem <> []
    /\ str "/p/src/ui/Card.tsx"
       = absolute_path ([str "p"; str "src"] ++ ds ++ [component_name stem])
    /\ getTestPath (str "/p/src/ui/Card.tsx")
       = absolute_path ([str "p"; str "src"] ++ ds ++ [stem ++ str ".test.tsx"]).
Proof.
  apply (@discovered_paths_normal_form [str "p"; str "src"] noisy_tree).
  - repeat constructor; discriminate.
  - simpl. repeat split; discriminate.
  - vm_compute. right. left. reflexivity.
Defined.

Lemma walk_entries_components
    (comps : list jsstring) (entries : dirents) (p : jsstring) :
  Forall plain comps -> plain_entries entries ->
  In p (walk_entries (absolute_path comps) entries []) ->
  exists name child tail,
    In_entries name child entries /\ os_path p = comps ++ name :: tail.
Proof.
  intros Hcomps Hplain Hin.
  apply (proj2 walk_selected) in Hin.
  destruct Hin as (name & child & Hentry & Hcase).
  destruct (In_entries_plain _ _ _ Hplain Hentry) as [Hname Hchild].
  assert (Hdir : Forall plain (comps ++ [name]))
    by (apply Forall_app; split; [assumption | constructor; [assumption | constructor]]).
  exists name, child.
  destruct Hcase as [(_ & _ & _ & ->) | (_ & _ & ds & nm & Hreach & _ & _ & _ & ->)].
  - exists []. split; [exact Hentry|].
    rewrite join_absolute, os_path_absolute by assumption. reflexivity.
  - destruct (reaches_plain Hreach Hchild) as [Hds Hnm].
    assert (Hnames : Forall plain (ds ++ [nm]))
      by (apply Forall_app; split; [assumption | constructor; [assumption | constructor]]).
    exists (ds ++ [nm]). split; [exact Hentry|].
    assert (Hall : Forall plain ((comps ++ [name]) ++ ds ++ [nm]))
      by (apply Forall_app; split; assumption).
    rewrite join_absolute, path_below_absolute, os_path_absolute by assumption.
    rewrite <- app_assoc. reflexivity.
Qed.

Lemma In_entries_find_none (name name' : jsstring) (child : node) (rest : dirents) :
  find_entry name rest = None -> In_entries name' child rest -> name' <> name.
Proof.
  induction rest as [|n c r IH] using dirents_list_ind; [intros _ []|].
  simpl. destruct (jseq name n) eqn:E; [discriminate|].
  intros Hnone [[-> ->] | Hin].
  - apply jseq_false in E. congruence.
  - apply IH; assumption.
Qed.

Lemma walk_no_duplicates :
  (forall n comps, Forall plain comps -> plain_names n -> distinct_names n ->
     NoDup (walk (absolute_path comps) n []))
  /\ (forall entries comps, Forall plain comps -> plain_entries entries ->
        distinct_entries entries ->
        NoDup (walk_entries (absolute_path comps) entries [])).
Proof.
  apply node_mutind.
  - intros r wr c comps _ _ _. constructor.
  - intros [|] wr entries IH comps Hcomps Hplain Hdistinct; cbn [walk].
    + apply IH; assumption.
    + constructor.
  - intros comps _ _ _. constructor.
  - intros name child IHchild rest IHrest comps Hcomps
      (Hname & Hpchild & Hprest) (Hfresh & Hdchild & Hdrest).
    assert (Hdir : Forall plain (comps ++ [name]))
      by (apply Forall_app; split; [assumption | constructor; [assumption | constructor]]).
    assert (Hone : plain_entries (DCons name child DNil))
      by exact (conj Hname (conj Hpchild I)).
    pose proof (@walk_entries_components comps (DCons name child DNil)) as Hfirst.
    cbn [walk_entries] in Hfirst |- *.
    rewrite (proj2 walk_results_prefix).
    apply NoDup_app.
    + destruct (isDirectory child).
      * destruct (includes EXCLUDED_DIRS name); [constructor|].
        rewrite join_absolute by assumption. apply IHchild; assumption.
      * destruct (excluded_file name); [constructor|].
        destruct (includes COMPONENT_EXTENSIONS (Path.extname name));
          repeat constructor. intros [].
    + apply IHrest; assumption.
    + intros p Hp Hq.
      destruct (Hfirst p Hcomps Hone Hp) as (n1 & c1 & t1 & Hin1 & Hp1).
      destruct (@walk_entries_components comps rest p Hcomps Hprest Hq)
        as (n2 & c2 & t2 & Hin2 & Hp2).
      destruct Hin1 as [[-> ->] | []].
      rewrite Hp1 in Hp2. apply app_inv_head in Hp2. injection Hp2 as Hn _.
      apply (@In_entries_find_none name n2 c2 rest Hfresh Hin2).
      symmetry. exact Hn.
Qed.

(** X7.  When the root is an absolute path in normal form, the entries have
    names that [readdir] can return and no directory lists a name twice,
    discovery returns no path twice: every component is processed once. *)
Theorem discovery_has_no_duplicates (comps : list jsstring) (n : node) :
  Forall plain comps -> plain_names n -> distinct_names n ->
  NoDup (walk (absolute_path comps) n []).
Proof. apply (proj1 walk_no_duplicates). Qed.

Lemma discovery_has_no_duplicates_witness :
  NoDup (walk (absolute_path [str "p"; str "src"]) noisy_tree []).
Proof.
  apply discovery_has_no_duplicates.
  - repeat constructor; discriminate.
  - simpl. repeat split; discriminate.
  - simpl. repeat split; reflexivity.
Defined.

(** ** What a run leaves alone *)

Lemma for_each_fs_keeps_other_files
    (U : Unicode) (pcwd : jsstring) (opts : CliOptions)
    (files : list jsstring) (tree : node) (p : jsstring) (r wr : bool) (old : jsstring) :
  names_test_file (os_path p) = false ->
  lookup tree p = Some (File r wr old) ->
  lookup (snd (for_each_fs files (main_file_fs pcwd opts) tree)) p
  = Some (File r wr old).
Proof.
  intro Hname. revert tree. induction files as [|file files IH]; intros tree Hp;
    [exact Hp|].
  cbn [for_each_fs].
  destruct (main_file_fs_cases pcwd opts file tree)
    as [Hsame | (content & Hok & _ & _ & Hw)].
  - destruct (main_file_fs pcwd opts file tree) as [[[]|e] tree'];
      simpl in Hsame; subst tree'; [apply IH|]; exact Hp.
  - destruct (main_file_fs pcwd opts file tree) as [[[]|e] tree'];
      simpl in Hok, Hw; [|discriminate].
    apply IH. unfold lookup in *.
    eapply lookup_write_other; [exact Hw | | exact Hp].
    intro Heq. rewrite Heq, getTestPath_names_test_file in Hname. discriminate.
Qed.

(** X8.  Whatever the options, [--force] included, a run changes no file
    whose name does not end with [.test.tsx]: the sources of the components
    and every other file keep their permission and text. *)
Theorem run_changes_test_files_only
    (U : Unicode) (argv : list jsstring) (pcwd : jsstring) (w : world)
    (p : jsstring) (r wr : bool) (old : jsstring) :
  names_test_file (os_path p) = false ->
  lookup (fs w) p = Some (File r wr old) ->
  lookup (fs (snd (run argv pcwd w))) p = Some (File r wr old).
Proof.
  intros Hname Hp. rewrite run_on_fs. unfold run_fs.
  destruct (List.length _ =? 0); [exact Hp|].
  apply for_each_fs_keeps_other_files; assumption.
Qed.

Lemma run_changes_test_files_only_witness :
  lookup (fs (snd (@run AsciiCase (node_argv [str "--force"]) (str "/p")
                     project_world)))
         (str "/p/src/Old.tsx")
  = Some (File true true (str "export function Old() {}")).
Proof.
  apply (@run_changes_test_files_only AsciiCase (node_argv [str "--force"])
           (str "/p") project_world).
  - vm_compute. reflexivity.
  - vm_compute. reflexivity.
Defined.

Lemma for_each_fs_keeps_kinds
    (U : Unicode) (pcwd : jsstring) (opts : CliOptions)
    (files : list jsstring) (tree : node) (p : jsstring) (m : node) :
  lookup tree p = Some m ->
  exists m',
    lookup (snd (for_each_fs files (main_file_fs pcwd opts) tree)) p = Some m'
    /\ isDirectory m' = isDirectory m.
Proof.
  revert tree m. induction files as [|file files IH]; intros tree m Hp.
  - exists m. split; [exact Hp | reflexivity].
  - cbn [for_each_fs].
    destruct (main_file_fs_cases pcwd opts file tree)
      as [Hsame | (content & Hok & _ & _ & Hw)].
    + destruct (main_file_fs pcwd opts file tree) as [[[]|e] tree'];
        simpl in Hsame; subst tree'.
      * apply IH. exact Hp.
      * exists m. split; [exact Hp | reflexivity].
    + destruct (main_file_fs pcwd opts file tree) as [[[]|e] tree'];
        simpl in Hok, Hw; [|discriminate].
      unfold lookup in Hp.
      destruct (lookup_write_kind _ _ _ _ Hw Hp) as (m1 & Hm1 & Hk1).
      destruct (IH tree' m1 Hm1) as (m' & Hm' & Hk').
      exists m'. split; [exact Hm' | congruence].
Qed.

(** X9.  A run deletes and renames nothing: whatever the options, every
    path that names a file or a directory before the run names a file,
    respectively a directory, after it. *)
Theorem run_removes_nothing
    (U : Unicode) (argv : list jsstring) (pcwd : jsstring) (w : world)
    (p : jsstring) (m : node) :
  lookup (fs w) p = Some m ->
  exists m',
    lookup (fs (snd (run argv pcwd w))) p = Some m'
    /\ isDirectory m' = isDirectory m.
Proof.
  intro Hp. rewrite run_on_fs. unfold run_fs.
  destruct (List.length _ =? 0).
  - exists m. split; [exact Hp | reflexivity].
  - apply for_each_fs_keeps_kinds. exact Hp.
Qed.

Lemma run_removes_nothing_witness :
  exists m',
    lookup (fs (snd (@run AsciiCase (node_argv [str "--force"]) (str "/p")
                       project_world)))
           (str "/p/src/Old.test.tsx") = Some m'
    /\ isDirectory m' = isDirectory (File true true (str "keep me")).
Proof.
  apply (@run_removes_nothing AsciiCase (node_argv [str "--force"]) (str "/p")
           project_world).
  vm_compute. reflexivity.
Defined.

(** ** What a run does *)

Lemma event_allowed_more (opts : CliOptions) (files files' : list jsstring)
    (e : event) :
  (forall f, In f files -> In f files') ->
  event_allowed opts files e -> event_allowed opts files' e.
Proof.
  intros Hsub. destruct e; simpl; auto.
  intros (Hdry & file & Hin & ->). split; [exact Hdry|].
  exists file. split; [apply Hsub; exact Hin | reflexivity].
Qed.

Lemma main_file_trace (U : Unicode) (pcwd : jsstring) (opts : CliOptions)
    (file : jsstring) (w : world) :
  exists evs,
    trace (snd (main_file pcwd opts file w)) = trace w ++ evs
    /\ Forall (event_allowed opts [file]) evs.
Proof.
  unfold main_file, bind, succeeds, fs_access.
  set (testExists := match lookup (fs w) (getTestPath file) with
                     | Some _ => true | None => false end).
  assert (Hacc : (match lookup (fs w) (getTestPath file) with
                  | Some _ => (Returned tt, w)
                  | None => (Thrown ENOENT, w)
                  end)
                 = (if testExists then Returned tt else Thrown ENOENT, w))
    by (unfold testExists; destruct (lookup (fs w) (getTestPath file)); reflexivity).
  rewrite Hacc. clear Hacc.
  assert (Hbody : forall b : bool,
    exists evs,
      trace (snd ((if b && negb (force opts) then ret tt
                   else bind (inferExportInfo pcwd file) (fun exportInfo =>
                     let template := createTestTemplate file exportInfo in
                     if dryRun opts
                     then console_log (str "[DRY RUN] Would create: "
                                       ++ getTestPath file)
                     else bind (fs_writeFile (getTestPath file) template)
                            (fun _ => console_log
                               ((if b then str "Overwrote" else str "Created")
                                ++ str ": "
                                ++ Path.relative pcwd pcwd (getTestPath file)))))
                  w))
      = trace w ++ evs
      /\ Forall (event_allowed opts [file]) evs).
  { intro b. destruct (b && negb (force opts)).
    - exists []. split; [symmetry; apply app_nil_r | constructor].
    - unfold inferExportInfo, bind, fs_readFile, ret.
      assert (Hread : event_allowed opts [file] (ReadFile file))
        by (left; reflexivity).
      destruct (lookup (fs w) file) as [[[|] wr src | r wr es]|];
        try (exists [ReadFile file]; split;
             [reflexivity | constructor; [exact Hread | constructor]]).
      destruct (dryRun opts) eqn:Hdry.
      + unfold console_log. cbn [snd trace emit].
        exists [ReadFile file;
                ConsoleLog (str "[DRY RUN] Would create: " ++ getTestPath file)].
        split; [rewrite <- app_assoc; reflexivity|].
        constructor; [exact Hread|]. constructor; [exact I | constructor].
      + unfold fs_writeFile, console_log. cbn [fs emit trace].
        assert (Hwrite : forall c, event_allowed opts [file]
                                     (WriteFile (getTestPath file) c)).
        { intro c. split; [exact Hdry|]. exists file.
          split; [left; reflexivity | reflexivity]. }
        destruct (write_comps (fs w) (os_path (getTestPath file)) _);
          cbn [snd trace emit].
        * exists [ReadFile file; WriteFile (getTestPath file)
                    (createTestTemplate file
                       (exportInfo_of_source pcwd file src));
                  ConsoleLog ((if b then str "Overwrote" else str "Created")
                              ++ str ": "
                              ++ Path.relative pcwd pcwd (getTestPath file))].
          split; [rewrite <- !app_assoc; reflexivity|].
          constructor; [exact Hread|]. constructor; [apply Hwrite|].
          constructor; [exact I | constructor].
        * exists [ReadFile file; WriteFile (getTestPath file)
                    (createTestTemplate file
                       (exportInfo_of_source pcwd file src))].
          split; [rewrite <- !app_assoc; reflexivity|].
          constructor; [exact Hread|]. constructor; [apply Hwrite | constructor]. }
  destruct testExists; apply Hbody.
Qed.

Lemma for_each_trace (U : Unicode) (pcwd : jsstring) (opts : CliOptions)
    (files : list jsstring) (w : world) :
  exists evs,
    trace (snd (for_each files (main_file pcwd opts) w)) = trace w ++ evs
    /\ Forall (event_allowed opts files) evs.
Proof.
  revert w. induction files as [|file files IH]; intro w.
  - exists []. split; [symmetry; apply app_nil_r | constructor].
  - cbn [for_each]. unfold bind.
    destruct (main_file_trace U pcwd opts file w) as (evs1 & Ht1 & Hok1).
    assert (Hok1' : Forall (event_allowed opts (file :: files)) evs1).
    { eapply Forall_impl; [|exact Hok1]. intros e. apply event_allowed_more.
      intros f [<- | []]. left. reflexivity. }
    destruct (main_file pcwd opts file w) as [[[]|e] w1]; simpl in Ht1.
    + destruct (IH w1) as (evs2 & Ht2 & Hok2).
      exists (evs1 ++ evs2). split.
      * rewrite Ht2, Ht1, app_assoc. reflexivity.
      * apply Forall_app. split; [exact Hok1'|].
        eapply Forall_impl; [|exact Hok2]. intros e. apply event_allowed_more.
        intros f Hf. right. exact Hf.
    + exists evs1. split; [exact Ht1 | exact Hok1'].
Qed.

(** X10.  A run adds to the trace only what concerns the files it has
    discovered: it reads no other file, it writes nothing but test paths of
    discovered files, and under [--dry-run] it does not call [writeFile]
    at all. *)
Theorem run_reads_and_writes_discovered_only
    (U : Unicode) (argv : list jsstring) (pcwd : jsstring) (w : world) :
  let opts := parseArgs argv in
  let files := found (fs w) (Path.resolve pcwd [pcwd; rootDir opts]) in
  exists evs,
    trace (snd (run argv pcwd w)) = trace w ++ evs
    /\ Forall (event_allowed opts files) evs.
Proof.
  intros opts files. unfold run, main, bind, console_log.
  rewrite findComponentFiles_found. cbn [fs emit]. fold opts. fold files.
  set (scan := ConsoleLog (str "react-testgen: scanning " ++ [dquote]
                           ++ Path.resolve pcwd [pcwd; rootDir opts] ++ [dquote])).
  set (w0 := emit scan w).
  assert (Hw0 : trace w0 = trace w ++ [scan]) by reflexivity.
  destruct (List.length files =? 0).
  - unfold w0. cbn [snd trace emit].
    exists [scan; ConsoleLog (str "No component files found.")].
    split; [rewrite <- app_assoc; reflexivity|].
    constructor; [exact I|]. constructor; [exact I | constructor].
  - destruct (for_each_trace U pcwd opts files w0) as (evs & Ht & Hok).
    destruct (for_each files (main_file pcwd opts) w0) as [[[]|e] w1];
      simpl in Ht; cbn [snd trace emit]; rewrite Ht.
    + exists ([scan] ++ evs ++ [ConsoleLog (str "react-testgen: done.")]).
      split; [rewrite <- !app_assoc; reflexivity|].
      apply Forall_app. split; [constructor; [exact I | constructor]|].
      apply Forall_app. split; [exact Hok|].
      constructor; [exact I | constructor].
    + exists ([scan] ++ evs ++ [ConsoleError (str "react-testgen: error");
                                ConsoleErrorValue e]).
      split; [rewrite <- !app_assoc; reflexivity|].
      apply Forall_app. split; [constructor; [exact I | constructor]|].
      apply Forall_app. split; [exact Hok|].
      constructor; [exact I|]. constructor; [exact I | constructor].
Qed.

(** After a loop that ended normally and was not a dry run, the test of
    every file of the loop exists, with or without [--force]. *)
Lemma for_each_fs_all_tests_exist (U : Unicode) (pcwd : jsstring) (opts : CliOptions)
    (files : list jsstring) (tree : node) :
  dryRun opts = false ->
  fst (for_each_fs files (main_file_fs pcwd opts) tree) = Returned tt ->
  forall file, In file files ->
    lookup (snd (for_each_fs files (main_file_fs pcwd opts) tree))
           (getTestPath file) <> None.
Proof.
  intros Hdry. revert tree.
  induction files as [|f files IH]; intros tree Hok file Hin; [destruct Hin|].
  cbn [for_each_fs] in *.
  assert (Hstep : fst (main_file_fs pcwd opts f tree) = Returned tt ->
                  lookup (snd (main_file_fs pcwd opts f tree)) (getTestPath f)
                  <> None).
  { unfold main_file_fs, exists_in.
    destruct (lookup tree (getTestPath f)) as [t|] eqn:Ht.
    - destruct (force opts); cbn [andb negb].
      + destruct (read_result tree f); [|discriminate]. rewrite Hdry.
        destruct (write_comps tree (os_path (getTestPath f)) _)
          as [written|e] eqn:Hw; [|discriminate].
        intros _. simpl. unfold lookup.
        apply lookup_write_same in Hw as (r & Hthere). congruence.
      + simpl. congruence.
    - cbn [andb]. destruct (read_result tree f); [|discriminate].
      rewrite Hdry.
      destruct (write_comps tree (os_path (getTestPath f)) _)
        as [written|e] eqn:Hw; [|discriminate].
      intros _. simpl. unfold lookup.
      apply lookup_write_same in Hw as (r & Hthere). congruence. }
  destruct (main_file_fs pcwd opts f tree) as [[[]|e] tree']; [|discriminate].
  destruct Hin as [<- | Hin].
  - apply for_each_fs_exists. apply Hstep. reflexivity.
  - apply IH; assumption.
Qed.

(** The loop makes no directory. *)
Lemma for_each_fs_no_new_dir
    (U : Unicode) (pcwd : jsstring) (opts : CliOptions)
    (files : list jsstring) (p : jsstring) :
  forall tree,
  (forall m, lookup tree p = Some m -> isDirectory m = false) ->
  forall m',
    lookup (snd (for_each_fs files (main_file_fs pcwd opts) tree)) p = Some m' ->
    isDirectory m' = false.
Proof.
  induction files as [|f files IH]; intros tree Hbefore m' Hafter;
    [apply Hbefore; exact Hafter|].
  cbn [for_each_fs] in Hafter.
  assert (Hstep : forall m,
            lookup (snd (main_file_fs pcwd opts f tree)) p = Some m ->
            isDirectory m = false).
  { intros m.
    destruct (main_file_fs_cases pcwd opts f tree)
      as [-> | (content & _ & _ & _ & Hw)]; [apply Hbefore|].
    unfold lookup. apply (@lookup_write_no_new_dir _ _ _ _ _ m Hw).
    exact Hbefore. }
  destruct (main_file_fs pcwd opts f tree) as [[[]|e] tree'];
    cbn [snd] in Hstep, Hafter.
  - apply (IH tree' Hstep m' Hafter).
  - apply Hstep. exact Hafter.
Qed.

(** X11.  After a run that ended with status 0 and was not a dry run, with
    or without [--force], every component that was discovered and whose
    test path did not name a directory before the run has a file at its
    test path. *)
Theorem run_leaves_a_test_for_every_component
    (U : Unicode) (argv : list jsstring) (pcwd : jsstring) (w : world)
    (file : jsstring) :
  dryRun (parseArgs argv) = false ->
  fst (run argv pcwd w) = 0%N ->
  In file (found (fs w) (Path.resolve pcwd [pcwd; rootDir (parseArgs argv)])) ->
  (forall m, lookup (fs w) (getTestPath file) = Some m -> isDirectory m = false) ->
  exists r wr content,
    lookup (fs (snd (run argv pcwd w))) (getTestPath file)
    = Some (File r wr content).
Proof.
  intros Hdry Hexit Hin Hnodir. rewrite run_on_fs. unfold run_fs.
  destruct (run_exit_0 argv pcwd w Hexit) as [Hnone | Hok];
    [rewrite Hnone in Hin; destruct Hin|].
  destruct (found (fs w) _) as [|f files] eqn:Efiles; [destruct Hin|].
  cbn [List.length Nat.eqb].
  pose proof (@for_each_fs_all_tests_exist U pcwd (parseArgs argv) (f :: files)
                (fs w) Hdry Hok file Hin) as Hthere.
  pose proof (@for_each_fs_no_new_dir U pcwd (parseArgs argv) (f :: files)
                (getTestPath file) (fs w) Hnodir) as Hkind.
  destruct (lookup (snd (for_each_fs (f :: files)
                           (main_file_fs pcwd (parseArgs argv)) (fs w)))
              (getTestPath file)) as [[r wr content | r wr entries]|];
    [exists r, wr, content; reflexivity | | congruence].
  specialize (Hkind _ eq_refl). discriminate.
Qed.

Lemma run_leaves_a_test_for_every_component_witness :
  exists r wr content,
    lookup (fs (snd (@run AsciiCase (node_argv [str "--force"]) (str "/p")
                       project_world)))
           (getTestPath (str "/p/src/Button.tsx"))
    = Some (File r wr content).
Proof.
  apply (@run_leaves_a_test_for_every_component AsciiCase
           (node_argv [str "--force"]) (str "/p") project_world
           (str "/p/src/Button.tsx")).
  - reflexivity.
  - vm_compute. reflexivity.
  - vm_compute. right. left. reflexivity.
  - intros m Hm. vm_compute in Hm. discriminate.
Defined.

Lemma walk_entries_only_noise (dir : jsstring) (entries : dirents)
    (results : list jsstring) :
  only_noise entries = true -> walk_entries dir entries results = results.
Proof.
  revert results.
  induction entries as [|name child rest IH] using dirents_list_ind;
    intros results Hnoise; [reflexivity|].
  cbn [only_noise] in Hnoise. apply andb_true_iff in Hnoise as [Hhere Hrest].
  cbn [walk_entries]. rewrite IH by exact Hrest.
  destruct (isDirectory child).
  - rewrite Hhere. reflexivity.
  - destruct (excluded_file name); [reflexivity|].
    cbn [orb] in Hhere. apply negb_true_iff in Hhere. rewrite Hhere. reflexivity.
Qed.

(** X12.  When the root directory lists only files that are excluded by
    name or have another extension than [.tsx], and directories with an
    excluded name, the run reads and writes nothing: it prints the scan
    line and [No component files found.], and ends with status 0. *)
Theorem run_without_components
    (U : Unicode) (argv : list jsstring) (pcwd : jsstring) (w : world)
    (wr : bool) (entries : dirents) :
  let absoluteRoot := Path.resolve pcwd [pcwd; rootDir (parseArgs argv)] in
  lookup (fs w) absoluteRoot = Some (Dir true wr entries) ->
  only_noise entries = true ->
  run argv pcwd w
  = (0%N,
     emit (ConsoleLog (str "No component files found."))
       (emit (ConsoleLog (str "react-testgen: scanning " ++ [dquote]
                          ++ absoluteRoot ++ [dquote])) w)).
Proof.
  intros absoluteRoot Hroot Hnoise. unfold run, main, bind, console_log.
  rewrite findComponentFiles_found. cbn [fs emit]. fold absoluteRoot.
  unfold found. rewrite Hroot. cbn [walk].
  rewrite walk_entries_only_noise by exact Hnoise. reflexivity.
Qed.

Lemma run_without_components_witness :
  @run AsciiCase (node_argv []) (str "/p") {| fs := stories_only_tree; trace := [] |}
  = (0%N,
     {| fs := stories_only_tree;
        trace := [ConsoleLog (str "react-testgen: scanning " ++ [dquote]
                              ++ str "/p/src" ++ [dquote]);
                  ConsoleLog (str "No component files found.")] |}).
Proof.
  apply (@run_without_components AsciiCase (node_argv []) (str "/p")
           {| fs := stories_only_tree; trace := [] |} true
           (DCons (str "Button.stories.tsx") (File true true (str "export default {};"))
           (DCons (str "Button.test.tsx") (File true true (str "test")) DNil))).
  - vm_compute. reflexivity.
  - vm_compute. reflexivity.
Defined.

Lemma for_each_app (body : jsstring -> M unit)
    (pre post : list jsstring) (w : world) :
  for_each (pre ++ post) body w
  = match for_each pre body w with
    | (Returned _, w1) => for_each post body w1
    | (Thrown e, w1) => (Thrown e, w1)
    end.
Proof.
  revert w. induction pre as [|f pre IH]; intro w; [reflexivity|].
  cbn [app for_each]. unfold bind.
  destruct (body f w) as [[[]|e] w1]; [apply IH | reflexivity].
Qed.

(** X13.  A run stops at the first file whose processing throws: when the
    files before it went through and [file] fails with [err], the run ends
    with status 1 after printing the error, the files discovered after
    [file] are not touched, the file system is the one the files before
    [file] left, and the world is the one at the failure. *)
Theorem run_stops_at_first_failure
    (U : Unicode) (argv : list jsstring) (pcwd : jsstring) (w w1 w2 : world)
    (pre post : list jsstring) (file : jsstring) (err : errno) :
  let opts := parseArgs argv in
  let absoluteRoot := Path.resolve pcwd [pcwd; rootDir opts] in
  let scan := ConsoleLog (str "react-testgen: scanning " ++ [dquote]
                          ++ absoluteRoot ++ [dquote]) in
  found (fs w) absoluteRoot = pre ++ file :: post ->
  for_each pre (main_file pcwd opts) (emit scan w) = (Returned tt, w1) ->
  main_file pcwd opts file w1 = (Thrown err, w2) ->
  run argv pcwd w
  = (1%N, emit (ConsoleErrorValue err)
            (emit (ConsoleError (str "react-testgen: error")) w2))
  /\ fs w2 = fs w1.
Proof.
  intros opts absoluteRoot scan Hfound Hpre Hfile. split.
  - unfold run, main, bind, console_log.
    rewrite findComponentFiles_found. cbn [fs emit].
    fold opts. fold absoluteRoot. fold scan. rewrite Hfound.
    assert (Hlen : (List.length (pre ++ file :: post) =? 0) = false)
      by (rewrite length_app; simpl; apply Nat.eqb_neq; lia).
    rewrite Hlen.
    change {| fs := fs w; trace := trace w ++ [scan] |} with (emit scan w).
    rewrite for_each_app, Hpre. cbn [for_each]. unfold bind. rewrite Hfile.
    reflexivity.
  - pose proof (main_file_on_fs pcwd opts file w1) as Hfs.
    rewrite Hfile in Hfs. unfold on_fs in Hfs. simpl in Hfs.
    destruct (main_file_fs_cases pcwd opts file (fs w1))
      as [Hsame | (content & Hok & _)].
    + rewrite <- Hfs in Hsame. exact Hsame.
    + rewrite <- Hfs in Hok. discriminate.
Qed.

Lemma run_stops_at_first_failure_witness :
  let w := {| fs := broken_tree; trace := [] |} in
  fst (@run AsciiCase (node_argv []) (str "/p") w) = 1%N
  /\ lookup (fs (snd (@run AsciiCase (node_argv []) (str "/p") w)))
            (str "/p/src/A.test.tsx") <> None
  /\ lookup (fs (snd (@run AsciiCase (node_argv []) (str "/p") w)))
            (str "/p/src/C.test.tsx") = None.
Proof.
  intro w.
  set (w1 := snd (@for_each [str "/p/src/A.tsx"]
                    (@main_file AsciiCase (str "/p") (parseArgs (node_argv [])))
                    (emit (ConsoleLog (str "react-testgen: scanning " ++ [dquote]
                                       ++ str "/p/src" ++ [dquote])) w))).
  assert (Hrun := @run_stops_at_first_failure AsciiCase (node_argv []) (str "/p")
              w w1 (emit (ReadFile (str "/p/src/B.tsx")) w1)
              [str "/p/src/A.tsx"] [str "/p/src/C.tsx"] (str "/p/src/B.tsx")
              EACCES).
  cbv zeta in Hrun. destruct Hrun as [Hrun _].
  - vm_compute. reflexivity.
  - vm_compute. reflexivity.
  - vm_compute. reflexivity.
  - rewrite Hrun. split; [reflexivity|]. split.
    + vm_compute. discriminate.
    + vm_compute. reflexivity.
Defined.

(** ** The names that the patterns read *)

Lemma try_counts_eq (A : Type) (rest : nat -> option A) (lo k : nat) :
  try_counts rest lo k
  = if k <? lo then None
    else match rest k with
         | Some r => Some r
         | None => match k with
                   | 0 => None
                   | S k' => try_counts rest lo k'
                   end
         end.
Proof. destruct k; reflexivity. Qed.

Lemma try_counts_inv (A : Type) (rest : nat -> option A) (lo k : nat) (r : A) :
  try_counts rest lo k = Some r -> exists j, lo <= j <= k /\ rest j = Some r.
Proof.
  induction k as [|k IH]; rewrite try_counts_eq.
  - destruct (Nat.ltb_spec 0 lo) as [Hlt | Hge]; [discriminate|].
    destruct (rest 0) eqn:E; [|discriminate].
    intro H. injection H as <-. exists 0. split; [lia | exact E].
  - destruct (Nat.ltb_spec (S k) lo) as [Hlt | Hge]; [discriminate|].
    destruct (rest (S k)) eqn:E.
    + intro H. injection H as <-. exists (S k). split; [lia | exact E].
    + intro H. destruct (IH H) as (j & Hj & Hr). exists j. split; [lia | exact Hr].
Qed.

(** Items outside the group leave the capture as it is. *)
Lemma exec_items_capture (re : regex) :
  forallb is_item re = true ->
  forall s st g left, closed st -> exec re s st = Some (g, left) ->
  g = captured st.
Proof.
  induction re as [|i re IH]; intros Hitems s st g left Hst Hexec.
  - simpl in Hexec. injection Hexec as <- _. reflexivity.
  - destruct i as [a q | | |]; try discriminate. simpl in Hitems.
    cbn [exec] in Hexec. apply try_counts_inv in Hexec as (j & _ & Hexec).
    rewrite (consume_closed _ Hst) in Hexec. eapply IH; eassumption.
Qed.

(** Items in front of a pattern: the rest of the pattern matches somewhere
    further in the text. *)
Lemma exec_items_prefix (pre re : regex) :
  forallb is_item pre = true ->
  forall s st r, closed st -> exec (pre ++ re) s st = Some r ->
  exists s', exec re s' st = Some r.
Proof.
  induction pre as [|i pre IH]; intros Hitems s st r Hst Hexec.
  - exists s. exact Hexec.
  - destruct i as [a q | | |]; try discriminate. simpl in Hitems.
    cbn [app exec] in Hexec. apply try_counts_inv in Hexec as (j & _ & Hexec).
    rewrite (consume_closed _ Hst) in Hexec. eapply IH; eassumption.
Qed.

Lemma firstn_run_length (a : atom) (s : jsstring) (j : nat) :
  j <= run_length a s -> forallb (atom_matches a) (firstn j s) = true.
Proof.
  revert j. induction s as [|c s IH]; intros j Hj.
  - destruct j; reflexivity.
  - destruct j as [|j]; [reflexivity|]. simpl in Hj |- *.
    destruct (atom_matches a c); [|lia].
    apply IH. lia.
Qed.

Lemma run_length_le (a : atom) (s : jsstring) : run_length a s <= List.length s.
Proof.
  induction s as [|c s IH]; simpl; [lia|].
  destruct (atom_matches a c); lia.
Qed.

(** The group [([A-Za-z0-9_]+)] captures an identifier. *)
Lemma exec_ident_group_captures (tail : regex) :
  forallb is_item tail = true ->
  forall s st g left, exec (ident_group ++ tail) s st = Some (g, left) ->
  identifier g.
Proof.
  intros Htail s st g left Hexec.
  cbn [ident_group app exec quant_min quant_max] in Hexec.
  apply try_counts_inv in Hexec as (j & [Hlo Hhi] & Hexec).
  cbn [consume group_open captured app] in Hexec.
  apply (exec_items_capture tail Htail) in Hexec; [|reflexivity].
  cbn [captured] in Hexec. subst g.
  pose proof (run_length_le AIdent s) as Hlen.
  split.
  - destruct s as [|c s]; [simpl in Hhi; lia|].
    destruct j; [lia | discriminate].
  - apply (firstn_run_length AIdent). exact Hhi.
Qed.

Lemma search_from_inv (re : regex) (s pre_rev : jsstring) (m : rmatch) :
  search_from re pre_rev s = Some m ->
  exists s', exec re s' initial_mstate = Some (group1 m, after m).
Proof.
  revert pre_rev. induction s as [|c s IH]; intros pre_rev H; cbn [search_from] in H.
  - destruct (exec re [] initial_mstate) as [[g left]|] eqn:E; [|discriminate].
    injection H as <-. exists []. exact E.
  - destruct (exec re (c :: s) initial_mstate) as [[g left]|] eqn:E.
    + injection H as <-. exists (c :: s). exact E.
    + eapply IH. exact H.
Qed.

Lemma js_match_identifier (pre tail : regex) (source name : jsstring) :
  forallb is_item pre = true ->
  forallb is_item tail = true ->
  js_match (pre ++ ident_group ++ tail) source = Some name ->
  identifier name.
Proof.
  intros Hpre Htail Hmatch. unfold js_match, search in Hmatch.
  destruct (search_from (pre ++ ident_group ++ tail) [] source) as [m|] eqn:Hs;
    [|discriminate].
  injection Hmatch as <-.
  apply search_from_inv in Hs as (s' & Hexec).
  apply (exec_items_prefix pre _ Hpre) in Hexec as (s'' & Hexec); [|reflexivity].
  eapply exec_ident_group_captures; eassumption.
Qed.

Lemma rule_names_are_identifiers (source name : jsstring) :
  js_match re_default_function source = Some name
  \/ js_match re_default source = Some name
  \/ js_match re_function source = Some name
  \/ js_match re_const source = Some name ->
  identifier name.
Proof.
  intros [H | [H | [H | H]]].
  - apply (@js_match_identifier
             (lit "export" ++ spaces1 ++ lit "default" ++ spaces1
              ++ lit "function" ++ spaces1) [] source name);
      [reflexivity | reflexivity |].
    rewrite app_nil_r. repeat rewrite <- app_assoc. exact H.
  - apply (@js_match_identifier
             (lit "export" ++ spaces1 ++ lit "default" ++ spaces1) [] source name);
      [reflexivity | reflexivity |].
    rewrite app_nil_r. repeat rewrite <- app_assoc. exact H.
  - apply (@js_match_identifier
             (lit "export" ++ spaces1 ++ lit "function" ++ spaces1) [] source name);
      [reflexivity | reflexivity |].
    rewrite app_nil_r. repeat rewrite <- app_assoc. exact H.
  - apply (@js_match_identifier
             (lit "export" ++ spaces1 ++ lit "const" ++ spaces1)
             (spaces0 ++ lit "=" ++ spaces0 ++ lit "(") source name);
      [reflexivity | reflexivity |].
    repeat rewrite <- app_assoc. exact H.
Qed.

(** X14.  The name in the result is never empty.  It is either read from
    the text by one of the four patterns, and then made of the characters
    [A-Za-z0-9_] only, or the fallback name when no pattern matches; the
    tag is made with the same name. *)
Theorem importName_is_never_empty
    (U : Unicode) (pcwd filePath source : jsstring) :
  let info := exportInfo_of_source pcwd filePath source in
  importName info <> []
  /\ (identifier (importName info)
      \/ (no_rule_matches source /\ importName info = fallbackName_of filePath))
  /\ jsxTag info = str "<" ++ importName info ++ str " />".
Proof.
  intro info.
  assert (Hcases :
    (identifier (importName info)
     \/ (no_rule_matches source /\ importName info = fallbackName_of filePath))
    /\ jsxTag info = str "<" ++ importName info ++ str " />").
  { unfold info, exportInfo_of_source.
    destruct (js_match re_default_function source) as [n|] eqn:H1.
    { split; [left | reflexivity]. apply (@rule_names_are_identifiers source). auto. }
    destruct (js_match re_default source) as [n|] eqn:H2.
    { split; [left | reflexivity]. apply (@rule_names_are_identifiers source). auto. }
    destruct (js_match re_function source) as [n|] eqn:H3.
    { split; [left | reflexivity]. apply (@rule_names_are_identifiers source). auto. }
    destruct (js_match re_const source) as [n|] eqn:H4.
    { split; [left | reflexivity]. apply (@rule_names_are_identifiers source). auto. }
    split; [right | reflexivity]. repeat split; assumption. }
  destruct Hcases as [Hname Htag]. split; [|split; assumption].
  destruct Hname as [[Hne _] | [_ ->]]; [exact Hne|].
  rewrite fallbackName_capitalized. unfold capitalized.
  destruct (Path.basename filePath (Path.extname filePath)) as [|c rest];
    [discriminate|].
  intro E. apply app_eq_nil in E as [E _].
  exact (toUpperCase_unit_nonempty c E).
Qed.

(** ** Declarations and the rules that read them *)

Lemma exec_literal_inv (word : jsstring) (re : regex) (s : jsstring) (st : mstate)
    (r : jsstring * jsstring) :
  closed st ->
  exec (map (fun c => Item (AChar c) One) word ++ re) s st = Some r ->
  exists s', s = word ++ s' /\ exec re s' st = Some r.
Proof.
  intro Hst. revert s. induction word as [|c word IH]; intros s Hexec.
  - exists s. split; [reflexivity | exact Hexec].
  - cbn [map app] in Hexec. rewrite exec_char_one in Hexec.
    destruct s as [|d s]; [discriminate|].
    destruct (N.eqb c d) eqn:E; [|discriminate].
    apply N.eqb_eq in E. subst d.
    rewrite (consume_closed _ Hst) in Hexec.
    destruct (IH _ Hexec) as (s' & -> & Hrest).
    exists s'. split; [reflexivity | exact Hrest].
Qed.

Lemma exec_spaces1_inv (re : regex) (s : jsstring) (st : mstate)
    (r : jsstring * jsstring) :
  closed st ->
  exec (spaces1 ++ re) s st = Some r ->
  exists sp s', s = sp ++ s' /\ white sp /\ exec re s' st = Some r.
Proof.
  intros Hst Hexec. cbn [spaces1 app exec quant_min quant_max] in Hexec.
  apply try_counts_inv in Hexec as (j & [Hlo Hhi] & Hexec).
  rewrite (consume_closed _ Hst) in Hexec.
  exists (firstn j s), (skipn j s). split; [symmetry; apply firstn_skipn|].
  split; [|exact Hexec]. split.
  - destruct s as [|c s]; [simpl in Hhi; lia|].
    destruct j; [lia | discriminate].
  - apply (firstn_run_length ASpace). exact Hhi.
Qed.

(** What rule 1 matches at the start of a text is a default function
    declaration. *)
Lemma exec_default_function_inv (s : jsstring) (r : jsstring * jsstring) :
  exec re_default_function s initial_mstate = Some r ->
  exists sp1 sp2 rest,
    white sp1 /\ white sp2
    /\ s = str "export" ++ sp1 ++ str "default" ++ sp2 ++ str "function" ++ rest.
Proof.
  intro Hexec. unfold re_default_function, lit in Hexec.
  apply exec_literal_inv in Hexec as (s1 & -> & Hexec); [|reflexivity].
  apply exec_spaces1_inv in Hexec as (sp1 & s2 & -> & Hsp1 & Hexec); [|reflexivity].
  apply exec_literal_inv in Hexec as (s3 & -> & Hexec); [|reflexivity].
  apply exec_spaces1_inv in Hexec as (sp2 & s4 & -> & Hsp2 & Hexec); [|reflexivity].
  apply exec_literal_inv in Hexec as (s5 & -> & Hexec); [|reflexivity].
  exists sp1, sp2, s5. repeat split; try apply Hsp1; try apply Hsp2.
Qed.

(** Rule 2 reads such a declaration too, as a name that begins with
    [function]. *)
Lemma exec_default_on_function (sp1 sp2 rest : jsstring) :
  white sp1 -> white sp2 ->
  exists name left,
    exec re_default
      (str "export" ++ sp1 ++ str "default" ++ sp2 ++ str "function" ++ rest)
      initial_mstate
    = Some (str "function" ++ name, left).
Proof.
  intros [Hn1 Hs1] [Hn2 Hs2].
  destruct (split_identifier_prefix rest) as (a & b & -> & Ha & Hb).
  exists a, b. unfold re_default, lit.
  repeat rewrite <- app_assoc.
  apply exec_literal; [reflexivity|].
  apply exec_spaces1; [reflexivity | assumption | assumption | reflexivity |].
  apply exec_literal; [reflexivity|].
  apply exec_spaces1; [reflexivity | assumption | assumption | reflexivity |].
  rewrite app_assoc. apply exec_ident_group.
  - discriminate.
  - rewrite forallb_app, Ha. reflexivity.
  - exact Hb.
Qed.

(** A match that the search returns starts somewhere in the text. *)
Lemma search_from_split (re : regex) (s pre_rev : jsstring) (m : rmatch) :
  search_from re pre_rev s = Some m ->
  exists a b, s = a ++ b /\ exec re b initial_mstate <> None.
Proof.
  revert pre_rev. induction s as [|c s IH]; intros pre_rev H; cbn [search_from] in H.
  - exists [], []. split; [reflexivity|].
    destruct (exec re [] initial_mstate); [discriminate | discriminate].
  - destruct (exec re (c :: s) initial_mstate) as [[g left]|] eqn:E.
    + exists [], (c :: s). split; [reflexivity|]. rewrite E. discriminate.
    + destruct (IH _ H) as (a & b & -> & Hb).
      exists (c :: a), b. split; [reflexivity | exact Hb].
Qed.

(** A text that rule 2 does not match is not matched by rule 1. *)
Lemma no_default_no_default_function (source : jsstring) :
  js_match re_default source = None ->
  js_match re_default_function source = None.
Proof.
  rewrite !js_match_none. intro H2.
  destruct (search_from re_default_function [] source) as [m|] eqn:Hs;
    [|reflexivity].
  exfalso.
  apply search_from_split in Hs as (a & b & -> & Hb).
  destruct (exec re_default_function b initial_mstate) as [r|] eqn:Hexec;
    [|contradiction Hb; reflexivity].
  apply exec_default_function_inv in Hexec
    as (sp1 & sp2 & rest & Hsp1 & Hsp2 & ->).
  destruct (exec_default_on_function rest Hsp1 Hsp2) as (name & left & Hex2).
  apply (@search_from_finds re_default a
           (str "export" ++ sp1 ++ str "default" ++ sp2 ++ str "function" ++ rest)
           []); [rewrite Hex2; discriminate | exact H2].
Qed.

(** X15.  Every text in which rule 1 finds a default function is also
    matched by rule 2, which reads a name beginning with [function] at
    such a declaration: the result is right because rule 1 is tried first.
    A text that rule 2 does not match is not matched by rule 1 either. *)
Theorem default_rule_covers_default_function (source : jsstring) :
  (js_match re_default_function source <> None ->
   js_match re_default source <> None)
  /\ (js_match re_default source = None ->
      js_match re_default_function source = None)
  /\ (forall sp1 sp2 rest, white sp1 -> white sp2 ->
      exists name left,
        exec re_default
          (str "export" ++ sp1 ++ str "default" ++ sp2 ++ str "function" ++ rest)
          initial_mstate
        = Some (str "function" ++ name, left)).
Proof.
  split; [|split].
  - intros H1 H2. apply H1. apply no_default_no_default_function. exact H2.
  - apply no_default_no_default_function.
  - intros sp1 sp2 rest. apply exec_default_on_function.
Qed.

Lemma default_rule_covers_default_function_witness :
  js_match re_default_function (str "export const Card = () => null;") = None.
Proof.
  apply (proj1 (proj2 (default_rule_covers_default_function
                         (str "export const Card = () => null;")))).
  vm_compute. reflexivity.
Defined.

Lemma exec_function_declaration (sp1 sp2 foo rest : jsstring) :
  white sp1 -> white sp2 -> identifier foo ->
  run_length AIdent rest = 0 ->
  exec re_function (function_declaration sp1 sp2 foo ++ rest) initial_mstate
  = Some (foo, rest).
Proof.
  intros [Hn1 Hs1] [Hn2 Hs2] Hfoo Hstop.
  unfold function_declaration, re_function, lit.
  repeat rewrite <- app_assoc.
  apply exec_literal; [reflexivity|].
  apply exec_spaces1; [reflexivity | assumption | assumption | reflexivity |].
  apply exec_literal; [reflexivity|].
  apply exec_spaces1; [reflexivity | assumption | assumption | |].
  - apply identifier_no_space. exact Hfoo.
  - destruct Hfoo. apply exec_ident_group; assumption.
Qed.

(** X16.  A text that holds a named function declaration, [export],
    [function] and an identifier separated by white space, and in which
    rule 2 finds no default export, gives a named import in braces. *)
Theorem named_function_gives_named_import
    (U : Unicode) (pcwd filePath pre sp1 sp2 foo post : jsstring) :
  white sp1 -> white sp2 -> identifier foo ->
  let source := pre ++ function_declaration sp1 sp2 foo ++ post in
  js_match re_default source = None ->
  exists name,
    js_match re_function source = Some name
    /\ identifier name
    /\ exportInfo_of_source pcwd filePath source
       = named_import name (relativeImport_of pcwd filePath)
    /\ importLine (exportInfo_of_source pcwd filePath source)
       = str "import { " ++ name ++ str " } from " ++ [dquote]
         ++ relativeImport_of pcwd filePath ++ [dquote] ++ str ";".
Proof.
  intros H1 H2 [Hne Hid] source Hnodefault.
  assert (Hnofun : js_match re_default_function source = None)
    by (apply no_default_no_default_function; exact Hnodefault).
  destruct (split_identifier_prefix post) as (a & b & Hpost & Ha & Hb).
  assert (Hexec : exec re_function (function_declaration sp1 sp2 foo ++ post)
                    initial_mstate <> None).
  { rewrite Hpost.
    replace (function_declaration sp1 sp2 foo ++ a ++ b)
      with (function_declaration sp1 sp2 (foo ++ a) ++ b).
    - rewrite exec_function_declaration; try assumption; [discriminate|].
      split.
      + destruct foo; [congruence | discriminate].
      + rewrite forallb_app, Hid, Ha. reflexivity.
    - unfold function_declaration. repeat rewrite <- app_assoc. reflexivity. }
  pose proof (search_from_finds re_function pre _ [] Hexec) as Hfound.
  fold source in Hfound.
  destruct (js_match re_function source) as [name|] eqn:Hname.
  - exists name.
    assert (Hinfo : exportInfo_of_source pcwd filePath source
                    = named_import name (relativeImport_of pcwd filePath)).
    { unfold exportInfo_of_source. rewrite Hnofun, Hnodefault, Hname. reflexivity. }
    split; [reflexivity|].
    split; [|split; [exact Hinfo | rewrite Hinfo; reflexivity]].
    apply (@rule_names_are_identifiers source). auto.
  - exfalso. unfold js_match, search in Hname.
    destruct (search_from re_function [] source);
      [discriminate | contradiction Hfound; reflexivity].
Qed.

Lemma named_function_gives_named_import_witness :
  @exportInfo_of_source AsciiCase (str "/p") (str "/p/src/Old.tsx")
    ((str "// a component" ++ [newline])
     ++ function_declaration (str " ") (str " ") (str "Old") ++ str "() {}")
  = named_import (str "Old") (@relativeImport_of (str "/p") (str "/p/src/Old.tsx")).
Proof.
  destruct (@named_function_gives_named_import AsciiCase (str "/p")
              (str "/p/src/Old.tsx") (str "// a component" ++ [newline])
              (str " ") (str " ") (str "Old") (str "() {}"))
    as (name & Hread & _ & Hinfo & _).
  - split; [discriminate | reflexivity].
  - split; [discriminate | reflexivity].
  - split; [discriminate | reflexivity].
  - vm_compute. reflexivity.
  - vm_compute in Hread. injection Hread as <-. exact Hinfo.
Defined.

(** X17.  A text that holds the declaration of a [const] assigned an arrow
    function, [export const Name = (] with any white space between the
    words and around the equals sign, and in which rules 2 and 3 find
    nothing, gives a named import in braces. *)
Theorem const_arrow_gives_named_import
    (U : Unicode) (pcwd filePath pre sp1 sp2 bar sp3 sp4 post : jsstring) :
  white sp1 -> white sp2 -> identifier bar -> blank sp3 -> blank sp4 ->
  let source := pre ++ const_declaration sp1 sp2 bar sp3 sp4 ++ post in
  js_match re_default source = None ->
  js_match re_function source = None ->
  exists name,
    js_match re_const source = Some name
    /\ identifier name
    /\ exportInfo_of_source pcwd filePath source
       = named_import name (relativeImport_of pcwd filePath).
Proof.
  intros H1 H2 Hbar H3 H4 source Hnodefault Hnofunction.
  assert (Hnofun : js_match re_default_function source = None)
    by (apply no_default_no_default_function; exact Hnodefault).
  assert (Hexec : exec re_const (const_declaration sp1 sp2 bar sp3 sp4 ++ post)
                    initial_mstate <> None)
    by (rewrite exec_const_declaration by assumption; discriminate).
  pose proof (search_from_finds re_const pre _ [] Hexec) as Hfound.
  fold source in Hfound.
  destruct (js_match re_const source) as [name|] eqn:Hname.
  - exists name. split; [reflexivity|]. split.
    + apply (@rule_names_are_identifiers source). auto.
    + unfold exportInfo_of_source.
      rewrite Hnofun, Hnodefault, Hnofunction, Hname. reflexivity.
  - exfalso. apply js_match_none in Hname. contradiction.
Qed.

Lemma const_arrow_gives_named_import_witness :
  @exportInfo_of_source AsciiCase (str "/p") (str "/p/src/Card.tsx")
    ((str "import React from 'react';" ++ [newline])
     ++ const_declaration (str " ") (str " ") (str "Card") (str " ") (str " ")
     ++ str "props) => null;")
  = named_import (str "Card") (@relativeImport_of (str "/p") (str "/p/src/Card.tsx")).
Proof.
  destruct (@const_arrow_gives_named_import AsciiCase (str "/p")
              (str "/p/src/Card.tsx") (str "import React from 'react';" ++ [newline])
              (str " ") (str " ") (str "Card") (str " ") (str " ")
              (str "props) => null;"))
    as (name & Hread & _ & Hinfo).
  - split; [discriminate | reflexivity].
  - split; [discriminate | reflexivity].
  - split; [discriminate | reflexivity].
  - reflexivity.
  - reflexivity.
  - vm_compute. reflexivity.
  - vm_compute. reflexivity.
  - vm_compute in Hread. injection Hread as <-. exact Hinfo.
Defined.

(** ** What a run writes *)

(** One turn of the loop leaves the tree as it is or writes the template
    of the file's text at the file's test path. *)
Lemma main_file_fs_template (U : Unicode) (pcwd : jsstring) (opts : CliOptions)
    (file : jsstring) (tree : node) :
  snd (main_file_fs pcwd opts file tree) = tree
  \/ (exists source,
        read_result tree file = Returned source
        /\ (force opts = false -> lookup tree (getTestPath file) = None)
        /\ write_comps tree (os_path (getTestPath file))
             (createTestTemplate file (exportInfo_of_source pcwd file source))
           = Returned (snd (main_file_fs pcwd opts file tree))).
Proof.
  unfold main_file_fs, exists_in.
  destruct (lookup tree (getTestPath file)) as [t|] eqn:Ht;
    destruct (force opts); cbn [andb negb]; try (left; reflexivity);
    (destruct (read_result tree file) as [source|e]; [|left; reflexivity];
     destruct (dryRun opts); [left; reflexivity|];
     destruct (write_comps tree (os_path (getTestPath file)) _) as [tree'|e] eqn:Hw;
     [|left; reflexivity];
     right; exists source; repeat split; try exact Hw; congruence).
Qed.

(** The turn of a readable file whose test is to be written. *)
Lemma main_file_fs_writes (U : Unicode) (pcwd : jsstring) (opts : CliOptions)
    (file : jsstring) (tree : node) (r wr : bool) (content : jsstring) :
  dryRun opts = false ->
  force opts = true \/ lookup tree (getTestPath file) = None ->
  lookup tree file = Some (File r wr content) ->
  fst (main_file_fs pcwd opts file tree) = Returned tt ->
  exists r' wr',
    lookup (snd (main_file_fs pcwd opts file tree)) (getTestPath file)
    = Some (File r' wr' (createTestTemplate file
                       (exportInfo_of_source pcwd file content))).
Proof.
  intros Hdry Hcond Hsrc. unfold main_file_fs, exists_in, read_result.
  assert (Hgo : (match lookup tree (getTestPath file) with
                 | Some _ => true | None => false end) && negb (force opts)
                = false).
  { destruct Hcond as [-> | ->]; [apply andb_false_r | reflexivity]. }
  rewrite Hgo, Hsrc, Hdry.
  destruct r; [|discriminate].
  destruct (write_comps tree (os_path (getTestPath file)) _) as [tree'|e] eqn:Hw;
    [|discriminate].
  intros _. cbn [snd]. unfold lookup.
  destruct (lookup_write_same _ _ _ Hw) as (r' & Hthere).
  exists r', true. exact Hthere.
Qed.

(** One turn of the loop keeps the files that are no tests. *)
Lemma main_file_fs_keeps_other_files
    (U : Unicode) (pcwd : jsstring) (opts : CliOptions)
    (file : jsstring) (tree : node) (p : jsstring) (r wr : bool) (old : jsstring) :
  names_test_file (os_path p) = false ->
  lookup tree p = Some (File r wr old) ->
  lookup (snd (main_file_fs pcwd opts file tree)) p = Some (File r wr old).
Proof.
  intros Hname Hp.
  pose proof (@for_each_fs_keeps_other_files U pcwd opts [file] tree p r wr old
                Hname Hp) as Hkept.
  cbn [for_each_fs] in Hkept.
  destruct (main_file_fs pcwd opts file tree) as [[[]|e] tree']; exact Hkept.
Qed.

(** Once the template of a file is at its test path, the loop leaves it
    there: the turns of other files write elsewhere and a later turn of
    the same file writes the same text. *)
Lemma for_each_fs_keeps_template
    (U : Unicode) (pcwd : jsstring) (opts : CliOptions)
    (files : list jsstring) (file : jsstring) (r wr : bool) (content : jsstring) :
  names_test_file (os_path file) = false ->
  (forall g, In g files ->
     g = file \/ os_path (getTestPath g) <> os_path (getTestPath file)) ->
  forall tree r' wr',
  lookup tree file = Some (File r wr content) ->
  lookup tree (getTestPath file)
  = Some (File r' wr' (createTestTemplate file
                     (exportInfo_of_source pcwd file content))) ->
  exists r'' wr'',
    lookup (snd (for_each_fs files (main_file_fs pcwd opts) tree))
           (getTestPath file)
    = Some (File r'' wr'' (createTestTemplate file
                        (exportInfo_of_source pcwd file content))).
Proof.
  intros Hname. induction files as [|g files IH]; intros Hothers tree r' wr' Hsrc Htest.
  - exists r', wr'. exact Htest.
  - assert (Hsrc' : lookup (snd (main_file_fs pcwd opts g tree)) file
                    = Some (File r wr content))
      by (apply main_file_fs_keeps_other_files; assumption).
    assert (Htest' : exists r0 wr0,
               lookup (snd (main_file_fs pcwd opts g tree)) (getTestPath file)
               = Some (File r0 wr0 (createTestTemplate file
                                  (exportInfo_of_source pcwd file content)))).
    { destruct (main_file_fs_template U pcwd opts g tree)
        as [-> | (source & Hread & _ & Hw)]; [exists r', wr'; exact Htest|].
      destruct (Hothers g (or_introl eq_refl)) as [-> | Hdiff].
      - unfold read_result in Hread. rewrite Hsrc in Hread.
        destruct r; [|discriminate]. injection Hread as <-.
        unfold lookup. destruct (lookup_write_same _ _ _ Hw) as (r0 & Hthere).
        exists r0, true. exact Hthere.
      - exists r', wr'. unfold lookup in *.
        eapply lookup_write_other; [exact Hw | | exact Htest].
        congruence. }
    destruct Htest' as (r0 & wr0 & Htest').
    cbn [for_each_fs].
    destruct (main_file_fs pcwd opts g tree) as [[[]|e] tree'];
      cbn [snd] in Hsrc', Htest' |- *.
    + apply (IH (fun g' Hg' => Hothers g' (or_intror Hg')) tree' r0 wr0);
        assumption.
    + exists r0, wr0. exact Htest'.
Qed.

(** After a loop that ended normally, the test of a file whose test was
    to be written holds the template of the file's text. *)
Lemma for_each_fs_writes_template
    (U : Unicode) (pcwd : jsstring) (opts : CliOptions)
    (files : list jsstring) (file : jsstring) (r wr : bool) (content : jsstring) :
  dryRun opts = false ->
  names_test_file (os_path file) = false ->
  (forall g, In g files ->
     g = file \/ os_path (getTestPath g) <> os_path (getTestPath file)) ->
  forall tree,
  force opts = true \/ lookup tree (getTestPath file) = None ->
  lookup tree file = Some (File r wr content) ->
  In file files ->
  fst (for_each_fs files (main_file_fs pcwd opts) tree) = Returned tt ->
  exists r' wr',
    lookup (snd (for_each_fs files (main_file_fs pcwd opts) tree))
           (getTestPath file)
    = Some (File r' wr' (createTestTemplate file
                       (exportInfo_of_source pcwd file content))).
Proof.
  intros Hdry Hname. induction files as [|f files IH];
    intros Hothers tree Hcond Hsrc Hin Hok; [destruct Hin|].
  assert (Hsrc' : lookup (snd (main_file_fs pcwd opts f tree)) file
                  = Some (File r wr content))
    by (apply main_file_fs_keeps_other_files; assumption).
  assert (Hrest : forall g, In g files ->
            g = file \/ os_path (getTestPath g) <> os_path (getTestPath file))
    by (intros g Hg; apply Hothers; right; exact Hg).
  cbn [for_each_fs] in Hok |- *.
  destruct (Hothers f (or_introl eq_refl)) as [-> | Hdiff].
  - assert (Hstep : fst (main_file_fs pcwd opts file tree) = Returned tt ->
              exists r' wr',
                lookup (snd (main_file_fs pcwd opts file tree)) (getTestPath file)
                = Some (File r' wr' (createTestTemplate file
                                   (exportInfo_of_source pcwd file content))))
      by (apply main_file_fs_writes with r wr; assumption).
    destruct (main_file_fs pcwd opts file tree) as [[[]|e] tree'];
      [|discriminate].
    destruct (Hstep eq_refl) as (r' & wr' & Htest). cbn [snd] in Hsrc', Htest.
    apply for_each_fs_keeps_template with r wr r' wr'; assumption.
  - assert (Hcond' : force opts = true
              \/ lookup (snd (main_file_fs pcwd opts f tree)) (getTestPath file)
                 = None).
    { destruct Hcond as [Hforce | Habsent]; [left; exact Hforce | right].
      destruct (main_file_fs_template U pcwd opts f tree)
        as [-> | (source & _ & _ & Hw)]; [exact Habsent|].
      unfold lookup in *.
      eapply lookup_write_absent; [exact Hw | | exact Habsent]. congruence. }
    destruct Hin as [-> | Hin]; [congruence|].
    destruct (main_file_fs pcwd opts f tree) as [[[]|e] tree'];
      [|discriminate].
    cbn [snd] in Hsrc', Hcond'. apply IH; assumption.
Qed.

Lemma lookup_comps_plain (comps : list jsstring) :
  forall n m, plain_names n -> lookup_comps n comps = Some m -> plain_names m.
Proof.
  induction comps as [|c comps IH]; intros n m Hplain Hl.
  - simpl in Hl. injection Hl as <-. exact Hplain.
  - destruct n as [r wr old | r wr entries]; simpl in Hl; [discriminate|].
    destruct (find_entry c entries) as [child|] eqn:Hfind; [|discriminate].
    apply (IH child); [|exact Hl].
    simpl in Hplain. clear Hl IH. revert Hplain Hfind.
    induction entries as [|name child' rest IHe] using dirents_list_ind;
      [discriminate|].
    simpl. intros (_ & Hchild & Hrest).
    destruct (jseq c name); [intro E; injection E as <-; exact Hchild|].
    apply IHe. exact Hrest.
Qed.

(** The paths that discovery returns, with the components the kernel
    follows for them, for their directories and for their test paths. *)
Lemma walk_component_paths (comps : list jsstring) (n : node) (p : jsstring) :
  Forall plain comps ->
  plain_names n ->
  In p (walk (absolute_path comps) n []) ->
  exists dir stem,
    p = absolute_path (dir ++ [component_name stem])
    /\ os_path p = dir ++ [component_name stem]
    /\ os_path (getTestPath p) = dir ++ [stem ++ str ".test.tsx"]
    /\ is_test_name (component_name stem) = false
    /\ os_path (Path.dirname p) = dir.
Proof.
  intros Hcomps Hplain Hin.
  apply (proj1 walk_selected) in Hin.
  destruct Hin as (ds & name & Hreach & _ & Hexcl & Hext & ->).
  destruct (reaches_plain Hreach Hplain) as [Hds Hname].
  apply includes_In in Hext. destruct Hext as [Hext | []].
  destruct (extname_tsx_inv Hname (eq_sym Hext)) as (stem & -> & Hstem).
  exists (comps ++ ds), stem.
  assert (Hall : Forall plain (comps ++ ds))
    by (apply Forall_app; split; assumption).
  assert (Hnames : Forall plain (ds ++ [component_name stem]))
    by (apply Forall_app; split; [assumption | constructor; [assumption | constructor]]).
  rewrite path_below_absolute, app_assoc by assumption.
  rewrite getTestPath_sibling, dirname_absolute by assumption.
  rewrite !os_path_absolute
    by (first [assumption
              | apply Forall_app; split;
                [assumption
                | constructor; [first [assumption | apply plain_test_name; assumption]
                               | constructor]]]).
  repeat split.
  unfold excluded_file in Hexcl.
  apply orb_false_iff in Hexcl as [Hexcl _].
  apply orb_false_iff in Hexcl as [Hexcl _]. exact Hexcl.
Qed.

(** The same for the files discovered from the working directory. *)
Lemma found_component_paths (pcwd rootDir : jsstring) (tree : node) (g : jsstring) :
  Path.isAbsolute pcwd = true ->
  plain_names tree ->
  In g (found tree (Path.resolve pcwd [pcwd; rootDir])) ->
  exists dir stem,
    g = absolute_path (dir ++ [component_name stem])
    /\ os_path g = dir ++ [component_name stem]
    /\ os_path (getTestPath g) = dir ++ [stem ++ str ".test.tsx"]
    /\ is_test_name (component_name stem) = false
    /\ os_path (Path.dirname g) = dir.
Proof.
  intros Habs Hplain. unfold found.
  destruct (resolve_root_absolute pcwd rootDir Habs) as (comps & Hcomps & ->).
  destruct (lookup tree (absolute_path comps)) as [n|] eqn:Hroot; [|intros []].
  intro Hg. apply (@walk_component_paths comps n g); [exact Hcomps | | exact Hg].
  apply (@lookup_comps_plain (os_path (absolute_path comps)) tree n Hplain Hroot).
Qed.

(** No discovered file has the name of a test, and two of them have
    different test paths. *)
Lemma found_test_paths (pcwd rootDir : jsstring) (tree : node) :
  Path.isAbsolute pcwd = true ->
  plain_names tree ->
  let files := found tree (Path.resolve pcwd [pcwd; rootDir]) in
  (forall g, In g files -> names_test_file (os_path g) = false)
  /\ (forall g h, In g files -> In h files ->
        g = h \/ os_path (getTestPath g) <> os_path (getTestPath h)).
Proof.
  intros Habs Hplain files. split.
  - intros g Hg.
    destruct (found_component_paths pcwd rootDir tree g Habs Hplain Hg)
      as (dir & stem & _ & -> & _ & Hname & _).
    rewrite names_test_file_last. exact Hname.
  - intros g h Hg Hh.
    destruct (list_eq_dec (list_eq_dec N.eq_dec)
                (os_path (getTestPath g)) (os_path (getTestPath h)))
      as [Esame | Hdiff]; [left | right; exact Hdiff].
    destruct (found_component_paths pcwd rootDir tree g Habs Hplain Hg)
      as (dir1 & stem1 & -> & _ & E1 & _).
    destruct (found_component_paths pcwd rootDir tree h Habs Hplain Hh)
      as (dir2 & stem2 & -> & _ & E2 & _).
    rewrite E1, E2 in Esame. apply app_inj_tail in Esame as [-> Estem].
    apply app_inv_tail in Estem. subst stem1. reflexivity.
Qed.



(** After a loop over the discovered files that ended normally, the test
    of a file whose test was to be written holds the template of the
    file's text. *)
Lemma run_fs_writes_template
    (U : Unicode) (argv : list jsstring) (pcwd : jsstring) (tree : node)
    (file : jsstring) (r wr : bool) (content : jsstring) :
  let opts := parseArgs argv in
  let files := found tree (Path.resolve pcwd [pcwd; rootDir opts]) in
  Path.isAbsolute pcwd = true ->
  plain_names tree ->
  dryRun opts = false ->
  force opts = true \/ lookup tree (getTestPath file) = None ->
  fst (for_each_fs files (main_file_fs pcwd opts) tree) = Returned tt ->
  In file files ->
  lookup tree file = Some (File r wr content) ->
  exists r' wr',
    lookup (run_fs argv pcwd tree) (getTestPath file)
    = Some (File r' wr' (createTestTemplate file
                           (exportInfo_of_source pcwd file content))).
Proof.
  intros opts files Habs Hplain Hdry Hcond Hok Hin Hsrc.
  destruct (found_test_paths pcwd (rootDir opts) tree Habs Hplain)
    as (Hnames & Hdistinct).
  unfold run_fs. fold opts. fold files.
  assert (Hlen : (List.length files =? 0) = false)
    by (destruct files; [destruct Hin | reflexivity]).
  rewrite Hlen.
  apply for_each_fs_writes_template with r wr; try assumption.
  - apply Hnames. exact Hin.
  - intros g Hg. apply Hdistinct; assumption.
Qed.




(** X18.  The text of a generated test.  In a file system whose entries
    have names that [readdir] can return, after a run from an absolute
    working directory that ended with status 0 and was not a dry run, the
    test path of a discovered component whose test was to be written (with
    [--force], or when there was none) holds the template that
    [createTestTemplate] builds from the export information of the text
    the component had when the run began. *)
Theorem run_writes_the_template
    (U : Unicode) (argv : list jsstring) (pcwd : jsstring) (w : world)
    (file : jsstring) (r wr : bool) (content : jsstring) :
  Path.isAbsolute pcwd = true ->
  plain_names (fs w) ->
  dryRun (parseArgs argv) = false ->
  force (parseArgs argv) = true \/ lookup (fs w) (getTestPath file) = None ->
  fst (run argv pcwd w) = 0%N ->
  In file (found (fs w) (Path.resolve pcwd [pcwd; rootDir (parseArgs argv)])) ->
  lookup (fs w) file = Some (File r wr content) ->
  exists r' wr',
    lookup (fs (snd (run argv pcwd w))) (getTestPath file)
    = Some (File r' wr' (createTestTemplate file
                       (exportInfo_of_source pcwd file content))).
Proof.
  intros Habs Hplain Hdry Hcond Hexit Hin Hsrc.
  destruct (run_exit_0 argv pcwd w Hexit) as [Hnone | Hok];
    [rewrite Hnone in Hin; destruct Hin|].
  rewrite run_on_fs.
  apply run_fs_writes_template with r wr; assumption.
Qed.

Lemma run_writes_the_template_witness :
  exists r' wr',
    lookup (fs (snd (@run AsciiCase (node_argv []) (str "/p") project_world)))
           (getTestPath (str "/p/src/Button.tsx"))
    = Some (File r' wr'
              (@createTestTemplate (str "/p/src/Button.tsx")
                 (@exportInfo_of_source AsciiCase (str "/p")
                    (str "/p/src/Button.tsx")
                    (str "export default function Button() { return null; }")))).
Proof.
  apply (@run_writes_the_template AsciiCase (node_argv []) (str "/p")
           project_world (str "/p/src/Button.tsx") true true).
  - reflexivity.
  - simpl. repeat split; discriminate.
  - vm_compute. reflexivity.
  - right. vm_compute. reflexivity.
  - vm_compute. reflexivity.
  - vm_compute. right. left. reflexivity.
  - vm_compute. reflexivity.
Defined.

Lemma exec_default_declaration (sp1 sp2 foo rest : jsstring) :
  white sp1 -> white sp2 -> identifier foo ->
  run_length AIdent rest = 0 ->
  exec re_default (default_declaration sp1 sp2 foo ++ rest) initial_mstate
  = Some (foo, rest).
Proof.
  intros [Hn1 Hs1] [Hn2 Hs2] Hfoo Hstop.
  unfold default_declaration, re_default, lit.
  repeat rewrite <- app_assoc.
  apply exec_literal; [reflexivity|].
  apply exec_spaces1; [reflexivity | assumption | assumption | reflexivity |].
  apply exec_literal; [reflexivity|].
  apply exec_spaces1; [reflexivity | assumption | assumption | |].
  - apply identifier_no_space. exact Hfoo.
  - destruct Hfoo. apply exec_ident_group; assumption.
Qed.

(** X19.  A text that holds a default export, [export], [default] and an
    identifier separated by white space, gives a default import, without
    braces, of a name that rule 1 or rule 2 reads, whatever named exports
    the text holds before or after it. *)
Theorem default_export_gives_default_import
    (U : Unicode) (pcwd filePath pre sp1 sp2 foo post : jsstring) :
  white sp1 -> white sp2 -> identifier foo ->
  let source := pre ++ default_declaration sp1 sp2 foo ++ post in
  exists name,
    identifier name
    /\ (js_match re_default_function source = Some name
        \/ js_match re_default source = Some name)
    /\ exportInfo_of_source pcwd filePath source
       = default_import name (relativeImport_of pcwd filePath).
Proof.
  intros H1 H2 [Hne Hid] source.
  destruct (split_identifier_prefix post) as (a & b & Hpost & Ha & Hb).
  assert (Hexec : exec re_default (default_declaration sp1 sp2 foo ++ post)
                    initial_mstate <> None).
  { rewrite Hpost.
    replace (default_declaration sp1 sp2 foo ++ a ++ b)
      with (default_declaration sp1 sp2 (foo ++ a) ++ b).
    - rewrite exec_default_declaration; try assumption; [discriminate|].
      split.
      + destruct foo; [congruence | discriminate].
      + rewrite forallb_app, Hid, Ha. reflexivity.
    - unfold default_declaration. repeat rewrite <- app_assoc. reflexivity. }
  pose proof (search_from_finds re_default pre _ [] Hexec) as Hfound.
  fold source in Hfound.
  unfold exportInfo_of_source.
  destruct (js_match re_default_function source) as [name1|] eqn:Hrule1.
  - exists name1. split; [|split; [left; reflexivity | reflexivity]].
    apply (@rule_names_are_identifiers source). auto.
  - destruct (js_match re_default source) as [name|] eqn:Hrule2.
    + exists name. split; [|split; [right; reflexivity | reflexivity]].
      apply (@rule_names_are_identifiers source). auto.
    + exfalso. apply js_match_none in Hrule2. contradiction.
Qed.

Lemma default_export_gives_default_import_witness :
  exists name,
    identifier name
    /\ (js_match re_default_function
          (str "export function helper() {}" ++ [newline]
           ++ default_declaration (str " ") (str " ") (str "Card") ++ str ";")
        = Some name
        \/ js_match re_default
             (str "export function helper() {}" ++ [newline]
              ++ default_declaration (str " ") (str " ") (str "Card") ++ str ";")
           = Some name)
    /\ @exportInfo_of_source AsciiCase (str "/p") (str "/p/src/Card.tsx")
         (str "export function helper() {}" ++ [newline]
          ++ default_declaration (str " ") (str " ") (str "Card") ++ str ";")
       = default_import name (@relativeImport_of (str "/p") (str "/p/src/Card.tsx")).
Proof.
  apply (@default_export_gives_default_import AsciiCase (str "/p")
           (str "/p/src/Card.tsx") (str "export function helper() {}" ++ [newline])
           (str " ") (str " ") (str "Card") (str ";")).
  - split; [discriminate | reflexivity].
  - split; [discriminate | reflexivity].
  - split; [discriminate | reflexivity].
Defined.

(** ** When a run ends normally *)

(** A file can be created in a directory that may be written. *)
Lemma write_new_file (dir : list jsstring) (name content : jsstring) :
  forall n r entries,
  lookup_comps n dir = Some (Dir r true entries) ->
  lookup_comps n (dir ++ [name]) = None ->
  exists n', write_comps n (dir ++ [name]) content = Returned n'.
Proof.
  induction dir as [|d dir IH]; intros n r entries Hdir Hnone.
  - simpl in Hdir. injection Hdir as ->. simpl in Hnone |- *.
    destruct (find_entry name entries); [discriminate|].
    eexists. reflexivity.
  - destruct n as [r' wr' old | r' wr' entries']; simpl in Hdir; [discriminate|].
    cbn [app lookup_comps write_comps] in Hnone |- *.
    destruct (find_entry d entries') as [child|]; [|discriminate].
    destruct (IH child r entries Hdir Hnone) as (child' & ->).
    eexists. reflexivity.
Qed.

(** The loop ends normally when every file can be read and every test
    path names a file that may be written, or nothing in a directory that
    may be written. *)
Lemma for_each_fs_succeeds
    (U : Unicode) (pcwd : jsstring) (opts : CliOptions) (files : list jsstring) :
  (forall g, In g files ->
     exists dir stem,
       os_path g = dir ++ [component_name stem]
       /\ os_path (getTestPath g) = dir ++ [stem ++ str ".test.tsx"]
       /\ is_test_name (component_name stem) = false
       /\ os_path (Path.dirname g) = dir) ->
  forall tree,
  (forall g, In g files ->
     exists wr content, lookup tree g = Some (File true wr content)) ->
  (forall g, In g files ->
     (exists r old, lookup tree (getTestPath g) = Some (File r true old))
     \/ (lookup tree (getTestPath g) = None
         /\ exists r entries,
              lookup tree (Path.dirname g) = Some (Dir r true entries))) ->
  fst (for_each_fs files (main_file_fs pcwd opts) tree) = Returned tt.
Proof.
  induction files as [|f files IH]; intros Hnormal tree Hread Htests;
    [reflexivity|].
  assert (Hstep : fst (main_file_fs pcwd opts f tree) = Returned tt).
  { unfold main_file_fs, exists_in, read_result. cbv zeta.
    destruct (Hread f (or_introl eq_refl)) as (wr & content & Hsrc).
    destruct (_ && negb (force opts)); [reflexivity|].
    rewrite Hsrc. destruct (dryRun opts); [reflexivity|].
    assert (Hw : exists n',
              write_comps tree (os_path (getTestPath f))
                (createTestTemplate f (exportInfo_of_source pcwd f content))
              = Returned n').
    { destruct (Htests f (or_introl eq_refl))
        as [(r & old & Htest) | (Hnone & r & entries & Hdir)].
      - destruct (write_existing_file _
                    (createTestTemplate f (exportInfo_of_source pcwd f content))
                    _ Htest) as (n' & Hw & _).
        exists n'. exact Hw.
      - destruct (Hnormal f (or_introl eq_refl)) as (dir & stem & _ & Et & _ & Ed).
        unfold lookup in Hnone, Hdir. rewrite Et in Hnone |- *. rewrite Ed in Hdir.
        eapply write_new_file; eassumption. }
    destruct Hw as (n' & ->). reflexivity. }
  assert (Hread' : forall g, In g files ->
            exists wr content,
              lookup (snd (main_file_fs pcwd opts f tree)) g
              = Some (File true wr content)).
  { intros g Hg. destruct (Hread g (or_intror Hg)) as (wr & content & Hsrc).
    exists wr, content. apply main_file_fs_keeps_other_files; [|exact Hsrc].
    destruct (Hnormal g (or_intror Hg)) as (dir & stem & -> & _ & Hname & _).
    rewrite names_test_file_last. exact Hname. }
  assert (Htests' : forall g, In g files ->
            (exists r old,
               lookup (snd (main_file_fs pcwd opts f tree)) (getTestPath g)
               = Some (File r true old))
            \/ (lookup (snd (main_file_fs pcwd opts f tree)) (getTestPath g) = None
                /\ exists r entries,
                     lookup (snd (main_file_fs pcwd opts f tree)) (Path.dirname g)
                     = Some (Dir r true entries))).
  { intros g Hg.
    destruct (main_file_fs_template U pcwd opts f tree)
      as [-> | (source & _ & _ & Hw)]; [apply Htests; right; exact Hg|].
    unfold lookup in *.
    destruct (list_eq_dec (list_eq_dec N.eq_dec)
                (os_path (getTestPath g)) (os_path (getTestPath f)))
      as [-> | Hdiff].
    - left. destruct (lookup_write_same _ _ _ Hw) as (r & Hthere).
      exists r. eexists. exact Hthere.
    - destruct (Htests g (or_intror Hg))
        as [(r & old & Htest) | (Hnone & r & entries & Hdir)].
      + left. exists r, old.
        apply (@lookup_write_other _ _ _ _ _ r true old Hw Hdiff Htest).
      + right. split.
        * apply (@lookup_write_absent _ _ _ _ _ Hw Hdiff Hnone).
        * destruct (@lookup_write_dir _ _ _ _ _ r true entries Hw Hdir)
            as (entries' & Hdir').
          exists r, entries'. exact Hdir'. }
  cbn [for_each_fs].
  destruct (main_file_fs pcwd opts f tree) as [[[]|e] tree']; [|discriminate].
  cbn [snd] in Hread', Htests'.
  apply IH; [intros g Hg; apply Hnormal; right; exact Hg | assumption | assumption].
Qed.

(** The exit status is that of the loop. *)
Lemma run_exit_status (U : Unicode) (argv : list jsstring) (pcwd : jsstring)
    (w : world) :
  let opts := parseArgs argv in
  let files := found (fs w) (Path.resolve pcwd [pcwd; rootDir opts]) in
  fst (for_each_fs files (main_file_fs pcwd opts) (fs w)) = Returned tt ->
  fst (run argv pcwd w) = 0%N.
Proof.
  intros opts files Hok. unfold run, main, bind, console_log.
  rewrite findComponentFiles_found. cbn [fs emit]. fold opts. fold files.
  destruct (List.length files =? 0); [reflexivity|].
  set (w0 := emit _ w).
  pose proof (for_each_on_fs pcwd opts files w0) as Hloop.
  unfold on_fs in Hloop. change (fs w0) with (fs w) in Hloop.
  rewrite <- Hloop in Hok. cbn [fst] in Hok.
  destruct (for_each files (main_file pcwd opts) w0) as [[[]|e] w2];
    [reflexivity | discriminate].
Qed.

(** X20.  In a file system with read and write permissions whose entries
    have names that [readdir] can return, a run from an absolute working
    directory ends with status 0, whatever the options, when every
    discovered component is a file that can be read and its test path
    names a file that may be written, or names nothing while the directory
    of the component may be written. *)
Theorem run_ends_normally
    (U : Unicode) (argv : list jsstring) (pcwd : jsstring) (w : world) :
  let files := found (fs w) (Path.resolve pcwd [pcwd; rootDir (parseArgs argv)]) in
  Path.isAbsolute pcwd = true ->
  plain_names (fs w) ->
  (forall file, In file files ->
     exists wr content, lookup (fs w) file = Some (File true wr content)) ->
  (forall file, In file files ->
     (exists r old, lookup (fs w) (getTestPath file) = Some (File r true old))
     \/ (lookup (fs w) (getTestPath file) = None
         /\ exists r entries,
              lookup (fs w) (Path.dirname file) = Some (Dir r true entries))) ->
  fst (run argv pcwd w) = 0%N.
Proof.
  intros files Habs Hplain Hread Htests.
  apply run_exit_status. fold files.
  apply for_each_fs_succeeds; [|assumption|assumption].
  intros g Hg.
  destruct (found_component_paths pcwd (rootDir (parseArgs argv)) (fs w) g
              Habs Hplain Hg) as (dir & stem & _ & Ef & Et & Hname & Ed).
  exists dir, stem. repeat split; assumption.
Qed.

Lemma run_ends_normally_witness :
  fst (@run AsciiCase (node_argv [str "--force"]) (str "/p") project_world) = 0%N.
Proof.
  apply (@run_ends_normally AsciiCase (node_argv [str "--force"]) (str "/p")
           project_world).
  - reflexivity.
  - simpl. repeat split; discriminate.
  - intros file Hin. vm_compute in Hin.
    destruct Hin as [<- | [<- | []]]; do 2 eexists; vm_compute; reflexivity.
  - intros file Hin. vm_compute in Hin.
    destruct Hin as [<- | [<- | []]].
    + left. do 2 eexists. vm_compute. reflexivity.
    + right. split; [vm_compute; reflexivity|].
      do 2 eexists. vm_compute. reflexivity.
Defined.

(** In a directory that may not be written the test cannot be created:
    [writeFile] throws [EACCES], the run prints the error and ends with
    status 1, and so it does when the test is there and may not be
    written. *)
Example write_fails_without_permission :
  let w := {| fs := read_only_tree; trace := [] |} in
  @run AsciiCase (node_argv []) (str "/p") w
  = (1%N,
     {| fs := read_only_tree;
        trace :=
          [ConsoleLog (str "react-testgen: scanning " ++ [dquote] ++ str "/p/src"
                       ++ [dquote]);
           ReadFile (str "/p/src/A.tsx");
           WriteFile (str "/p/src/A.test.tsx")
             (createTestTemplate (str "/p/src/A.tsx")
                (@exportInfo_of_source AsciiCase (str "/p") (str "/p/src/A.tsx")
                   (str "export default A;")));
           ConsoleError (str "react-testgen: error");
           ConsoleErrorValue EACCES] |})
  /\ write_comps (File true false (str "old")) [] (str "new") = Thrown EACCES.
Proof. split; vm_compute; reflexivity. Qed.

(** ** What a dry run prints *)

(** The turn of a file whose test would be written prints the line. *)
Lemma main_file_dry_run_reports (U : Unicode) (pcwd : jsstring) (opts : CliOptions)
    (file : jsstring) (w : world) :
  dryRun opts = true ->
  force opts = true \/ lookup (fs w) (getTestPath file) = None ->
  fst (main_file pcwd opts file w) = Returned tt ->
  trace (snd (main_file pcwd opts file w))
  = trace w ++ [ReadFile file;
                ConsoleLog (str "[DRY RUN] Would create: " ++ getTestPath file)].
Proof.
  intros Hdry Hcond. unfold main_file, bind, succeeds, fs_access.
  assert (Hbody : forall b : bool,
    b && negb (force opts) = false ->
    let r := (if b && negb (force opts) then ret tt
              else bind (inferExportInfo pcwd file) (fun exportInfo =>
                let template := createTestTemplate file exportInfo in
                if dryRun opts
                then console_log (str "[DRY RUN] Would create: "
                                  ++ getTestPath file)
                else bind (fs_writeFile (getTestPath file) template)
                       (fun _ => console_log
                          ((if b then str "Overwrote" else str "Created")
                           ++ str ": "
                           ++ Path.relative pcwd pcwd (getTestPath file)))))
               w in
    fst r = Returned tt ->
    trace (snd r)
    = trace w ++ [ReadFile file;
                  ConsoleLog (str "[DRY RUN] Would create: " ++ getTestPath file)]).
  { intros b Hgo. rewrite Hgo, Hdry. cbv zeta.
    unfold inferExportInfo, bind, fs_readFile, ret, console_log.
    destruct (lookup (fs w) file) as [[[|] wr content | r wr entries]|];
      cbn [fst snd]; try discriminate.
    intros _. cbn [trace emit]. rewrite <- app_assoc. reflexivity. }
  destruct (lookup (fs w) (getTestPath file)) as [t|].
  - apply (Hbody true).
    destruct Hcond as [-> | Habsent]; [reflexivity | discriminate].
  - apply (Hbody false). reflexivity.
Qed.

Lemma for_each_dry_run_reports
    (U : Unicode) (pcwd : jsstring) (opts : CliOptions)
    (files : list jsstring) (file : jsstring) :
  dryRun opts = true ->
  In file files ->
  forall w,
  force opts = true \/ lookup (fs w) (getTestPath file) = None ->
  fst (for_each files (main_file pcwd opts) w) = Returned tt ->
  exists before after,
    trace (snd (for_each files (main_file pcwd opts) w))
    = trace w ++ before
      ++ [ReadFile file;
          ConsoleLog (str "[DRY RUN] Would create: " ++ getTestPath file)]
      ++ after.
Proof.
  intros Hdry. induction files as [|f files IH]; intros Hin w Hcond Hok;
    [destruct Hin|].
  cbn [for_each] in Hok |- *. unfold bind in Hok |- *.
  destruct Hin as [-> | Hin].
  - pose proof (main_file_dry_run_reports U pcwd opts file w Hdry Hcond) as Hline.
    destruct (main_file pcwd opts file w) as [[[]|e] w1]; [|discriminate].
    cbn [fst snd] in Hline. specialize (Hline eq_refl).
    destruct (for_each_trace U pcwd opts files w1) as (evs & Ht & _).
    exists [], evs. rewrite Ht, Hline, <- app_assoc. reflexivity.
  - pose proof (@main_file_dry_run U pcwd opts f w Hdry) as Hfs.
    destruct (main_file_trace U pcwd opts f w) as (evs1 & Ht1 & _).
    destruct (main_file pcwd opts f w) as [[[]|e] w1]; [|discriminate].
    cbn [snd] in Hfs, Ht1.
    rewrite <- Hfs in Hcond.
    destruct (IH Hin w1 Hcond Hok) as (before & after & Ht).
    exists (evs1 ++ before), after.
    rewrite Ht, Ht1, <- !app_assoc. reflexivity.
Qed.

(** X21.  A dry run that ends with status 0 reports every test it would
    write: for a discovered component whose test is missing, or any
    discovered component under [--force], what the run adds to the trace
    holds the reading of the component followed by the line
    [[DRY RUN] Would create: ] and the test path. *)
Theorem dry_run_reports_every_test
    (U : Unicode) (argv : list jsstring) (pcwd : jsstring) (w : world)
    (file : jsstring) :
  dryRun (parseArgs argv) = true ->
  force (parseArgs argv) = true \/ lookup (fs w) (getTestPath file) = None ->
  fst (run argv pcwd w) = 0%N ->
  In file (found (fs w) (Path.resolve pcwd [pcwd; rootDir (parseArgs argv)])) ->
  exists before after,
    trace (snd (run argv pcwd w))
    = trace w ++ before
      ++ [ReadFile file;
          ConsoleLog (str "[DRY RUN] Would create: " ++ getTestPath file)]
      ++ after.
Proof.
  intros Hdry Hcond Hexit Hin.
  unfold run, main, bind, console_log in Hexit |- *.
  rewrite findComponentFiles_found in Hexit |- *. cbn [fs emit] in Hexit |- *.
  set (opts := parseArgs argv) in *.
  set (files := found (fs w) (Path.resolve pcwd [pcwd; rootDir opts])) in *.
  set (scan := ConsoleLog (str "react-testgen: scanning " ++ [dquote]
                           ++ Path.resolve pcwd [pcwd; rootDir opts] ++ [dquote]))
    in *.
  change {| fs := fs w; trace := trace w ++ [scan] |} with (emit scan w)
    in Hexit |- *.
  assert (Hlen : (List.length files =? 0) = false)
    by (destruct files; [destruct Hin | reflexivity]).
  rewrite Hlen in Hexit |- *.
  pose proof (@for_each_dry_run_reports U pcwd opts files file Hdry Hin
                (emit scan w) Hcond) as Hloop.
  destruct (for_each files (main_file pcwd opts) (emit scan w))
    as [[[]|e] w1]; [|discriminate].
  destruct (Hloop eq_refl) as (before & after & Ht). cbn [snd] in Ht.
  exists (scan :: before),
         (after ++ [ConsoleLog (str "react-testgen: done.")]).
  cbn [snd trace emit]. rewrite Ht. cbn [trace emit].
  rewrite <- !app_assoc. reflexivity.
Qed.

Lemma dry_run_reports_every_test_witness :
  exists before after,
    trace (snd (@run AsciiCase (node_argv [str "--dry-run"]) (str "/p")
                  project_world))
    = trace project_world ++ before
      ++ [ReadFile (str "/p/src/Button.tsx");
          ConsoleLog (str "[DRY RUN] Would create: "
                      ++ getTestPath (str "/p/src/Button.tsx"))]
      ++ after.
Proof.
  apply (@dry_run_reports_every_test AsciiCase (node_argv [str "--dry-run"])
           (str "/p") project_world (str "/p/src/Button.tsx")).
  - vm_compute. reflexivity.
  - right. vm_compute. reflexivity.
  - vm_compute. reflexivity.
  - vm_compute. right. left. reflexivity.
Defined.
